(** * Songbird: scene orchestration and listener transforms

    A shallow embedding of [src/songbird.js] (the [Songbird] scene class) and
    of [listener.js] (the [Listener] class), with the properties of the
    specification proved or refuted on it, followed by further properties
    of the two files: sequences of calls on a scene, what the constructors
    build and share, and how the listener's setters compose.

    - JavaScript numbers are IEEE-754 binary64 values ([spec_float] with
      precision 53 and maximal exponent 1024); a [Float32Array] element is
      stored through the rounding to binary32 and read back as a binary64.
    - Objects handed over by the caller (option objects, coordinate arrays)
      live in a heap of cells addressed by location, so that mutation in
      place and aliasing are visible.
    - Calls that leave the two files (the room, the sources, the ambisonic
      renderer, the audio context) are recorded in a trace, in program
      order, together with the writes to the public [position] member. *)

From Stdlib Require Import ZArith Bool List String Lia.
From Stdlib Require Import SpecFloat.
From stdpp Require Import base option list vector gmap strings.

Local Open Scope Z_scope.

(** ** Numbers *)

Module Num.

Definition num := spec_float.

Definition prec64 : Z := 53.
Definition emax64 : Z := 1024.
Definition prec32 : Z := 24.
Definition emax32 : Z := 128.

Definition NaN : num := S754_nan.
Definition of_Z (z : Z) : num := binary_normalize prec64 emax64 z 0 false.
Definition zero : num := of_Z 0.
Definition one : num := of_Z 1.

(** [a * b] and [a - b] on JavaScript numbers. *)
Definition mul : num -> num -> num := SFmul prec64 emax64.
Definition sub : num -> num -> num := SFsub prec64 emax64.
Definition add : num -> num -> num := SFadd prec64 emax64.

(** [a == b] on two numbers: false on NaN, true on zeros of either sign. *)
Definition eqb : num -> num -> bool := SFeqb.

(** The binary32 value nearest to a binary64 one (ties to even, overflow
    to an infinity): what a store into a [Float32Array] keeps. *)
Definition to_binary32 (x : num) : spec_float :=
  match x with
  | S754_finite s m e => binary_round prec32 emax32 s m e
  | _ => x
  end.

(** A binary32 value read back as a JavaScript number (exact). *)
Definition of_binary32 (y : spec_float) : num :=
  match y with
  | S754_finite s m e => binary_round prec64 emax64 s m e
  | _ => y
  end.

(** [Math.fround]: the number a [Float32Array] element holds after
    [a[i] = x]. *)
Definition fround (x : num) : num := of_binary32 (to_binary32 x).

(** A number that a [Float32Array] holds unchanged. *)
Definition float32_representable (x : num) : Prop := fround x = x.

(** An array read [a[i]] used as a number: a missing element is
    [undefined], which arithmetic and typed-array stores turn into NaN. *)
Definition to_number (v : option num) : num := default NaN v.

End Num.
Export Num.

(** ** Fixed-size typed arrays *)

Module Float32Array.

(** [new Float32Array(n)]: [n] elements, all zero; the length never
    changes. *)
Definition t (n : nat) := vec num n.

Definition make (n : nat) : t n := vreplicate n (S754_zero false).

(** [a[i] = x] with [i] in range. *)
Definition set {n} (a : t n) (i : fin n) (x : num) : t n :=
  vinsert i (fround x) a.

Definition get {n} (a : t n) (i : fin n) : num := a !!! i.

End Float32Array.

(** ** Heap, trace and the monad of effects *)

(** A location is an index into the heap. *)
Abbreviation loc := nat (only parsing).

(** Option object of the [Songbird] constructor. A field is [None] when it
    is [undefined] or [null] (the two values that [== undefined] accepts),
    and otherwise holds a value of the documented type: a number, or a
    reference to an array or object. *)
Record SongbirdOptions := {
  ambisonicOrder : option num;
  listenerPosition : option loc;
  listenerForward : option loc;
  listenerUp : option loc;
  dimensions : option loc;
  materials : option loc;
  speedOfSound : option num
}.

(** Option object of the [Listener] constructor. *)
Record ListenerOptions := {
  l_ambisonicOrder : option num;
  l_position : option loc;
  l_forward : option loc;
  l_up : option loc
}.

(** Objects created by code outside the two files. *)
Inductive external :=
  KAudioContext | KRoom | KSource | KRenderer | KGainNode.

Inductive cell :=
| COptions (o : SongbirdOptions)
| CListenerOptions (o : ListenerOptions)
| CArray (xs : list num)
| CDimensions (d : gmap string num)
| CMaterials (m : gmap string string)
| CExternal (k : external).

Inductive endpoint :=
| RoomOutput (room : loc)
| Node (n : loc).

Inductive event :=
| ENewRoom (room : loc) (listenerPosition dimensions materials : loc)
    (speedOfSound : num)
| ERoomSetProperties (room : loc) (dimensions materials : option loc)
| ERoomSetListenerPosition (room : loc) (x y z : num)
| ENewSource (source : loc) (options : option loc)
| ESourceUpdate (source : loc)
| ECreateHOARenderer (renderer : loc) (order : num) (HRIRUrl : list string)
| ERendererInitialize (renderer : loc)
| ESetRotationMatrix (renderer : loc) (m : Float32Array.t 16)
| ECreateGain (node : loc)
| EConnect (from to : endpoint)
| EWritePosition (i : fin 3) (x : num).

Inductive error :=
| ReferenceError (name : string)
| TypeError (message : string).

Record world := {
  heap : list cell;
  trace : list event;
  (** names bound on the host's global object *)
  globals : list string
}.

(** Result of a computation: a value, a JavaScript exception, or [Stuck]
    when an argument is outside the documented parameter types (a dangling
    reference, an object of another kind). *)
Inductive outcome (A : Type) :=
| Ok (a : A) (w : world)
| Throw (e : error) (w : world)
| Stuck.
Arguments Ok {A} a w.
Arguments Throw {A} e w.
Arguments Stuck {A}.

Definition M (A : Type) := world -> outcome A.

Definition ret {A} (a : A) : M A := fun w => Ok a w.

Definition bind {A B} (m : M A) (k : A -> M B) : M B :=
  fun w =>
    match m w with
    | Ok a w' => k a w'
    | Throw e w' => Throw e w'
    | Stuck => Stuck
    end.

Declare Scope js_scope.
Delimit Scope js_scope with js.
Notation "x <- m ;; k" := (bind m (fun x => k))
  (at level 100, m at next level, right associativity) : js_scope.
Notation "m ;;; k" := (bind m (fun _ => k))
  (at level 100, right associativity) : js_scope.
Local Open Scope js_scope.

Definition throw {A} (e : error) : M A := fun w => Throw e w.
Definition stuck {A} : M A := fun _ => Stuck.

Definition emit (e : event) : M unit :=
  fun w => Ok tt {| heap := heap w; trace := trace w ++ [e];
                    globals := globals w |}.

(** [new ...]: a fresh cell, whose location is its identity. *)
Definition alloc (c : cell) : M loc :=
  fun w => Ok (length (heap w))
              {| heap := heap w ++ [c]; trace := trace w;
                 globals := globals w |}.

Definition load (l : loc) : M cell :=
  fun w => match heap w !! l with Some c => Ok c w | None => Stuck end.

Definition store (l : loc) (c : cell) : M unit :=
  fun w => Ok tt {| heap := <[l := c]> (heap w); trace := trace w;
                    globals := globals w |}.

(** [a[i]] on a numeric array. *)
Definition read_index (l : loc) (i : nat) : M (option num) :=
  c <- load l ;;
  match c with
  | CArray xs => ret (xs !! i)
  | _ => stuck
  end.

(** A free identifier [x] of a module: bound by the module's own
    declarations, else looked up on the global object, else a
    [ReferenceError]. The result is [true] for a module binding and [false]
    for a host global. *)
Definition resolve (scope : list string) (x : string) : M bool :=
  fun w =>
    if bool_decide (x ∈ scope) then Ok true w
    else if bool_decide (x ∈ globals w) then Ok false w
    else Throw (ReferenceError x) w.

(** [arr[i] = v] on a dense array: a replacement in range, an append at
    [i = arr.length]; further out the array would get holes, which a dense
    list does not hold. *)
Definition array_store {A} (arr : list A) (i : nat) (v : A) : option (list A) :=
  if decide (i < length arr)%nat then Some (<[i := v]> arr)
  else if decide (i = length arr) then Some (arr ++ [v])
  else None.

(** [arr.forEach(f)]. *)
Fixpoint forEach {A} (arr : list A) (f : A -> M unit) : M unit :=
  match arr with
  | [] => ret tt
  | x :: rest => f x ;;; forEach rest f
  end.

(** ** Dependencies that are not among the sources

    [utils.js], [encoder.js], [early-reflections.js] and [room.js] are
    required by the two files but are not among the sources. The constants
    and the one function the code reads from them are parameters of the
    development. *)

Record Deps := {
  (** [Encoder.DEFAULT_AMBISONIC_ORDER] *)
  Encoder_DEFAULT_AMBISONIC_ORDER : num;
  (** [Utils.DEFAULT_POSITION], [Utils.DEFAULT_FORWARD], [Utils.DEFAULT_UP] *)
  Utils_DEFAULT_POSITION : list num;
  Utils_DEFAULT_FORWARD : list num;
  Utils_DEFAULT_UP : list num;
  (** [Utils.DEFAULT_SPEED_OF_SOUND] *)
  Utils_DEFAULT_SPEED_OF_SOUND : num;
  (** [EarlyReflections.DEFAULT_DIMENSIONS], [Room.DEFAULT_MATERIALS] *)
  EarlyReflections_DEFAULT_DIMENSIONS : gmap string num;
  Room_DEFAULT_MATERIALS : gmap string string;
  (** [Utils.crossProduct(a, b)], from two arrays to an array *)
  Utils_crossProduct : list num -> list num -> list num
}.

(** [a.slice()]: a fresh copy of a numeric array. *)
Definition slice (xs : list num) : M loc := alloc (CArray xs).

(** [t = {}; Object.assign(t, src)]: the entries of [src] written over those
    of the target, here a fresh empty object. *)
Definition Object_assign {V} (target src : gmap string V) : gmap string V :=
  src ∪ target.

Definition is_Some_b {A} (v : option A) : bool :=
  match v with Some _ => true | None => false end.

(** A member [v] of a required module, read inside a module whose bindings
    are [scope]. A host global of the same name is outside the model. *)
Definition member {A} (scope : list string) (module : string) (v : A) : M A :=
  b <- resolve scope module ;;
  if b : bool then ret v else stuck.

(** [if (options.f == undefined) { options.f = d; after }] on an option
    object read by [rd] and written by [wr]: the default [d] is evaluated
    only when the field is missing, and is written into the object itself. *)
Definition default_field {O A} (rd : M O) (wr : O -> M unit)
    (get : O -> option A) (set : A -> O -> O) (d : M A) (after : A -> M unit)
    : M unit :=
  o <- rd ;;
  match get o with
  | Some _ => ret tt
  | None =>
      v <- d ;;
      o <- rd ;;
      wr (set v o) ;;;
      after v
  end.

Definition nothing {A} (_ : A) : M unit := ret tt.

(** ** The audio context and the renderer

    The Web Audio API of the host and the ambisonic renderer are outside
    the core; their calls are recorded in the trace. *)

Module AudioContext.

(** [context.createGain()]: a new node. *)
Definition createGain : M loc :=
  node <- alloc (CExternal KGainNode) ;;
  emit (ECreateGain node) ;;;
  ret node.

(** [from.connect(to)] *)
Definition connect (from to : endpoint) : M unit :=
  emit (EConnect from to).

End AudioContext.

Module Omnitone.

(** Modelled from the spec: [Omnitone.createHOARenderer] ([omnitone.js] is
    not among the sources), the constructor of the "external renderer that
    consumes a rotation matrix and ambisonic channel streams": a new
    object, given the order and the HRIR list. This constructor accepts
    every order and every list. Which orders the renderer of [omnitone.js]
    accepts, and what it throws for the others, is not in the two files:
    where that matters the constructor is a parameter, see
    [Listener.Listener_with]. *)
Definition createHOARenderer (order : num) (HRIRUrl : list string) : M loc :=
  renderer <- alloc (CExternal KRenderer) ;;
  emit (ECreateHOARenderer renderer order HRIRUrl) ;;;
  ret renderer.

(** Modelled from the spec: [renderer.initialize()] ([omnitone.js] is not
    among the sources); the backend "initializes its filter/impulse-response
    resources asynchronously", and the continuation passed to [then] runs
    only after the constructor has returned. *)
Definition initialize (renderer : loc) : M unit :=
  emit (ERendererInitialize renderer).

(** Modelled from the spec: [renderer.setRotationMatrix(m)] ([omnitone.js]
    is not among the sources): the "backend receives a new rotation
    matrix", as the array holds it at the time of the call. *)
Definition setRotationMatrix (renderer : loc) (m : Float32Array.t 16)
    : M unit :=
  emit (ESetRotationMatrix renderer m).

End Omnitone.

(** ** room.js and source.js

    Both classes are used by [songbird.js] but their files are not among
    the sources. Their calls are recorded in the trace. *)

Module Room.

(** Modelled from the spec: the [Room] constructor ([room.js] is not among
    the sources). The room "owns dimensions, materials, and the early+late
    reflection subsystems"; it receives the scene's option values and
    nothing of the scene itself: a fresh object. The position, dimensions
    and materials are handed over by reference; what [room.js] reads from
    them or writes into them is not in the two files and is not recorded
    here: the event keeps the references only. *)
Definition Room (listenerPosition dimensions materials : loc)
    (speedOfSound : num) : M loc :=
  room <- alloc (CExternal KRoom) ;;
  emit (ENewRoom room listenerPosition dimensions materials speedOfSound) ;;;
  ret room.

(** Modelled from the spec: [Room.prototype.setListenerPosition] ([room.js]
    is not among the sources), which "updates only the early-reflection
    geometry's reference point": an effect on the room alone. *)
Definition setListenerPosition (room : loc) (x y z : num) : M unit :=
  emit (ERoomSetListenerPosition room x y z).

(** Modelled from the spec: [Room.prototype.setProperties] ([room.js] is
    not among the sources), which "merges supplied fields over current
    state" and recomputes the reflections: an effect on the room alone. *)
Definition setProperties (room : loc) (dimensions materials : option loc)
    : M unit :=
  emit (ERoomSetProperties room dimensions materials).

End Room.

Module Source.

(** Modelled from the spec: the [Source] constructor ([source.js] is not
    among the sources). It "constructs a Source bound to this Scene", whose
    back-reference to the scene is "non-owning" and "read-only": a fresh
    object, and nothing written to the scene. The option object is handed
    over by reference; what [source.js] reads from it or writes into it,
    and what it computes for the new source, is not in the two files and
    is not recorded here: the event keeps the reference only. *)
Definition Source (options : option loc) : M loc :=
  source <- alloc (CExternal KSource) ;;
  emit (ENewSource source options) ;;;
  ret source.

(** Modelled from the spec: [Source.prototype._update] ([source.js] is not
    among the sources), which recomputes the source's gains and encoding
    from the listener's transform, read through the back-reference: an
    effect on the source alone. *)
Definition _update (source : loc) : M unit :=
  emit (ESourceUpdate source).

End Source.

(** ** listener.js *)

Module Listener.

(** The bindings of the module: its two [require]s and the function it
    declares. *)
Definition scope : list string := ["Omnitone"; "Utils"; "Listener"]%string.

Record t := {
  position : Float32Array.t 3;
  _tempMatrix4 : Float32Array.t 16;
  _context : loc;
  _renderer : loc;
  input : loc;
  ambisonicOutput : loc;
  output : loc
}.

Definition set_position (p : Float32Array.t 3) (l : t) : t :=
  {| position := p; _tempMatrix4 := _tempMatrix4 l; _context := _context l;
     _renderer := _renderer l; input := input l;
     ambisonicOutput := ambisonicOutput l; output := output l |}.

Definition set_tempMatrix4 (m : Float32Array.t 16) (l : t) : t :=
  {| position := position l; _tempMatrix4 := m; _context := _context l;
     _renderer := _renderer l; input := input l;
     ambisonicOutput := ambisonicOutput l; output := output l |}.

(** [this.position[i] = x] *)
Definition write_position (i : fin 3) (x : num) (l : t) : M t :=
  emit (EWritePosition i x) ;;;
  ret (set_position (Float32Array.set (position l) i x) l).

Definition foa_urls : list string := [
  "https://cdn.rawgit.com/google/songbird/master/build/resources/foa-1-2.wav";
  "https://cdn.rawgit.com/google/songbird/master/build/resources/foa-3-4.wav"
]%string.

Definition soa_urls : list string := [
  "https://cdn.rawgit.com/google/songbird/master/build/resources/soa-1-2.wav";
  "https://cdn.rawgit.com/google/songbird/master/build/resources/soa-3-4.wav";
  "https://cdn.rawgit.com/google/songbird/master/build/resources/soa-5-6.wav";
  "https://cdn.rawgit.com/google/songbird/master/build/resources/soa-7-8.wav";
  "https://cdn.rawgit.com/google/songbird/master/build/resources/soa-9.wav"
]%string.

Definition toa_urls : list string := [
  "https://cdn.rawgit.com/google/songbird/master/build/resources/toa-1-2.wav";
  "https://cdn.rawgit.com/google/songbird/master/build/resources/toa-3-4.wav";
  "https://cdn.rawgit.com/google/songbird/master/build/resources/toa-5-6.wav";
  "https://cdn.rawgit.com/google/songbird/master/build/resources/toa-7-8.wav";
  "https://cdn.rawgit.com/google/songbird/master/build/resources/toa-9-10.wav";
  "https://cdn.rawgit.com/google/songbird/master/build/resources/toa-11-12.wav";
  "https://cdn.rawgit.com/google/songbird/master/build/resources/toa-13-14.wav";
  "https://cdn.rawgit.com/google/songbird/master/build/resources/toa-15-16.wav"
]%string.

(** The HRIR files chosen for an ambisonic order: [urls] starts as [['']]
    and the final [else] branch leaves it so. *)
Definition select_urls (order : num) : list string :=
  let urls := [""%string] in
  if Num.eqb order (of_Z 1) then foa_urls
  else if Num.eqb order (of_Z 2) then soa_urls
  else if Num.eqb order (of_Z 3) then toa_urls
  else urls.

Section WithDeps.
Variable deps : Deps.

(** [Listener.prototype.setOrientation] *)
Definition setOrientation (forward_x forward_y forward_z up_x up_y up_z : num)
    (this : t) : M t :=
  let right := Utils_crossProduct deps [forward_x; forward_y; forward_z]
                 [up_x; up_y; up_z] in
  let m := _tempMatrix4 this in
  let m := Float32Array.set m 0%fin (to_number (right !! 0%nat)) in
  let m := Float32Array.set m 1%fin (to_number (right !! 1%nat)) in
  let m := Float32Array.set m 2%fin (to_number (right !! 2%nat)) in
  let m := Float32Array.set m 3%fin up_x in
  let m := Float32Array.set m 4%fin up_y in
  let m := Float32Array.set m 5%fin up_z in
  let m := Float32Array.set m 6%fin forward_x in
  let m := Float32Array.set m 7%fin forward_y in
  let m := Float32Array.set m 8%fin forward_z in
  let this := set_tempMatrix4 m this in
  Omnitone.setRotationMatrix (_renderer this) (_tempMatrix4 this) ;;;
  ret this.

(** [Listener.prototype.setFromMatrix]; [elements] is [matrix4.elements]. *)
Definition setFromMatrix (elements : list num) (this : t) : M t :=
  let e (i : nat) := to_number (elements !! i) in
  let m := _tempMatrix4 this in
  let m := Float32Array.set m 0%fin (e 0%nat) in
  let m := Float32Array.set m 1%fin (e 1%nat) in
  let m := Float32Array.set m 2%fin (e 2%nat) in
  let m := Float32Array.set m 3%fin (e 4%nat) in
  let m := Float32Array.set m 4%fin (e 5%nat) in
  let m := Float32Array.set m 5%fin (e 6%nat) in
  let m := Float32Array.set m 6%fin (e 8%nat) in
  let m := Float32Array.set m 7%fin (e 9%nat) in
  let m := Float32Array.set m 8%fin (e 10%nat) in
  let this := set_tempMatrix4 m this in
  Omnitone.setRotationMatrix (_renderer this) (_tempMatrix4 this) ;;;
  this <- write_position 0%fin (e 12%nat) this ;;
  this <- write_position 1%fin (e 13%nat) this ;;
  write_position 2%fin (e 14%nat) this.

Definition load_options (l : loc) : M ListenerOptions :=
  c <- load l ;;
  match c with CListenerOptions o => ret o | _ => stuck end.

Definition store_options (l : loc) (o : ListenerOptions) : M unit :=
  store l (CListenerOptions o).

Definition set_l_ambisonicOrder (v : num) (o : ListenerOptions) :=
  {| l_ambisonicOrder := Some v; l_position := l_position o;
     l_forward := l_forward o; l_up := l_up o |}.
Definition set_l_position (v : loc) (o : ListenerOptions) :=
  {| l_ambisonicOrder := l_ambisonicOrder o; l_position := Some v;
     l_forward := l_forward o; l_up := l_up o |}.
Definition set_l_forward (v : loc) (o : ListenerOptions) :=
  {| l_ambisonicOrder := l_ambisonicOrder o; l_position := l_position o;
     l_forward := Some v; l_up := l_up o |}.
Definition set_l_up (v : loc) (o : ListenerOptions) :=
  {| l_ambisonicOrder := l_ambisonicOrder o; l_position := l_position o;
     l_forward := l_forward o; l_up := Some v |}.

Definition empty_options : ListenerOptions :=
  {| l_ambisonicOrder := None; l_position := None; l_forward := None;
     l_up := None |}.

(** The block of the constructor that fills in the defaults, on the option
    object at [options]. *)
Definition fill_defaults (options : loc) : M unit :=
  let rd := load_options options in
  let wr := store_options options in
  default_field rd wr l_ambisonicOrder set_l_ambisonicOrder
    (member scope "Encoder" (Encoder_DEFAULT_AMBISONIC_ORDER deps))
    nothing ;;;
  default_field rd wr l_position set_l_position
    (xs <- member scope "Utils" (Utils_DEFAULT_POSITION deps) ;; slice xs)
    nothing ;;;
  default_field rd wr l_forward set_l_forward
    (xs <- member scope "Utils" (Utils_DEFAULT_FORWARD deps) ;; slice xs)
    nothing ;;;
  default_field rd wr l_up set_l_up
    (xs <- member scope "Utils" (Utils_DEFAULT_UP deps) ;; slice xs)
    nothing.

(** [function Listener (context, options)]. The parameter
    [createHOARenderer] stands for [Omnitone.Omnitone.createHOARenderer]
    applied to the context: the renderer's constructor may return a
    renderer or throw, as [omnitone.js] decides. *)
Definition Listener_with (createHOARenderer : num -> list string -> M loc)
    (context : loc) (options : option loc) : M t :=
  (* Use defaults for undefined arguments. *)
  options <- match options with
             | Some l => ret l
             | None => alloc (CListenerOptions empty_options)
             end ;;
  fill_defaults options ;;;
  o <- load_options options ;;
  match l_ambisonicOrder o, l_forward o, l_up o with
  | Some order, Some forward, Some up =>
      (* Member variables. *)
      let position := Float32Array.make 3 in
      let tempMatrix4 := Float32Array.make 16 in
      (* Select the appropriate HRIR filters. *)
      let urls := select_urls order in
      (* Create audio nodes. *)
      member scope "Omnitone" tt ;;;
      renderer <- createHOARenderer order urls ;;
      input <- AudioContext.createGain ;;
      ambisonicOutput <- AudioContext.createGain ;;
      output <- AudioContext.createGain ;;
      (* Initialize the renderer; the connections of the continuation are
         made later, when the promise resolves. *)
      Omnitone.initialize renderer ;;;
      let this := {| position := position; _tempMatrix4 := tempMatrix4;
                     _context := context; _renderer := renderer;
                     input := input; ambisonicOutput := ambisonicOutput;
                     output := output |} in
      (* Set orientation and update rotation matrix accordingly. *)
      f0 <- read_index forward 0 ;;
      f1 <- read_index forward 1 ;;
      f2 <- read_index forward 2 ;;
      u0 <- read_index up 0 ;;
      u1 <- read_index up 1 ;;
      u2 <- read_index up 2 ;;
      setOrientation (to_number f0) (to_number f1) (to_number f2)
        (to_number u0) (to_number u1) (to_number u2) this
  | _, _, _ => stuck
  end.

(** The constructor with the renderer of [Omnitone.createHOARenderer]. *)
Definition Listener (context : loc) (options : option loc) : M t :=
  Listener_with Omnitone.createHOARenderer context options.

End WithDeps.
End Listener.

(** ** songbird.js *)

Module Songbird.

(** The bindings of the module: its six [require]s and the function it
    declares. *)
Definition scope : list string :=
  ["Listener"; "Source"; "Room"; "EarlyReflections"; "Encoder"; "Utils";
   "Songbird"]%string.

Record t := {
  _ambisonicOrder : num;
  _sources : list loc;
  _room : loc;
  _listener : Listener.t;
  _context : loc;
  output : loc;
  ambisonicOutput : loc
}.

Definition set_sources (s : list loc) (this : t) : t :=
  {| _ambisonicOrder := _ambisonicOrder this; _sources := s;
     _room := _room this; _listener := _listener this;
     _context := _context this; output := output this;
     ambisonicOutput := ambisonicOutput this |}.

Definition set_listener (l : Listener.t) (this : t) : t :=
  {| _ambisonicOrder := _ambisonicOrder this; _sources := _sources this;
     _room := _room this; _listener := l;
     _context := _context this; output := output this;
     ambisonicOutput := ambisonicOutput this |}.

Definition load_options (l : loc) : M SongbirdOptions :=
  c <- load l ;;
  match c with COptions o => ret o | _ => stuck end.

Definition store_options (l : loc) (o : SongbirdOptions) : M unit :=
  store l (COptions o).

Definition empty_options : SongbirdOptions :=
  {| ambisonicOrder := None; listenerPosition := None;
     listenerForward := None; listenerUp := None; dimensions := None;
     materials := None; speedOfSound := None |}.

(** Some recognized field is missing ([undefined] or [null]). *)
Definition some_missing (o : SongbirdOptions) : bool :=
  negb (is_Some_b (ambisonicOrder o) && is_Some_b (listenerPosition o)
        && is_Some_b (listenerForward o) && is_Some_b (listenerUp o)
        && is_Some_b (dimensions o) && is_Some_b (materials o)
        && is_Some_b (speedOfSound o)).

Definition set_ambisonicOrder (v : num) (o : SongbirdOptions) :=
  {| ambisonicOrder := Some v; listenerPosition := listenerPosition o;
     listenerForward := listenerForward o; listenerUp := listenerUp o;
     dimensions := dimensions o; materials := materials o;
     speedOfSound := speedOfSound o |}.
Definition set_listenerPosition (v : loc) (o : SongbirdOptions) :=
  {| ambisonicOrder := ambisonicOrder o; listenerPosition := Some v;
     listenerForward := listenerForward o; listenerUp := listenerUp o;
     dimensions := dimensions o; materials := materials o;
     speedOfSound := speedOfSound o |}.
Definition set_listenerForward (v : loc) (o : SongbirdOptions) :=
  {| ambisonicOrder := ambisonicOrder o;
     listenerPosition := listenerPosition o;
     listenerForward := Some v; listenerUp := listenerUp o;
     dimensions := dimensions o; materials := materials o;
     speedOfSound := speedOfSound o |}.
Definition set_listenerUp (v : loc) (o : SongbirdOptions) :=
  {| ambisonicOrder := ambisonicOrder o;
     listenerPosition := listenerPosition o;
     listenerForward := listenerForward o; listenerUp := Some v;
     dimensions := dimensions o; materials := materials o;
     speedOfSound := speedOfSound o |}.
Definition set_dimensions (v : loc) (o : SongbirdOptions) :=
  {| ambisonicOrder := ambisonicOrder o;
     listenerPosition := listenerPosition o;
     listenerForward := listenerForward o; listenerUp := listenerUp o;
     dimensions := Some v; materials := materials o;
     speedOfSound := speedOfSound o |}.
Definition set_materials (v : loc) (o : SongbirdOptions) :=
  {| ambisonicOrder := ambisonicOrder o;
     listenerPosition := listenerPosition o;
     listenerForward := listenerForward o; listenerUp := listenerUp o;
     dimensions := dimensions o; materials := Some v;
     speedOfSound := speedOfSound o |}.
Definition set_speedOfSound (v : num) (o : SongbirdOptions) :=
  {| ambisonicOrder := ambisonicOrder o;
     listenerPosition := listenerPosition o;
     listenerForward := listenerForward o; listenerUp := listenerUp o;
     dimensions := dimensions o; materials := materials o;
     speedOfSound := Some v |}.

Section WithDeps.
Variable deps : Deps.

(** [Object.assign(options.dimensions, EarlyReflections.DEFAULT_DIMENSIONS)]
    on the object at [d]. *)
Definition assign_dimensions (d : loc) : M unit :=
  c <- load d ;;
  match c with
  | CDimensions target =>
      D <- member scope "EarlyReflections"
             (EarlyReflections_DEFAULT_DIMENSIONS deps) ;;
      store d (CDimensions (Object_assign target D))
  | _ => stuck
  end.

(** [Object.assign(options.materials, Room.DEFAULT_MATERIALS)] on the object
    at [m]. *)
Definition assign_materials (m : loc) : M unit :=
  c <- load m ;;
  match c with
  | CMaterials target =>
      D <- member scope "Room" (Room_DEFAULT_MATERIALS deps) ;;
      store m (CMaterials (Object_assign target D))
  | _ => stuck
  end.

(** The block of the constructor that fills in the defaults, on the option
    object at [options]. *)
Definition fill_defaults (options : loc) : M unit :=
  let rd := load_options options in
  let wr := store_options options in
  default_field rd wr ambisonicOrder set_ambisonicOrder
    (member scope "Encoder" (Encoder_DEFAULT_AMBISONIC_ORDER deps))
    nothing ;;;
  default_field rd wr listenerPosition set_listenerPosition
    (xs <- member scope "Utils" (Utils_DEFAULT_POSITION deps) ;; slice xs)
    nothing ;;;
  default_field rd wr listenerForward set_listenerForward
    (xs <- member scope "Utils" (Utils_DEFAULT_FORWARD deps) ;; slice xs)
    nothing ;;;
  default_field rd wr listenerUp set_listenerUp
    (xs <- member scope "Utils" (Utils_DEFAULT_UP deps) ;; slice xs)
    nothing ;;;
  default_field rd wr dimensions set_dimensions
    (alloc (CDimensions ∅)) assign_dimensions ;;;
  default_field rd wr materials set_materials
    (alloc (CMaterials ∅)) assign_materials ;;;
  default_field rd wr speedOfSound set_speedOfSound
    (member scope "Utils" (Utils_DEFAULT_SPEED_OF_SOUND deps))
    nothing.

(** [function Songbird (context, options)] *)
Definition Songbird (context : loc) (options : option loc) : M t :=
  (* Use defaults for undefined arguments. *)
  options <- match options with
             | Some l => ret l
             | None => alloc (COptions empty_options)
             end ;;
  fill_defaults options ;;;
  o <- load_options options ;;
  match ambisonicOrder o, listenerPosition o, listenerForward o,
        listenerUp o, dimensions o, materials o, speedOfSound o with
  | Some order, Some lpos, Some fwd, Some up, Some dims, Some mats,
    Some speed =>
      (* Create member submodules. *)
      let sources : list loc := [] in
      member scope "Room" tt ;;;
      room <- Room.Room lpos dims mats speed ;;
      member scope "Listener" tt ;;;
      lopts <- alloc (CListenerOptions
                        {| l_ambisonicOrder := Some order;
                           l_position := Some lpos;
                           l_forward := Some fwd;
                           l_up := Some up |}) ;;
      listener <- Listener.Listener deps context (Some lopts) ;;
      (* Create auxillary audio nodes. *)
      output <- AudioContext.createGain ;;
      ambisonicOutput <- AudioContext.createGain ;;
      (* Connect audio graph. *)
      AudioContext.connect (RoomOutput room)
        (Node (Listener.input listener)) ;;;
      AudioContext.connect (Node (Listener.output listener))
        (Node output) ;;;
      AudioContext.connect (Node (Listener.ambisonicOutput listener))
        (Node ambisonicOutput) ;;;
      ret {| _ambisonicOrder := order; _sources := sources; _room := room;
             _listener := listener; _context := context; output := output;
             ambisonicOutput := ambisonicOutput |}
  | _, _, _, _, _, _, _ => stuck
  end.

(** [Songbird.prototype.createSource] *)
Definition createSource (options : option loc) (this : t) : M (loc * t) :=
  member scope "Source" tt ;;;
  source <- Source.Source options ;;
  match array_store (_sources this) (length (_sources this)) source with
  | Some sources => ret (source, set_sources sources this)
  | None => stuck
  end.

(** [Songbird.prototype.setRoomProperties] *)
Definition setRoomProperties (dimensions materials : option loc) (this : t)
    : M t :=
  Room.setProperties (_room this) dimensions materials ;;;
  ret this.

(** [Songbird.prototype.setListenerPosition] *)
Definition setListenerPosition (x y z : num) (this : t) : M t :=
  (* Update listener position. *)
  l <- Listener.write_position 0%fin x (_listener this) ;;
  l <- Listener.write_position 1%fin y l ;;
  l <- Listener.write_position 2%fin z l ;;
  let this := set_listener l this in
  Room.setListenerPosition (_room this) x y z ;;;
  (* Update sources with new listener position. *)
  forEach (_sources this) (fun element => Source._update element) ;;;
  ret this.

(** [Songbird.prototype.setListenerOrientation] *)
Definition setListenerOrientation
    (forward_x forward_y forward_z up_x up_y up_z : num) (this : t) : M t :=
  l <- Listener.setOrientation deps forward_x forward_y forward_z
         up_x up_y up_z (_listener this) ;;
  ret (set_listener l this).

(** [Songbird.prototype.setListenerFromMatrix]; [elements] is
    [matrix.elements]. *)
Definition setListenerFromMatrix (elements : list num) (this : t) : M t :=
  l <- Listener.setFromMatrix elements (_listener this) ;;
  let this := set_listener l this in
  (* Update the rest of the scene using new listener position. *)
  setListenerPosition
    (Float32Array.get (Listener.position (_listener this)) 0%fin)
    (Float32Array.get (Listener.position (_listener this)) 1%fin)
    (Float32Array.get (Listener.position (_listener this)) 2%fin) this.

(** A sequence of [createSource] calls, one per option argument; the
    handles come back in call order. *)
Fixpoint createSources (calls : list (option loc)) (this : t)
    : M (list loc * t) :=
  match calls with
  | [] => ret ([], this)
  | options :: rest =>
      r <- createSource options this ;;
      rs <- createSources rest (snd r) ;;
      ret (fst r :: fst rs, snd rs)
  end.

End WithDeps.
End Songbird.

(** ** Vocabulary of the statements *)

(** The world [w] after the events [es]; heap and globals unchanged. *)
Definition with_trace (w : world) (es : list event) : world :=
  {| heap := heap w; trace := trace w ++ es; globals := globals w |}.

(** A number that is neither an infinity nor NaN. *)
Definition finite (x : num) : bool :=
  match x with
  | S754_zero _ | S754_finite _ _ _ => true
  | _ => false
  end.

(** Modelled from the spec: [Utils.crossProduct] ([utils.js] is not among
    the sources). The spec fixes a right-handed convention with
    "right = forward × up", the cross product of two 3-element arrays,
    computed here with JavaScript's multiplication and subtraction. *)
Definition crossProduct (a b : list num) : list num :=
  let a' (i : nat) := to_number (a !! i) in
  let b' (i : nat) := to_number (b !! i) in
  [ sub (mul (a' 1%nat) (b' 2%nat)) (mul (a' 2%nat) (b' 1%nat));
    sub (mul (a' 2%nat) (b' 0%nat)) (mul (a' 0%nat) (b' 2%nat));
    sub (mul (a' 0%nat) (b' 1%nat)) (mul (a' 1%nat) (b' 0%nat)) ].

(** Modelled from the spec: [Utils.getNumberOfChannelsFromAmbisonicOrder]
    ([utils.js] is not among the sources); the ambisonic order "determines
    channel count via (order+1)²". *)
Definition getNumberOfChannelsFromAmbisonicOrder (order : num) : num :=
  mul (add order (of_Z 1)) (add order (of_Z 1)).

(** Dependencies with the cross product of the spec; the constants stay
    free. *)
Definition with_crossProduct (deps : Deps) : Deps :=
  {| Encoder_DEFAULT_AMBISONIC_ORDER := Encoder_DEFAULT_AMBISONIC_ORDER deps;
     Utils_DEFAULT_POSITION := Utils_DEFAULT_POSITION deps;
     Utils_DEFAULT_FORWARD := Utils_DEFAULT_FORWARD deps;
     Utils_DEFAULT_UP := Utils_DEFAULT_UP deps;
     Utils_DEFAULT_SPEED_OF_SOUND := Utils_DEFAULT_SPEED_OF_SOUND deps;
     EarlyReflections_DEFAULT_DIMENSIONS :=
       EarlyReflections_DEFAULT_DIMENSIONS deps;
     Room_DEFAULT_MATERIALS := Room_DEFAULT_MATERIALS deps;
     Utils_crossProduct := crossProduct |}.

(** The heap [h'] is at least as long as [h] and keeps every cell of [h],
    except possibly the one at [l]. *)
Definition heap_grows (l : loc) (h h' : list cell) : Prop :=
  (length h <= length h')%nat /\
  forall k c, k <> l -> h !! k = Some c -> h' !! k = Some c.

(** From [w] to [w'] only the heap has changed, as [heap_grows] allows. *)
Definition grows_except (l : loc) (w w' : world) : Prop :=
  trace w' = trace w /\ globals w' = globals w /\
  heap_grows l (heap w) (heap w').

(** The record [o] with [v] in the field [get] when that field was
    missing. *)
Definition fill_with {O A} (get : O -> option A) (set : A -> O -> O) (v : A)
    (o : O) : O :=
  match get o with Some _ => o | None => set v o end.

(** The array a constructor reads for an array-valued option: the array
    the field refers to, or the default [D] when the field is missing;
    nothing when the reference is not to an array. *)
Definition field_array (h : list cell) (field : option loc) (D : list num)
    : option (list num) :=
  match field with
  | None => Some D
  | Some p => match h !! p with Some (CArray xs) => Some xs | _ => None end
  end.

(** A reference-valued option after default filling: the reference the
    caller gave, or else a reference to a cell that is new in [h'] and
    holds [c]. *)
Definition filled_ref (h h' : list cell) (old new : option loc) (c : cell)
    : Prop :=
  match old with
  | Some p => new = Some p
  | None => exists p, new = Some p /\ h !! p = None /\ h' !! p = Some c
  end.

(** Every cell of [h] is still in [h'], unchanged. *)
Definition heap_extends (h h' : list cell) : Prop :=
  forall k c, h !! k = Some c -> h' !! k = Some c.

(** The position of the leading bit of [m * 2^e]: the value lies in
    [[2^(mag - 1), 2^mag)]. *)
Definition mag (m : positive) (e : Z) : Z := Zpos (digits2_pos m) + e.

(** What rounding a positive value of magnitude [M], with sign [s], to a
    format of minimal exponent [emin] can give: never NaN, the sign is
    kept, zero only from magnitudes at most [emin], and a finite result
    at most one binade above the operand (or above the smallest
    subnormal) and never below it. *)
Definition rounded (emin : Z) (s : bool) (M : Z) (r : spec_float) : Prop :=
  match r with
  | S754_zero s' => s' = s /\ M <= emin
  | S754_finite s' m' e' =>
      s' = s /\ mag m' e' <= Z.max M emin + 1 /\ (emin < M -> M <= mag m' e')
  | S754_infinity s' => s' = s
  | S754_nan => False
  end.

(** [rows] is the 3x3 identity, row by row, under JavaScript's [==]. *)
Definition is_identity3 (rows : list num) : bool :=
  match rows with
  | [a; b; c; d; e; f; g; h; i] =>
      Num.eqb a one && Num.eqb b zero && Num.eqb c zero
      && Num.eqb d zero && Num.eqb e one && Num.eqb f zero
      && Num.eqb g zero && Num.eqb h zero && Num.eqb i one
  | _ => false
  end.

(** The matrices pushed to the renderer along a trace, oldest first. *)
Definition pushed (tr : list event) : list (Float32Array.t 16) :=
  omap (fun ev => match ev with
                  | ESetRotationMatrix _ m => Some m
                  | _ => None
                  end) tr.

(** Every element of the array is a binary32 number, as in a
    [Float32Array] that is written only through its indices. *)
Definition float32_valued {n} (a : Float32Array.t n) : Prop :=
  Forall float32_representable (vec_to_list a).

(** ** Sequences of calls on a scene *)

(** A call of one of the scene's methods, with its arguments. *)
Inductive call :=
| CreateSource (options : option loc)
| SetRoomProperties (dimensions materials : option loc)
| SetListenerPosition (x y z : num)
| SetListenerOrientation (forward_x forward_y forward_z up_x up_y up_z : num)
| SetListenerFromMatrix (elements : list num).

(** The call made on the scene [this]; the source [createSource] returns
    is left to the caller. *)
Definition do_call (deps : Deps) (c : call) (this : Songbird.t)
    : M Songbird.t :=
  match c with
  | CreateSource options =>
      r <- Songbird.createSource options this ;; ret (snd r)
  | SetRoomProperties dimensions materials =>
      Songbird.setRoomProperties dimensions materials this
  | SetListenerPosition x y z => Songbird.setListenerPosition x y z this
  | SetListenerOrientation fx fy fz ux uy uz =>
      Songbird.setListenerOrientation deps fx fy fz ux uy uz this
  | SetListenerFromMatrix elements =>
      Songbird.setListenerFromMatrix elements this
  end.

(** The calls made one after the other. *)
Fixpoint do_calls (deps : Deps) (cs : list call) (this : Songbird.t)
    : M Songbird.t :=
  match cs with
  | [] => ret this
  | c :: rest => this <- do_call deps c this ;; do_calls deps rest this
  end.

(** The number of sources a call creates. *)
Definition creates (c : call) : nat :=
  match c with CreateSource _ => 1%nat | _ => 0%nat end.

(** The calls that set the listener's position. *)
Definition moves (c : call) : bool :=
  match c with
  | SetListenerPosition _ _ _ | SetListenerFromMatrix _ => true
  | _ => false
  end.

(** The calls that set the listener's orientation. *)
Definition turns (c : call) : bool :=
  match c with
  | SetListenerOrientation _ _ _ _ _ _ | SetListenerFromMatrix _ => true
  | _ => false
  end.

(** How many of the calls satisfy [p]. *)
Definition number (p : call -> bool) (cs : list call) : nat :=
  sum_list_with (fun c => if p c then 1%nat else 0%nat) cs.

(** The sources updated along a trace, oldest first. *)
Definition updated (tr : list event) : list loc :=
  omap (fun ev => match ev with
                  | ESourceUpdate s => Some s
                  | _ => None
                  end) tr.

(** How often [s] occurs in [l]. *)
Definition occurrences (s : loc) (l : list loc) : nat :=
  length (filter (eq s) l).

(** The sources the calls [cs] update, on a scene whose collection is
    [sources] and whose next new object is [next]. *)
Fixpoint expected_updates (cs : list call) (sources : list loc) (next : nat)
    : list loc :=
  match cs with
  | [] => []
  | c :: rest =>
      (if moves c then sources else [])
      ++ expected_updates rest (sources ++ seq next (creates c))
           (next + creates c)
  end.

(** The two scenes have the same room, renderer, audio nodes, context and
    ambisonic order. *)
Definition same_handles (this this' : Songbird.t) : Prop :=
  Songbird._room this' = Songbird._room this
  /\ Songbird._ambisonicOrder this' = Songbird._ambisonicOrder this
  /\ Songbird._context this' = Songbird._context this
  /\ Songbird.output this' = Songbird.output this
  /\ Songbird.ambisonicOutput this' = Songbird.ambisonicOutput this
  /\ Listener._renderer (Songbird._listener this')
     = Listener._renderer (Songbird._listener this)
  /\ Listener._context (Songbird._listener this')
     = Listener._context (Songbird._listener this)
  /\ Listener.input (Songbird._listener this')
     = Listener.input (Songbird._listener this)
  /\ Listener.output (Songbird._listener this')
     = Listener.output (Songbird._listener this)
  /\ Listener.ambisonicOutput (Songbird._listener this')
     = Listener.ambisonicOutput (Songbird._listener this).

(** The elements 9 to 15 of the listener's matrix. *)
Definition matrix_rest (this : Songbird.t) : list num :=
  drop 9 (vec_to_list (Listener._tempMatrix4 (Songbird._listener this))).

(** The number of sources the calls create. *)
Definition creations (cs : list call) : nat := sum_list_with creates cs.

(** The connections made along a trace, oldest first. *)
Definition connections (tr : list event) : list (endpoint * endpoint) :=
  omap (fun ev => match ev with
                  | EConnect from to => Some (from, to)
                  | _ => None
                  end) tr.

(** The column [k] of the rotation part of a 4x4 matrix given by its
    [elements] in column-major order; a missing element reads as
    [undefined], that is NaN as a number. *)
Definition matrix_column (elements : list num) (k : nat) : list num :=
  map (fun i => to_number (elements !! (4 * k + i)%nat)) [0; 1; 2]%nat.

(** The scene the calls [cs] leave, if they return. *)
Definition state_after (deps : Deps) (cs : list call) (this : Songbird.t)
    (w : world) : option Songbird.t :=
  match do_calls deps cs this w with
  | Ok this' _ => Some this'
  | _ => None
  end.

(** ** Concrete data for the examples

    The constants of [Sample.deps] are sample values: a forward vector
    (0, 0, 1) and an up vector (0, 1, 0). *)

Module Sample.

(** The number 0.1, that is 7205759403792794 * 2^-56. *)
Definition tenth : num := S754_finite false 7205759403792794 (-56).

Definition deps : Deps :=
  {| Encoder_DEFAULT_AMBISONIC_ORDER := one;
     Utils_DEFAULT_POSITION := [zero; zero; zero];
     Utils_DEFAULT_FORWARD := [zero; zero; one];
     Utils_DEFAULT_UP := [zero; one; zero];
     Utils_DEFAULT_SPEED_OF_SOUND := of_Z 343;
     EarlyReflections_DEFAULT_DIMENSIONS :=
       {[ "width"%string := zero; "height"%string := zero;
          "depth"%string := zero ]};
     Room_DEFAULT_MATERIALS := {[ "left"%string := "transparent"%string ]};
     Utils_crossProduct := crossProduct |}.

Definition world0 : world := {| heap := []; trace := []; globals := [] |}.

(** An audio context at 0, a [Listener] option object at 1 with the given
    order, and its position, forward and up arrays at 2, 3 and 4. *)
Definition listener_world (order : option num) : world :=
  {| heap := [CExternal KAudioContext;
              CListenerOptions
                {| l_ambisonicOrder := order; l_position := Some 2%nat;
                   l_forward := Some 3%nat; l_up := Some 4%nat |};
              CArray [zero; zero; zero];
              CArray [zero; zero; one];
              CArray [zero; one; zero]];
     trace := []; globals := [] |}.

(** An audio context at 0 and a [Songbird] option object at 1. *)
Definition options_world (o : SongbirdOptions) : world :=
  {| heap := [CExternal KAudioContext; COptions o];
     trace := []; globals := [] |}.

(** The option object [{ambisonicOrder: 1}]. *)
Definition first_order : SongbirdOptions :=
  Songbird.set_ambisonicOrder one Songbird.empty_options.

(** A listener as the constructor leaves its arrays, with handles 0 to 4. *)
Definition listener0 : Listener.t :=
  {| Listener.position := Float32Array.make 3;
     Listener._tempMatrix4 := Float32Array.make 16;
     Listener._context := 0%nat; Listener._renderer := 1%nat;
     Listener.input := 2%nat; Listener.ambisonicOutput := 3%nat;
     Listener.output := 4%nat |}.

(** A renderer constructor that takes the orders 1, 2 and 3 only and
    throws a [TypeError] for any other. *)
Definition failing_renderer (order : num) (HRIRUrl : list string) : M loc :=
  if Num.eqb order (of_Z 1) || Num.eqb order (of_Z 2)
     || Num.eqb order (of_Z 3)
  then Omnitone.createHOARenderer order HRIRUrl
  else throw (TypeError "order").

(** A world matrix with the identity rotation and the translation
    (0.1, 0, 0), in column-major order. *)
Definition matrix_tenth : list num :=
  [one; zero; zero; zero;
   zero; one; zero; zero;
   zero; zero; one; zero;
   tenth; zero; zero; one].

(** A scene around [listener0]: the room at 5, the scene's two outputs at
    6 and 7 and two sources at 8 and 9. *)
Definition scene0 : Songbird.t :=
  {| Songbird._ambisonicOrder := one; Songbird._sources := [8; 9]%nat;
     Songbird._room := 5%nat; Songbird._listener := listener0;
     Songbird._context := 0%nat; Songbird.output := 6%nat;
     Songbird.ambisonicOutput := 7%nat |}.

(** The objects of [scene0]. *)
Definition scene_world : world :=
  {| heap := [CExternal KAudioContext; CExternal KRenderer;
              CExternal KGainNode; CExternal KGainNode; CExternal KGainNode;
              CExternal KRoom; CExternal KGainNode; CExternal KGainNode;
              CExternal KSource; CExternal KSource];
     trace := []; globals := [] |}.

(** An audio context at 0, a [Songbird] option object at 1 whose only
    field is [listenerPosition], and the position (3, -2, 5) at 2. *)
Definition positioned_world : world :=
  {| heap := [CExternal KAudioContext;
              COptions (Songbird.set_listenerPosition 2%nat
                          Songbird.empty_options);
              CArray [of_Z 3; of_Z (-2); of_Z 5]];
     trace := []; globals := [] |}.

(** The option object of a caller who gives the position, the
    dimensions, the materials and the speed of sound. *)
Definition furnished_options : SongbirdOptions :=
  {| ambisonicOrder := None; listenerPosition := Some 2%nat;
     listenerForward := None; listenerUp := None;
     dimensions := Some 3%nat; materials := Some 4%nat;
     speedOfSound := Some (of_Z 340) |}.

(** An audio context at 0, [furnished_options] at 1, the position
    (3, -2, 5) at 2, the dimensions [{width: 2}] at 3 and the materials
    [{left: 'brick'}] at 4. *)
Definition furnished_world : world :=
  {| heap := [CExternal KAudioContext; COptions furnished_options;
              CArray [of_Z 3; of_Z (-2); of_Z 5];
              CDimensions {[ "width"%string := of_Z 2 ]};
              CMaterials {[ "left"%string := "brick"%string ]}];
     trace := []; globals := [] |}.

End Sample.

(** * Properties *)

(** ** Running the monad *)

Lemma bind_Ok {A B} (m : M A) (k : A -> M B) w a w' :
  m w = Ok a w' -> bind m k w = k a w'.
Proof. intros H. unfold bind. now rewrite H. Qed.

Lemma bind_Throw {A B} (m : M A) (k : A -> M B) w e w' :
  m w = Throw e w' -> bind m k w = Throw e w'.
Proof. intros H. unfold bind. now rewrite H. Qed.

Lemma with_trace_nil w : with_trace w [] = w.
Proof. destruct w. unfold with_trace. simpl. now rewrite app_nil_r. Qed.

Lemma with_trace_app w es es' :
  with_trace (with_trace w es) es' = with_trace w (es ++ es').
Proof. unfold with_trace. simpl. now rewrite app_assoc. Qed.

Lemma emit_spec e w : emit e w = Ok tt (with_trace w [e]).
Proof. reflexivity. Qed.

Lemma forEach_emit {A} (f : A -> event) (arr : list A) w :
  forEach arr (fun x => emit (f x)) w = Ok tt (with_trace w (map f arr)).
Proof.
  revert w. induction arr as [|x arr IH]; intros w; simpl.
  - unfold ret. now rewrite with_trace_nil.
  - unfold bind. rewrite emit_spec, IH, with_trace_app. reflexivity.
Qed.

Lemma write_position_spec i x l w :
  Listener.write_position i x l w =
  Ok (Listener.set_position (Float32Array.set (Listener.position l) i x) l)
     (with_trace w [EWritePosition i x]).
Proof. reflexivity. Qed.

Tactic Notation "step_with" uconstr(lem) :=
  rewrite (bind_Ok _ _ _ _ _ lem).

(** ** Scene: listener position and source updates *)

Lemma setListenerPosition_run (this : Songbird.t) (x y z : num) (w : world) :
  Songbird.setListenerPosition x y z this w =
    Ok (Songbird.set_listener
          (Listener.set_position
             (Float32Array.set
                (Float32Array.set
                   (Float32Array.set
                      (Listener.position (Songbird._listener this)) 0%fin x)
                   1%fin y) 2%fin z)
             (Songbird._listener this)) this)
       (with_trace w
          ([EWritePosition 0%fin x; EWritePosition 1%fin y;
            EWritePosition 2%fin z;
            ERoomSetListenerPosition (Songbird._room this) x y z]
           ++ map ESourceUpdate (Songbird._sources this))).
Proof.
  unfold Songbird.setListenerPosition.
  do 3 step_with (write_position_spec _ _ _ _).
  step_with (emit_spec _ _ : Room.setListenerPosition _ _ _ _ _ = _).
  step_with (forEach_emit ESourceUpdate _ _
             : forEach _ (fun element => Source._update element) _ = _).
  unfold ret. rewrite !with_trace_app. reflexivity.
Qed.

Lemma three_writes (p : Float32Array.t 3) (x y z : num) :
  Float32Array.set (Float32Array.set (Float32Array.set p 0%fin x) 1%fin y)
    2%fin z = [# fround x; fround y; fround z].
Proof. inv_vec p. intros p0 p1 p2. reflexivity. Qed.

(** ** Listener: orientation and world matrix *)

Lemma setOrientation_run deps (this : Listener.t)
    (fx fy fz ux uy uz : num) (w : world) :
  exists m : Float32Array.t 16,
    Listener.setOrientation deps fx fy fz ux uy uz this w =
      Ok (Listener.set_tempMatrix4 m this)
         (with_trace w [ESetRotationMatrix (Listener._renderer this) m])
    /\ take 9 (vec_to_list m) =
         map fround
           (map (fun i => to_number
                   (Utils_crossProduct deps [fx; fy; fz] [ux; uy; uz] !! i))
              [0; 1; 2]%nat
            ++ [ux; uy; uz] ++ [fx; fy; fz])
    /\ drop 9 (vec_to_list m) =
         drop 9 (vec_to_list (Listener._tempMatrix4 this)).
Proof.
  eexists. split; [reflexivity|].
  destruct this as [p m c r i a o]. simpl.
  inv_vec m. intros. split; reflexivity.
Qed.

(** C2. [setOrientation(forward, up)] takes [right] from
    [Utils.crossProduct(forward, up)] and pushes to the renderer the matrix
    whose elements 0-2 hold right, 3-5 hold up and 6-8 hold forward (each as
    the [Float32Array] keeps it); the other elements are untouched. *)
Theorem setOrientation_rows deps (this : Listener.t)
    (fx fy fz ux uy uz : num) (w : world) :
  let right := Utils_crossProduct deps [fx; fy; fz] [ux; uy; uz] in
  exists m : Float32Array.t 16,
    Listener.setOrientation deps fx fy fz ux uy uz this w =
      Ok (Listener.set_tempMatrix4 m this)
         (with_trace w [ESetRotationMatrix (Listener._renderer this) m])
    /\ take 3 (vec_to_list m) =
         map fround [to_number (right !! 0%nat); to_number (right !! 1%nat);
                     to_number (right !! 2%nat)]
    /\ take 3 (drop 3 (vec_to_list m)) = map fround [ux; uy; uz]
    /\ take 3 (drop 6 (vec_to_list m)) = map fround [fx; fy; fz]
    /\ drop 9 (vec_to_list m) =
         drop 9 (vec_to_list (Listener._tempMatrix4 this)).
Proof.
  intros right.
  destruct (setOrientation_run deps this fx fy fz ux uy uz w)
    as (m & Hrun & Hrows & Hrest).
  exists m. split; [exact Hrun|].
  fold right in Hrows.
  rewrite <- (take_drop 9 (vec_to_list m)), Hrows.
  repeat split; try reflexivity.
  rewrite Hrest. reflexivity.
Qed.

Lemma setFromMatrix_run (elements : list num) (this : Listener.t)
    (w : world) :
  let e (i : nat) := to_number (elements !! i) in
  exists m : Float32Array.t 16,
    Listener.setFromMatrix elements this w =
      Ok (Listener.set_position [# fround (e 12); fround (e 13);
                                   fround (e 14)]%nat
            (Listener.set_tempMatrix4 m this))
         (with_trace w
            [ESetRotationMatrix (Listener._renderer this) m;
             EWritePosition 0%fin (e 12%nat); EWritePosition 1%fin (e 13%nat);
             EWritePosition 2%fin (e 14%nat)])
    /\ take 9 (vec_to_list m) =
         map fround (map e [0; 1; 2; 4; 5; 6; 8; 9; 10]%nat)
    /\ drop 9 (vec_to_list m) =
         drop 9 (vec_to_list (Listener._tempMatrix4 this)).
Proof.
  intros e. eexists. split.
  - unfold Listener.setFromMatrix.
    step_with (emit_spec _ _ : Omnitone.setRotationMatrix _ _ _ = _).
    do 2 step_with (write_position_spec _ _ _ _).
    rewrite write_position_spec, !with_trace_app. simpl.
    rewrite three_writes. reflexivity.
  - destruct this as [p m c r i a o]. simpl.
    inv_vec m. intros. split; reflexivity.
Qed.

(** C6, as amended. After [setFromMatrix(matrix)] the listener's position
    holds, component for component, the binary32 rounding of the matrix's
    elements 12, 13 and 14; it holds these elements exactly when they are
    representable in binary32. *)
Theorem setFromMatrix_position (elements : list num) (this : Listener.t)
    (w : world) :
  let e (i : nat) := to_number (elements !! i) in
  exists this' w',
    Listener.setFromMatrix elements this w = Ok this' w'
    /\ Listener.position this' =
         [# fround (e 12%nat); fround (e 13%nat); fround (e 14%nat)]
    /\ (float32_representable (e 12%nat) ->
        float32_representable (e 13%nat) ->
        float32_representable (e 14%nat) ->
        Listener.position this' = [# e 12%nat; e 13%nat; e 14%nat]).
Proof.
  intros e.
  destruct (setFromMatrix_run elements this w) as (m & Hrun & _).
  do 2 eexists. split; [exact Hrun|]. split; [reflexivity|].
  cbn [Listener.position Listener.set_position].
  unfold float32_representable. intros H12 H13 H14.
  subst e. cbv beta in *. now rewrite H12, H13, H14.
Qed.

Lemma setFromMatrix_position_witness :
  exists this' w',
    Listener.setFromMatrix
      [one; zero; zero; zero; zero; one; zero; zero; zero; zero; one; zero;
       of_Z 3; of_Z (-2); of_Z 5; one] Sample.listener0 Sample.world0
      = Ok this' w'
    /\ Listener.position this' = [# of_Z 3; of_Z (-2); of_Z 5].
Proof.
  destruct (setFromMatrix_position
              [one; zero; zero; zero; zero; one; zero; zero;
               zero; zero; one; zero; of_Z 3; of_Z (-2); of_Z 5; one]
              Sample.listener0 Sample.world0)
    as (this' & w' & Hrun & _ & Hexact).
  exists this', w'. split; [exact Hrun|].
  apply Hexact; reflexivity.
Defined.

(** C6, the claim as stated fails: with the translation (0.1, 0, 0) the
    position read back is not 0.1 (neither the same number nor [==] to
    it), but 0.100000001490116. *)
Lemma setFromMatrix_position_inexact :
  exists this' w',
    Listener.setFromMatrix Sample.matrix_tenth Sample.listener0 Sample.world0
      = Ok this' w'
    /\ Sample.matrix_tenth !! 12%nat = Some Sample.tenth
    /\ Float32Array.get (Listener.position this') 0%fin
         = S754_finite false 7205759511166976 (-56)
    /\ Float32Array.get (Listener.position this') 0%fin <> Sample.tenth
    /\ Num.eqb (Float32Array.get (Listener.position this') 0%fin)
         Sample.tenth = false.
Proof.
  do 2 eexists. split; [vm_compute; reflexivity|].
  repeat split; try (vm_compute; congruence).
Qed.

(** C5. [setListenerFromMatrix(matrix)] runs [Listener.setFromMatrix] and
    then exactly [setListenerPosition] on the position just extracted: the
    room receives that position and every source is updated, in collection
    order. *)
Theorem setListenerFromMatrix_pass (elements : list num) (this : Songbird.t)
    (w : world) :
  let e (i : nat) := to_number (elements !! i) in
  let p0 := fround (e 12%nat) in
  let p1 := fround (e 13%nat) in
  let p2 := fround (e 14%nat) in
  exists l1 w1 m,
    Listener.setFromMatrix elements (Songbird._listener this) w = Ok l1 w1
    /\ Listener.position l1 = [# p0; p1; p2]
    /\ Songbird.setListenerFromMatrix elements this w =
         Songbird.setListenerPosition p0 p1 p2
           (Songbird.set_listener l1 this) w1
    /\ Songbird.setListenerFromMatrix elements this w =
         Ok (Songbird.set_listener
               (Listener.set_position [# fround p0; fround p1; fround p2] l1)
               this)
            (with_trace w
               ([ESetRotationMatrix
                   (Listener._renderer (Songbird._listener this)) m;
                 EWritePosition 0%fin (e 12%nat);
                 EWritePosition 1%fin (e 13%nat);
                 EWritePosition 2%fin (e 14%nat);
                 EWritePosition 0%fin p0; EWritePosition 1%fin p1;
                 EWritePosition 2%fin p2;
                 ERoomSetListenerPosition (Songbird._room this) p0 p1 p2]
                ++ map ESourceUpdate (Songbird._sources this))).
Proof.
  intros e p0 p1 p2.
  destruct (setFromMatrix_run elements (Songbird._listener this) w)
    as (m & Hrun & _).
  fold e in Hrun. fold p0 p1 p2 in Hrun.
  do 2 eexists. exists m. split; [exact Hrun|].
  split; [reflexivity|].
  assert (Hdef : Songbird.setListenerFromMatrix elements this w =
                 Songbird.setListenerPosition p0 p1 p2
                   (Songbird.set_listener
                      (Listener.set_position [# p0; p1; p2]
                         (Listener.set_tempMatrix4 m
                            (Songbird._listener this))) this)
                   (with_trace w
                      [ESetRotationMatrix
                         (Listener._renderer (Songbird._listener this)) m;
                       EWritePosition 0%fin (e 12%nat);
                       EWritePosition 1%fin (e 13%nat);
                       EWritePosition 2%fin (e 14%nat)])).
  { unfold Songbird.setListenerFromMatrix. step_with Hrun. reflexivity. }
  split; [exact Hdef|].
  rewrite Hdef, setListenerPosition_run, with_trace_app. reflexivity.
Qed.

(** ** Scene: the source collection *)

Lemma createSource_run (options : option loc) (this : Songbird.t)
    (w : world) :
  Songbird.createSource options this w =
    Ok (length (heap w),
        Songbird.set_sources (Songbird._sources this ++ [length (heap w)])
          this)
       {| heap := heap w ++ [CExternal KSource];
          trace := trace w ++ [ENewSource (length (heap w)) options];
          globals := globals w |}.
Proof.
  unfold Songbird.createSource, Source.Source, bind, member, resolve, alloc,
    emit, array_store, ret. simpl.
  destruct (decide _) as [H|H]; [lia|].
  destruct (decide _) as [H'|H']; [reflexivity|congruence].
Qed.

Lemma createSources_run (calls : list (option loc)) :
  forall (this : Songbird.t) (w : world),
    let handles := seq (length (heap w)) (length calls) in
    Songbird.createSources calls this w =
      Ok (handles,
          Songbird.set_sources (Songbird._sources this ++ handles) this)
         {| heap := heap w ++ map (fun _ => CExternal KSource) calls;
            trace := trace w ++ zip_with ENewSource handles calls;
            globals := globals w |}.
Proof.
  induction calls as [|c calls IH]; intros this w; simpl.
  - unfold ret. rewrite !app_nil_r. destruct this, w. reflexivity.
  - step_with (createSource_run _ _ _). simpl.
    step_with (IH _ _). unfold ret. simpl.
    rewrite length_app, Nat.add_1_r. simpl.
    rewrite <- !app_assoc. reflexivity.
Qed.

(** C1. [setListenerPosition(x, y, z)] writes x, y, z into the listener's
    position (which keeps their binary32 roundings), then hands the same
    x, y, z to the room, and only then updates every source of the
    collection once, in collection order; the collection itself is left as
    it was. After N [createSource] calls the sources updated are the earlier
    ones followed by the N new ones, in the order of their creation. *)
Theorem setListenerPosition_order (this : Songbird.t) (x y z : num)
    (w : world) (calls : list (option loc)) :
  (exists this',
     Songbird.setListenerPosition x y z this w =
       Ok this'
          (with_trace w
             ([EWritePosition 0%fin x; EWritePosition 1%fin y;
               EWritePosition 2%fin z;
               ERoomSetListenerPosition (Songbird._room this) x y z]
              ++ map ESourceUpdate (Songbird._sources this)))
     /\ Listener.position (Songbird._listener this') =
          [# fround x; fround y; fround z]
     /\ Songbird._sources this' = Songbird._sources this
     /\ Songbird._room this' = Songbird._room this)
  /\ exists handles this1 w1 this2,
       Songbird.createSources calls this w = Ok (handles, this1) w1
       /\ length handles = length calls /\ NoDup handles
       /\ Songbird.setListenerPosition x y z this1 w1 =
            Ok this2
               (with_trace w1
                  ([EWritePosition 0%fin x; EWritePosition 1%fin y;
                    EWritePosition 2%fin z;
                    ERoomSetListenerPosition (Songbird._room this) x y z]
                   ++ map ESourceUpdate (Songbird._sources this)
                   ++ map ESourceUpdate handles)).
Proof.
  split.
  - eexists. split; [apply setListenerPosition_run|].
    simpl. rewrite three_writes. auto.
  - do 4 eexists. split; [apply createSources_run|].
    split; [apply length_seq|]. split; [apply NoDup_seq|].
    rewrite setListenerPosition_run. simpl. now rewrite map_app.
Qed.

(** C7. Each [createSource] call builds a new source, puts it at the end of
    the scene's collection and returns it; after N calls the collection is
    the old one followed by the N new sources in call order, all distinct
    whatever their options, and nothing has been removed. *)
Theorem createSource_appends (calls : list (option loc)) (this : Songbird.t)
    (w : world) :
  (forall options,
     exists source this' w',
       Songbird.createSource options this w = Ok (source, this') w'
       /\ Songbird._sources this' = Songbird._sources this ++ [source]
       /\ heap w !! source = None
       /\ heap w' !! source = Some (CExternal KSource))
  /\ exists handles this' w',
       Songbird.createSources calls this w = Ok (handles, this') w'
       /\ Songbird._sources this' = Songbird._sources this ++ handles
       /\ length handles = length calls
       /\ NoDup handles
       /\ trace w' = trace w ++ zip_with ENewSource handles calls.
Proof.
  split.
  - intros options. do 3 eexists. split; [apply createSource_run|].
    simpl. split; [reflexivity|]. split.
    + apply lookup_ge_None. lia.
    + rewrite lookup_app_r by lia. now rewrite Nat.sub_diag.
  - do 3 eexists. split; [apply createSources_run|]. simpl.
    split; [reflexivity|]. split; [apply length_seq|].
    split; [apply NoDup_seq|reflexivity].
Qed.

(** ** Listener: parallel forward and up *)

Lemma mul_comm (x y : num) : mul x y = mul y x.
Proof.
  destruct x as [sx|sx| |sx mx ex], y as [sy|sy| |sy my ey];
    unfold mul, SFmul; try reflexivity;
    try (now rewrite xorb_comm).
  now rewrite xorb_comm, Pos.mul_comm, Z.add_comm.
Qed.

Lemma sub_diag (x : num) : finite x = true -> sub x x = S754_zero false.
Proof.
  destruct x as [[|]|s| |s m e]; simpl; intros H; try discriminate;
    try reflexivity.
  unfold sub, SFsub. now rewrite Z.sub_diag.
Qed.

Lemma crossProduct_self (v0 v1 v2 : num) :
  finite (mul v1 v2) = true -> finite (mul v2 v0) = true ->
  finite (mul v0 v1) = true ->
  crossProduct [v0; v1; v2] [v0; v1; v2] =
    [S754_zero false; S754_zero false; S754_zero false].
Proof.
  intros H12 H20 H01. unfold crossProduct. simpl.
  rewrite (mul_comm v2 v1), (mul_comm v0 v2), (mul_comm v1 v0).
  now rewrite !sub_diag.
Qed.

(** C3, as amended. [setOrientation] validates nothing: for every forward
    and up it returns normally and pushes one matrix to the renderer; when
    forward and up are the same vector (with finite products of components)
    the matrix pushed has the right row (0, 0, 0) above the two equal rows. *)
Theorem setOrientation_unvalidated deps (this : Listener.t)
    (fx fy fz ux uy uz v0 v1 v2 : num) (w : world)
    (H12 : finite (mul v1 v2) = true) (H20 : finite (mul v2 v0) = true)
    (H01 : finite (mul v0 v1) = true) :
  (exists m,
     Listener.setOrientation deps fx fy fz ux uy uz this w =
       Ok (Listener.set_tempMatrix4 m this)
          (with_trace w [ESetRotationMatrix (Listener._renderer this) m])
     /\ take 9 (vec_to_list m) =
          map fround
            (map (fun i => to_number
                    (Utils_crossProduct deps [fx; fy; fz] [ux; uy; uz] !! i))
               [0; 1; 2]%nat
             ++ [ux; uy; uz] ++ [fx; fy; fz]))
  /\ exists m,
       Listener.setOrientation (with_crossProduct deps) v0 v1 v2 v0 v1 v2
         this w =
         Ok (Listener.set_tempMatrix4 m this)
            (with_trace w [ESetRotationMatrix (Listener._renderer this) m])
       /\ take 9 (vec_to_list m) =
            [S754_zero false; S754_zero false; S754_zero false]
            ++ map fround [v0; v1; v2] ++ map fround [v0; v1; v2].
Proof.
  split.
  - destruct (setOrientation_run deps this fx fy fz ux uy uz w)
      as (m & Hrun & Hrows & _). eauto.
  - destruct (setOrientation_run (with_crossProduct deps) this
                v0 v1 v2 v0 v1 v2 w) as (m & Hrun & Hrows & _).
    exists m. split; [exact Hrun|].
    rewrite Hrows. simpl Utils_crossProduct.
    rewrite crossProduct_self by assumption. reflexivity.
Qed.

Lemma setOrientation_unvalidated_witness :
  exists m,
    Listener.setOrientation (with_crossProduct Sample.deps)
      zero one zero zero one zero
      Sample.listener0 Sample.world0 =
      Ok (Listener.set_tempMatrix4 m Sample.listener0)
         (with_trace Sample.world0 [ESetRotationMatrix 1%nat m])
    /\ take 9 (vec_to_list m) =
         [S754_zero false; S754_zero false; S754_zero false]
         ++ map fround [zero; one; zero]
         ++ map fround [zero; one; zero].
Proof.
  apply (setOrientation_unvalidated Sample.deps Sample.listener0
           zero zero one zero one
           zero zero one zero Sample.world0);
    reflexivity.
Defined.

(** C3, the claim as stated fails: forward = up = (0, 1, 0) is a parallel
    pair, and the call still returns normally after pushing the matrix with
    rows (0, 0, 0), (0, 1, 0), (0, 1, 0). *)
Lemma setOrientation_parallel_pushed :
  exists m,
    Listener.setOrientation Sample.deps
      zero one zero zero one zero
      Sample.listener0 Sample.world0 =
      Ok (Listener.set_tempMatrix4 m Sample.listener0)
         {| heap := []; globals := [];
            trace := [ESetRotationMatrix 1%nat m] |}
    /\ take 9 (vec_to_list m) =
         [zero; zero; zero;
          zero; one; zero;
          zero; one; zero].
Proof. eexists. split; vm_compute; reflexivity. Qed.

(** ** Heaps that only grow *)

Lemma heap_grows_refl l h : heap_grows l h h.
Proof. unfold heap_grows. auto. Qed.

Lemma heap_grows_trans l h1 h2 h3 :
  heap_grows l h1 h2 -> heap_grows l h2 h3 -> heap_grows l h1 h3.
Proof.
  intros (Hl & Hk) (Hl' & Hk'). split; [lia|auto].
Qed.

Lemma heap_grows_app l h h' : heap_grows l h (h ++ h').
Proof.
  split; [rewrite length_app; lia|].
  intros k c _ Hk. now apply lookup_app_l_Some.
Qed.

Lemma grows_except_refl l w : grows_except l w w.
Proof.
  unfold grows_except. split; [reflexivity|]. split; [reflexivity|].
  apply heap_grows_refl.
Qed.

Lemma grows_except_trans l w1 w2 w3 :
  grows_except l w1 w2 -> grows_except l w2 w3 -> grows_except l w1 w3.
Proof.
  intros (Ht & Hg & Hh) (Ht' & Hg' & Hh').
  unfold grows_except.
  split; [congruence|]. split; [congruence|].
  eauto using heap_grows_trans.
Qed.

Lemma load_ok l c w : heap w !! l = Some c -> load l w = Ok c w.
Proof. intros H. unfold load. now rewrite H. Qed.

Lemma member_ok {A} scope name (v : A) w :
  bool_decide (name ∈ scope) = true -> member scope name v w = Ok v w.
Proof. intros H. unfold member, bind, resolve. now rewrite H. Qed.

(** ** Default filling on the heap *)

Lemma default_field_present {O A} (rd : M O) wr (get : O -> option A) set d
    after w o v :
  rd w = Ok o w -> get o = Some v ->
  default_field rd wr get set d after w = Ok tt w.
Proof.
  intros Hrd Hget. unfold default_field. step_with Hrd. now rewrite Hget.
Qed.

Lemma default_field_missing {O A} (rd : M O) wr (get : O -> option A) set d
    after w o v w1 o1 w2 :
  rd w = Ok o w -> get o = None -> d w = Ok v w1 -> rd w1 = Ok o1 w1 ->
  wr (set v o1) w1 = Ok tt w2 ->
  default_field rd wr get set d after w = after v w2.
Proof.
  intros Hrd Hget Hd Hrd1 Hwr. unfold default_field.
  step_with Hrd. rewrite Hget. step_with Hd. step_with Hrd1.
  now step_with Hwr.
Qed.

(** One default-filling step on an object that lives in cell [l]:
    [inj] wraps the record into its cell. *)
Lemma default_step {O A} (inj : O -> cell) (rd : loc -> M O)
    (get : O -> option A) (set : A -> O -> O) (d : M A) (after : A -> M unit)
    (l : loc) (o : O) (w : world) (v : A) (w1 w2 : world) :
  (forall w o, heap w !! l = Some (inj o) -> rd l w = Ok o w) ->
  heap w !! l = Some (inj o) ->
  d w = Ok v w1 -> heap w1 !! l = Some (inj o) ->
  after v {| heap := <[l := inj (set v o)]> (heap w1);
             trace := trace w1; globals := globals w1 |} = Ok tt w2 ->
  grows_except l w w2 ->
  heap w2 !! l = Some (inj (set v o)) ->
  exists w',
    default_field (rd l) (fun o => store l (inj o)) get set d after w =
      Ok tt w'
    /\ grows_except l w w'
    /\ heap w' !! l = Some (inj (fill_with get set v o))
    /\ (get o = None -> w' = w2).
Proof.
  intros Hrd Hl Hd Hl1 Hafter Hg Hl2.
  unfold fill_with. destruct (get o) as [x|] eqn:Hget.
  - exists w. split; [eapply default_field_present; eauto|].
    split; [apply grows_except_refl|]. split; [exact Hl|discriminate].
  - exists w2. split; [|auto].
    erewrite default_field_missing; eauto.
Qed.

Lemma grows_except_store l c w :
  grows_except l w {| heap := <[l := c]> (heap w); trace := trace w;
                      globals := globals w |}.
Proof.
  split; [reflexivity|]. split; [reflexivity|]. split; simpl.
  - now rewrite length_insert.
  - intros k c' Hk Hc. now rewrite list_lookup_insert_ne.
Qed.

Lemma grows_except_alloc l c w :
  grows_except l w {| heap := heap w ++ [c]; trace := trace w;
                      globals := globals w |}.
Proof.
  split; [reflexivity|]. split; [reflexivity|]. apply heap_grows_app.
Qed.

Lemma default_const {O A} (inj : O -> cell) (rd : loc -> M O)
    (get : O -> option A) (set : A -> O -> O) scope name (c : A)
    (l : loc) (o : O) (w : world) :
  (forall w o, heap w !! l = Some (inj o) -> rd l w = Ok o w) ->
  heap w !! l = Some (inj o) ->
  bool_decide (name ∈ scope) = true ->
  exists w',
    default_field (rd l) (fun o => store l (inj o)) get set
      (member scope name c) nothing w = Ok tt w'
    /\ grows_except l w w'
    /\ heap w' !! l = Some (inj (fill_with get set c o)).
Proof.
  intros Hrd Hl Hin.
  destruct (default_step inj rd get set (member scope name c) nothing l o w
              c w {| heap := <[l := inj (set c o)]> (heap w);
                     trace := trace w; globals := globals w |})
    as (w' & Hrun & Hg & Hl' & _); eauto.
  - now apply member_ok.
  - apply grows_except_store.
  - simpl. apply list_lookup_insert_eq. eapply lookup_lt_Some; eauto.
Qed.

Lemma default_slice {O} (inj : O -> cell) (rd : loc -> M O)
    (get : O -> option loc) (set : loc -> O -> O) scope name (D : list num)
    (l : loc) (o : O) (w : world) :
  (forall w o, heap w !! l = Some (inj o) -> rd l w = Ok o w) ->
  heap w !! l = Some (inj o) ->
  bool_decide (name ∈ scope) = true ->
  exists w',
    default_field (rd l) (fun o => store l (inj o)) get set
      (xs <- member scope name D ;; slice xs) nothing w = Ok tt w'
    /\ grows_except l w w'
    /\ heap w' !! l = Some (inj (fill_with get set (length (heap w)) o))
    /\ (get o = None -> heap w' !! length (heap w) = Some (CArray D)).
Proof.
  intros Hrd Hl Hin.
  pose proof (lookup_lt_Some _ _ _ Hl) as Hlt.
  destruct (default_step inj rd get set
              (xs <- member scope name D ;; slice xs) nothing l o w
              (length (heap w))
              {| heap := heap w ++ [CArray D]; trace := trace w;
                 globals := globals w |}
              {| heap := <[l := inj (set (length (heap w)) o)]>
                           (heap w ++ [CArray D]);
                 trace := trace w; globals := globals w |})
    as (w' & Hrun & Hg & Hl' & Hnone); auto.
  - step_with (member_ok scope name D w Hin). reflexivity.
  - simpl. now apply lookup_app_l_Some.
  - eapply grows_except_trans; [apply grows_except_alloc|].
    apply (grows_except_store l _
             {| heap := heap w ++ [CArray D]; trace := trace w;
                globals := globals w |}).
  - simpl. apply list_lookup_insert_eq. rewrite length_app. lia.
  - exists w'. split; [exact Hrun|]. split; [exact Hg|].
    split; [exact Hl'|]. intros Hget. rewrite (Hnone Hget). simpl.
    rewrite list_lookup_insert_ne by lia.
    rewrite lookup_app_r by lia. now rewrite Nat.sub_diag.
Qed.

Lemma Listener_load_options_ok l w o :
  heap w !! l = Some (CListenerOptions o) -> Listener.load_options l w = Ok o w.
Proof.
  intros H. unfold Listener.load_options. now step_with (load_ok _ _ _ H).
Qed.

Lemma field_array_Some h p D xs :
  field_array h (Some p) D = Some xs -> h !! p = Some (CArray xs).
Proof.
  unfold field_array. destruct (h !! p) as [[]|]; congruence.
Qed.

Lemma grows_except_lookup l w w' k c :
  grows_except l w w' -> k <> l -> heap w !! k = Some c ->
  heap w' !! k = Some c.
Proof. intros (_ & _ & _ & H). apply H. Qed.

Lemma alloc_spec c w :
  alloc c w = Ok (length (heap w))
                 {| heap := heap w ++ [c]; trace := trace w;
                    globals := globals w |}.
Proof. reflexivity. Qed.

Lemma createGain_spec w :
  AudioContext.createGain w =
    Ok (length (heap w))
       {| heap := heap w ++ [CExternal KGainNode];
          trace := trace w ++ [ECreateGain (length (heap w))];
          globals := globals w |}.
Proof. reflexivity. Qed.

Lemma createHOARenderer_spec order urls w :
  Omnitone.createHOARenderer order urls w =
    Ok (length (heap w))
       {| heap := heap w ++ [CExternal KRenderer];
          trace := trace w ++ [ECreateHOARenderer (length (heap w)) order urls];
          globals := globals w |}.
Proof. reflexivity. Qed.

Lemma read_index_ok l i xs w :
  heap w !! l = Some (CArray xs) -> read_index l i w = Ok (xs !! i) w.
Proof.
  intros H. unfold read_index. now step_with (load_ok _ _ _ H).
Qed.

Lemma grows_except_length l w w' :
  grows_except l w w' -> (length (heap w) <= length (heap w'))%nat.
Proof. intros (_ & _ & H & _). exact H. Qed.

Lemma Listener_fill_defaults_run deps l o w order fs us :
  heap w !! l = Some (CListenerOptions o) ->
  l_ambisonicOrder o = Some order ->
  field_array (heap w) (l_forward o) (Utils_DEFAULT_FORWARD deps) = Some fs ->
  field_array (heap w) (l_up o) (Utils_DEFAULT_UP deps) = Some us ->
  exists w' o' lf lu,
    Listener.fill_defaults deps l w = Ok tt w'
    /\ grows_except l w w'
    /\ heap w' !! l = Some (CListenerOptions o')
    /\ l_ambisonicOrder o' = Some order
    /\ l_forward o' = Some lf /\ l_up o' = Some lu
    /\ heap w' !! lf = Some (CArray fs)
    /\ heap w' !! lu = Some (CArray us).
Proof.
  intros Hl Horder Hf Hu.
  pose proof (lookup_lt_Some _ _ _ Hl) as Hlt.
  unfold Listener.fill_defaults.
  rewrite (bind_Ok _ _ _ _ _
             (default_field_present _ _ _ _ _ _ _ _ _
                (Listener_load_options_ok _ _ _ Hl) Horder)).
  destruct (default_slice CListenerOptions Listener.load_options
              l_position Listener.set_l_position Listener.scope
              "Utils" (Utils_DEFAULT_POSITION deps) l o w)
    as (w2 & Hrun2 & Hg2 & Hl2 & _); auto using Listener_load_options_ok.
  step_with Hrun2.
  destruct (default_slice CListenerOptions Listener.load_options
              l_forward Listener.set_l_forward Listener.scope
              "Utils" (Utils_DEFAULT_FORWARD deps) l _ w2 
              ltac:(auto using Listener_load_options_ok) Hl2 eq_refl)
    as (w3 & Hrun3 & Hg3 & Hl3 & Hn3).
  step_with Hrun3.
  destruct (default_slice CListenerOptions Listener.load_options
              l_up Listener.set_l_up Listener.scope
              "Utils" (Utils_DEFAULT_UP deps) l _ w3
              ltac:(auto using Listener_load_options_ok) Hl3 eq_refl)
    as (w4 & Hrun4 & Hg4 & Hl4 & Hn4).
  pose proof (grows_except_length _ _ _ Hg2) as Hlen2.
  pose proof (grows_except_length _ _ _ Hg3) as Hlen3.
  assert (Hg14 : grows_except l w w4)
    by eauto using grows_except_trans.
  assert (Hf1 : forall f, l_forward o = Some f ->
                          heap w !! f = Some (CArray fs) /\ f <> l).
  { intros f E. rewrite E in Hf. apply field_array_Some in Hf.
    split; [exact Hf|]. intros ->. congruence. }
  assert (Hf0 : l_forward o = None -> fs = Utils_DEFAULT_FORWARD deps).
  { intros E. rewrite E in Hf. simpl in Hf. congruence. }
  assert (Hu1 : forall u, l_up o = Some u ->
                          heap w !! u = Some (CArray us) /\ u <> l).
  { intros u E. rewrite E in Hu. apply field_array_Some in Hu.
    split; [exact Hu|]. intros ->. congruence. }
  assert (Hu0 : l_up o = None -> us = Utils_DEFAULT_UP deps).
  { intros E. rewrite E in Hu. simpl in Hu. congruence. }
  clear Hf Hu.
  destruct o as [oo op ofw oup]; simpl in *. subst oo.
  exists w4. eexists.
  exists (default (length (heap w2)) ofw), (default (length (heap w3)) oup).
  split; [exact Hrun4|]. split; [exact Hg14|]. split; [exact Hl4|].
  unfold fill_with in *.
  destruct op as [p|], ofw as [f|], oup as [u|]; simpl in *;
    (split; [reflexivity|]); (split; [reflexivity|]);
    (split; [reflexivity|]); split;
    try (destruct (Hf1 _ eq_refl);
         eapply grows_except_lookup; [exact Hg14|assumption|assumption]);
    try (destruct (Hu1 _ eq_refl);
         eapply grows_except_lookup; [exact Hg14|assumption|assumption]);
    try (rewrite Hu0 by reflexivity; apply Hn4; reflexivity);
    try (rewrite Hf0 by reflexivity; eapply grows_except_lookup;
         [exact Hg4|lia|apply Hn3; reflexivity]).
Qed.

Lemma Listener_run deps ctx l o w order fs us :
  heap w !! l = Some (CListenerOptions o) ->
  l_ambisonicOrder o = Some order ->
  field_array (heap w) (l_forward o) (Utils_DEFAULT_FORWARD deps) = Some fs ->
  field_array (heap w) (l_up o) (Utils_DEFAULT_UP deps) = Some us ->
  let f (i : nat) := to_number (fs !! i) in
  let u (i : nat) := to_number (us !! i) in
  let right :=
    Utils_crossProduct deps [f 0; f 1; f 2]%nat [u 0; u 1; u 2]%nat in
  exists this w',
    Listener.Listener deps ctx (Some l) w = Ok this w'
    /\ trace w' =
         trace w ++
         [ECreateHOARenderer (Listener._renderer this) order
            (Listener.select_urls order);
          ECreateGain (Listener.input this);
          ECreateGain (Listener.ambisonicOutput this);
          ECreateGain (Listener.output this);
          ERendererInitialize (Listener._renderer this);
          ESetRotationMatrix (Listener._renderer this)
            (Listener._tempMatrix4 this)]
    /\ globals w' = globals w
    /\ heap_grows l (heap w) (heap w')
    /\ Listener.position this = Float32Array.make 3
    /\ take 9 (vec_to_list (Listener._tempMatrix4 this)) =
         map fround
           (map (fun i => to_number (right !! i)) [0; 1; 2]%nat
            ++ [u 0; u 1; u 2] ++ [f 0; f 1; f 2])%nat
    /\ drop 9 (vec_to_list (Listener._tempMatrix4 this)) =
         replicate 7 (S754_zero false).
Proof.
  intros Hl Horder Hf Hu f u right.
  destruct (Listener_fill_defaults_run deps l o w order fs us Hl Horder Hf Hu)
    as (w1 & o1 & lf & lu & Hfill & (Ht1 & Hgl1 & Hh1) & Hl1 & Ho1 & Hf1 & Hu1
        & Hlf & Hlu).
  do 2 eexists. split.
  { unfold Listener.Listener, Listener.Listener_with.
    step_with (eq_refl : ret l w = Ok l w).
    step_with Hfill.
    step_with (Listener_load_options_ok _ _ _ Hl1).
    rewrite Ho1, Hf1, Hu1.
    step_with (member_ok Listener.scope "Omnitone" tt w1 eq_refl).
    step_with (createHOARenderer_spec _ _ _).
    do 3 step_with (createGain_spec _).
    step_with (emit_spec _ _ : Omnitone.initialize _ _ = _).
    cbn [heap trace globals with_trace].
    assert (Hlf5 : forall h', (heap w1 ++ h') !! lf = Some (CArray fs))
      by (intros; now apply lookup_app_l_Some).
    assert (Hlu5 : forall h', (heap w1 ++ h') !! lu = Some (CArray us))
      by (intros; now apply lookup_app_l_Some).
    unfold with_trace. cbn [heap trace globals].
    rewrite <- !app_assoc.
    do 3 (erewrite (bind_Ok (read_index lf _));
          [|apply read_index_ok; cbn [heap]; apply Hlf5]).
    do 3 (erewrite (bind_Ok (read_index lu _));
          [|apply read_index_ok; cbn [heap]; apply Hlu5]).
    reflexivity. }
  cbn [heap trace globals with_trace Listener.set_tempMatrix4
       Listener._tempMatrix4 Listener._renderer Listener.position
       Listener._context Listener.input Listener.ambisonicOutput
       Listener.output].
  rewrite Ht1, <- !app_assoc. cbn [app].
  split; [reflexivity|]. split; [exact Hgl1|].
  split; [eapply heap_grows_trans; [exact Hh1|]; apply heap_grows_app|].
  split; [reflexivity|]. split; reflexivity.
Qed.

(** ** Listener: the ambisonic order *)

Lemma select_urls_other (order : num) :
  Num.eqb order (of_Z 1) = false -> Num.eqb order (of_Z 2) = false ->
  Num.eqb order (of_Z 3) = false ->
  Listener.select_urls order = [""%string].
Proof.
  intros H1 H2 H3. unfold Listener.select_urls. now rewrite H1, H2, H3.
Qed.

(** C4, as amended. [Listener] itself checks nothing about the order: for
    an order other than 1, 2 and 3 it reports nothing, keeps the
    one-element list [['']] as the HRIR set and calls the renderer's
    constructor with that order and that list, having made no other call.
    What follows is the renderer's: if its constructor throws, that
    exception is the outcome of the construction; if it returns a
    renderer, the construction goes on and completes with it. *)
Theorem Listener_unsupported_order deps (ctx l : loc) (o : ListenerOptions)
    (w : world) (order : num) (fs us : list num)
    (Hl : heap w !! l = Some (CListenerOptions o))
    (Horder : l_ambisonicOrder o = Some order)
    (H1 : Num.eqb order (of_Z 1) = false)
    (H2 : Num.eqb order (of_Z 2) = false)
    (H3 : Num.eqb order (of_Z 3) = false)
    (Hf : field_array (heap w) (l_forward o) (Utils_DEFAULT_FORWARD deps)
          = Some fs)
    (Hu : field_array (heap w) (l_up o) (Utils_DEFAULT_UP deps) = Some us) :
  exists w1,
    Listener.fill_defaults deps l w = Ok tt w1
    /\ trace w1 = trace w
    /\ Listener.select_urls order = [""%string]
    /\ (forall createHOARenderer e w2,
          createHOARenderer order [""%string] w1 = Throw e w2 ->
          Listener.Listener_with deps createHOARenderer ctx (Some l) w
          = Throw e w2)
    /\ (forall createHOARenderer renderer w2,
          createHOARenderer order [""%string] w1 = Ok renderer w2 ->
          heap_extends (heap w1) (heap w2) ->
          exists this w',
            Listener.Listener_with deps createHOARenderer ctx (Some l) w
            = Ok this w'
            /\ Listener._renderer this = renderer
            /\ trace w' =
                 trace w2 ++
                 [ECreateGain (Listener.input this);
                  ECreateGain (Listener.ambisonicOutput this);
                  ECreateGain (Listener.output this);
                  ERendererInitialize renderer;
                  ESetRotationMatrix renderer (Listener._tempMatrix4 this)]).
Proof.
  destruct (Listener_fill_defaults_run deps l o w order fs us Hl Horder Hf Hu)
    as (w1 & o1 & lf & lu & Hfill & (Ht1 & _) & Hl1 & Ho1 & Hf1 & Hu1
        & Hlf & Hlu).
  pose proof (select_urls_other order H1 H2 H3) as Hurls.
  exists w1. split; [exact Hfill|]. split; [exact Ht1|].
  split; [exact Hurls|]. split.
  - intros create e w2 Hthrow. unfold Listener.Listener_with.
    step_with (eq_refl : ret l w = Ok l w).
    step_with Hfill.
    step_with (Listener_load_options_ok _ _ _ Hl1).
    rewrite Ho1, Hf1, Hu1, Hurls.
    step_with (member_ok Listener.scope "Omnitone" tt w1 eq_refl).
    now apply bind_Throw.
  - intros create renderer w2 Hcreate Hext.
    do 2 eexists. split.
    { unfold Listener.Listener_with.
      step_with (eq_refl : ret l w = Ok l w).
      step_with Hfill.
      step_with (Listener_load_options_ok _ _ _ Hl1).
      rewrite Ho1, Hf1, Hu1, Hurls.
      step_with (member_ok Listener.scope "Omnitone" tt w1 eq_refl).
      step_with Hcreate.
      do 3 step_with (createGain_spec _).
      step_with (emit_spec _ _ : Omnitone.initialize _ _ = _).
      cbn [heap trace globals with_trace].
      assert (Hlf5 : forall h', (heap w2 ++ h') !! lf = Some (CArray fs))
        by (intros; apply lookup_app_l_Some; now apply Hext).
      assert (Hlu5 : forall h', (heap w2 ++ h') !! lu = Some (CArray us))
        by (intros; apply lookup_app_l_Some; now apply Hext).
      unfold with_trace. cbn [heap trace globals].
      rewrite <- !app_assoc.
      do 3 (erewrite (bind_Ok (read_index lf _));
            [|apply read_index_ok; cbn [heap]; apply Hlf5]).
      do 3 (erewrite (bind_Ok (read_index lu _));
            [|apply read_index_ok; cbn [heap]; apply Hlu5]).
      reflexivity. }
    cbn [heap trace globals with_trace Listener.set_tempMatrix4
         Listener._tempMatrix4 Listener._renderer Listener.position
         Listener._context Listener.input Listener.ambisonicOutput
         Listener.output].
    rewrite <- !app_assoc. split; reflexivity.
Qed.

Lemma Listener_unsupported_order_witness :
  exists w1,
    Listener.fill_defaults Sample.deps 1%nat
      (Sample.listener_world (Some (of_Z 4))) = Ok tt w1
    /\ trace w1 = []
    /\ Listener.select_urls (of_Z 4) = [""%string]
    /\ Listener.Listener_with Sample.deps Sample.failing_renderer 0%nat
         (Some 1%nat) (Sample.listener_world (Some (of_Z 4)))
       = Throw (TypeError "order") w1
    /\ exists this w',
         Listener.Listener_with Sample.deps Omnitone.createHOARenderer 0%nat
           (Some 1%nat) (Sample.listener_world (Some (of_Z 4)))
         = Ok this w'
         /\ Listener._renderer this = length (heap w1).
Proof.
  destruct (Listener_unsupported_order Sample.deps 0%nat 1%nat
              {| l_ambisonicOrder := Some (of_Z 4); l_position := Some 2%nat;
                 l_forward := Some 3%nat; l_up := Some 4%nat |}
              (Sample.listener_world (Some (of_Z 4))) (of_Z 4)
              [zero; zero; one] [zero; one; zero]
              eq_refl eq_refl eq_refl eq_refl eq_refl eq_refl eq_refl)
    as (w1 & Hfill & Htrace & Hurls & Hthrow & Hreturn).
  exists w1. split; [exact Hfill|]. split; [exact Htrace|].
  split; [exact Hurls|].
  split; [exact (Hthrow Sample.failing_renderer _ _ eq_refl)|].
  destruct (Hreturn Omnitone.createHOARenderer _ _
              (createHOARenderer_spec _ _ w1))
    as (this & w' & Hrun & Hr & _).
  - intros k c Hk. cbn [heap]. now apply lookup_app_l_Some.
  - exists this, w'. split; [exact Hrun|exact Hr].
Defined.

(** C4, the claim as stated fails: with the ambisonic order 4 and a
    renderer that accepts it, the constructor returns a listener, having
    asked for a renderer of order 4 with the HRIR list [['']]; no error
    reaches the caller. *)
Lemma Listener_order_four_constructed :
  Num.eqb (of_Z 4) (of_Z 1) = false
  /\ Num.eqb (of_Z 4) (of_Z 2) = false
  /\ Num.eqb (of_Z 4) (of_Z 3) = false
  /\ exists this m,
       Listener.Listener Sample.deps 0%nat (Some 1%nat)
         (Sample.listener_world (Some (of_Z 4))) =
         Ok this
            {| heap := heap (Sample.listener_world (Some (of_Z 4)))
                       ++ [CExternal KRenderer; CExternal KGainNode;
                           CExternal KGainNode; CExternal KGainNode];
               trace := [ECreateHOARenderer 5%nat (of_Z 4) [""%string];
                         ECreateGain 6%nat; ECreateGain 7%nat;
                         ECreateGain 8%nat; ERendererInitialize 5%nat;
                         ESetRotationMatrix 5%nat m];
               globals := [] |}.
Proof.
  repeat (split; [reflexivity|]). do 2 eexists. vm_compute. reflexivity.
Qed.

(** C10. Constructing a [Listener] whose options leave [ambisonicOrder]
    undefined (or without options at all) does not take the default: the
    module has no binding for [Encoder], and unless the host defines a
    global of that name the constructor ends with a [ReferenceError], before
    anything is created. *)
Theorem Listener_default_order_throws deps (ctx : loc) (options : option loc)
    (w : world)
    (Hglobal : "Encoder"%string ∉ globals w)
    (Hoptions : match options with
                | Some l => exists o, heap w !! l = Some (CListenerOptions o)
                                      /\ l_ambisonicOrder o = None
                | None => True
                end) :
  exists w',
    Listener.Listener deps ctx options w
      = Throw (ReferenceError "Encoder") w'
    /\ trace w' = trace w
    /\ heap w' = heap w ++ match options with
                           | Some _ => []
                           | None => [CListenerOptions Listener.empty_options]
                           end.
Proof.
  assert (Hmember : forall w0, globals w0 = globals w ->
            member Listener.scope "Encoder"
              (Encoder_DEFAULT_AMBISONIC_ORDER deps) w0
            = Throw (ReferenceError "Encoder") w0).
  { intros w0 Hw0. unfold member, bind, resolve.
    rewrite (bool_decide_eq_false_2 ("Encoder"%string ∈ globals w0))
      by now rewrite Hw0.
    reflexivity. }
  assert (Hfill : forall l o w0, globals w0 = globals w ->
            heap w0 !! l = Some (CListenerOptions o) ->
            l_ambisonicOrder o = None ->
            Listener.fill_defaults deps l w0
            = Throw (ReferenceError "Encoder") w0).
  { intros l o w0 Hw0 Hl Ho. unfold Listener.fill_defaults.
    apply bind_Throw. unfold default_field.
    step_with (Listener_load_options_ok _ _ _ Hl). rewrite Ho.
    apply bind_Throw. now apply Hmember. }
  destruct options as [l|].
  - destruct Hoptions as (o & Hl & Ho). exists w.
    split; [|split; [reflexivity|now rewrite app_nil_r]].
    unfold Listener.Listener, Listener.Listener_with.
    step_with (eq_refl : ret l w = Ok l w).
    apply bind_Throw. now apply (Hfill l o).
  - exists {| heap := heap w ++ [CListenerOptions Listener.empty_options];
              trace := trace w; globals := globals w |}.
    split; [|split; reflexivity].
    unfold Listener.Listener, Listener.Listener_with.
    step_with (alloc_spec _ _).
    apply bind_Throw. apply (Hfill _ Listener.empty_options);
      [reflexivity| |reflexivity].
    simpl. rewrite lookup_app_r by lia. now rewrite Nat.sub_diag.
Qed.

Lemma Listener_default_order_throws_witness :
  exists w',
    Listener.Listener Sample.deps 0%nat (Some 1%nat)
      (Sample.listener_world None)
      = Throw (ReferenceError "Encoder") w'
    /\ trace w' = trace (Sample.listener_world None)
    /\ heap w' = heap (Sample.listener_world None) ++ [].
Proof.
  apply (Listener_default_order_throws Sample.deps 0%nat (Some 1%nat)
           (Sample.listener_world None)).
  - vm_compute. apply not_elem_of_nil.
  - eexists. split; reflexivity.
Defined.

(** ** Scene: construction and the option object *)

Lemma Songbird_load_options_ok l w o :
  heap w !! l = Some (COptions o) -> Songbird.load_options l w = Ok o w.
Proof.
  intros H. unfold Songbird.load_options. now step_with (load_ok _ _ _ H).
Qed.

Lemma default_dimensions deps (l : loc) (o : SongbirdOptions) (w : world) :
  heap w !! l = Some (COptions o) ->
  exists w',
    default_field (Songbird.load_options l) (Songbird.store_options l)
      dimensions Songbird.set_dimensions (alloc (CDimensions ∅))
      (Songbird.assign_dimensions deps) w = Ok tt w'
    /\ grows_except l w w'
    /\ heap w' !! l =
         Some (COptions (fill_with dimensions Songbird.set_dimensions
                           (length (heap w)) o))
    /\ (dimensions o = None ->
        heap w' !! length (heap w) =
          Some (CDimensions (EarlyReflections_DEFAULT_DIMENSIONS deps))).
Proof.
  intros Hl.
  pose proof (lookup_lt_Some _ _ _ Hl) as Hlt.
  set (v := length (heap w)).
  set (D := EarlyReflections_DEFAULT_DIMENSIONS deps).
  set (h1 := <[l := COptions (Songbird.set_dimensions v o)]>
               (heap w ++ [CDimensions ∅])).
  assert (Hv : h1 !! v = Some (CDimensions ∅)).
  { unfold h1, v. rewrite list_lookup_insert_ne by lia.
    rewrite lookup_app_r by lia. now rewrite Nat.sub_diag. }
  destruct (default_step COptions Songbird.load_options dimensions
              Songbird.set_dimensions (alloc (CDimensions ∅))
              (Songbird.assign_dimensions deps) l o w v
              {| heap := heap w ++ [CDimensions ∅]; trace := trace w;
                 globals := globals w |}
              {| heap := <[v := CDimensions D]> h1;
                 trace := trace w; globals := globals w |})
    as (w' & Hrun & Hg & Hl' & Hnone);
    auto using Songbird_load_options_ok.
  - simpl. now apply lookup_app_l_Some.
  - cbn [heap trace globals]. fold h1.
    unfold Songbird.assign_dimensions.
    erewrite bind_Ok; [|apply load_ok; exact Hv].
    cbv beta iota. fold D.
    step_with (member_ok Songbird.scope "EarlyReflections" D _ eq_refl).
    unfold store, Object_assign. cbn [heap trace globals].
    now rewrite (right_id_L ∅ (∪)).
  - split; [reflexivity|]. split; [reflexivity|]. split; cbn [heap].
    + unfold h1. rewrite !length_insert, length_app. lia.
    + intros k c Hk Hc.
      pose proof (lookup_lt_Some _ _ _ Hc) as Hklt.
      unfold h1. rewrite !list_lookup_insert_ne by (unfold v; lia).
      now apply lookup_app_l_Some.
  - cbn [heap]. unfold h1.
    rewrite list_lookup_insert_ne by (unfold v; lia).
    apply list_lookup_insert_eq. rewrite length_app. lia.
  - exists w'. split; [exact Hrun|]. split; [exact Hg|].
    split; [exact Hl'|]. intros Hget. rewrite (Hnone Hget). cbn [heap].
    apply list_lookup_insert_eq. unfold h1.
    rewrite length_insert, length_app. unfold v. simpl. lia.
Qed.

Lemma default_materials deps (l : loc) (o : SongbirdOptions) (w : world) :
  heap w !! l = Some (COptions o) ->
  exists w',
    default_field (Songbird.load_options l) (Songbird.store_options l)
      materials Songbird.set_materials (alloc (CMaterials ∅))
      (Songbird.assign_materials deps) w = Ok tt w'
    /\ grows_except l w w'
    /\ heap w' !! l =
         Some (COptions (fill_with materials Songbird.set_materials
                           (length (heap w)) o))
    /\ (materials o = None ->
        heap w' !! length (heap w) =
          Some (CMaterials (Room_DEFAULT_MATERIALS deps))).
Proof.
  intros Hl.
  pose proof (lookup_lt_Some _ _ _ Hl) as Hlt.
  set (v := length (heap w)).
  set (D := Room_DEFAULT_MATERIALS deps).
  set (h1 := <[l := COptions (Songbird.set_materials v o)]>
               (heap w ++ [CMaterials ∅])).
  assert (Hv : h1 !! v = Some (CMaterials ∅)).
  { unfold h1, v. rewrite list_lookup_insert_ne by lia.
    rewrite lookup_app_r by lia. now rewrite Nat.sub_diag. }
  destruct (default_step COptions Songbird.load_options materials
              Songbird.set_materials (alloc (CMaterials ∅))
              (Songbird.assign_materials deps) l o w v
              {| heap := heap w ++ [CMaterials ∅]; trace := trace w;
                 globals := globals w |}
              {| heap := <[v := CMaterials D]> h1;
                 trace := trace w; globals := globals w |})
    as (w' & Hrun & Hg & Hl' & Hnone);
    auto using Songbird_load_options_ok.
  - simpl. now apply lookup_app_l_Some.
  - cbn [heap trace globals]. fold h1.
    unfold Songbird.assign_materials.
    erewrite bind_Ok; [|apply load_ok; exact Hv].
    cbv beta iota. fold D.
    step_with (member_ok Songbird.scope "Room" D _ eq_refl).
    unfold store, Object_assign. cbn [heap trace globals].
    now rewrite (right_id_L ∅ (∪)).
  - split; [reflexivity|]. split; [reflexivity|]. split; cbn [heap].
    + unfold h1. rewrite !length_insert, length_app. lia.
    + intros k c Hk Hc.
      pose proof (lookup_lt_Some _ _ _ Hc) as Hklt.
      unfold h1. rewrite !list_lookup_insert_ne by (unfold v; lia).
      now apply lookup_app_l_Some.
  - cbn [heap]. unfold h1.
    rewrite list_lookup_insert_ne by (unfold v; lia).
    apply list_lookup_insert_eq. rewrite length_app. lia.
  - exists w'. split; [exact Hrun|]. split; [exact Hg|].
    split; [exact Hl'|]. intros Hget. rewrite (Hnone Hget). cbn [heap].
    apply list_lookup_insert_eq. unfold h1.
    rewrite length_insert, length_app. unfold v. simpl. lia.
Qed.

Lemma fill_with_other {O A B} (get : O -> option A) (set : A -> O -> O)
    (get' : O -> B) (v : A) (o : O) :
  (forall v o, get' (set v o) = get' o) ->
  get' (fill_with get set v o) = get' o.
Proof. intros H. unfold fill_with. destruct (get o); auto. Qed.

Lemma fill_with_same {O A} (get : O -> option A) (set : A -> O -> O)
    (v : A) (o : O) :
  (forall v o, get (set v o) = Some v) ->
  get (fill_with get set v o) = Some (default v (get o)).
Proof.
  intros H. unfold fill_with. destruct (get o) eqn:E; simpl; auto.
Qed.

Lemma filled_ref_intro (l : loc) (w wi wi' w' : world) (old : option loc)
    (c : cell) :
  (l < length (heap w))%nat ->
  grows_except l w wi -> grows_except l wi' w' ->
  (old = None -> heap wi' !! length (heap wi) = Some c) ->
  filled_ref (heap w) (heap w')
    old (Some (default (length (heap wi)) old)) c.
Proof.
  intros Hlt Hg Hg' Hc. destruct old as [p|]; simpl; [reflexivity|].
  exists (length (heap wi)). split; [reflexivity|].
  pose proof (grows_except_length _ _ _ Hg) as Hlen.
  split.
  - apply lookup_ge_None. lia.
  - eapply grows_except_lookup; [exact Hg'|lia|auto].
Qed.

Lemma Songbird_fill_defaults_run deps (l : loc) (o : SongbirdOptions)
    (w : world) :
  heap w !! l = Some (COptions o) ->
  exists w' o',
    Songbird.fill_defaults deps l w = Ok tt w'
    /\ grows_except l w w'
    /\ heap w' !! l = Some (COptions o')
    /\ ambisonicOrder o' =
         Some (default (Encoder_DEFAULT_AMBISONIC_ORDER deps)
                 (ambisonicOrder o))
    /\ filled_ref (heap w) (heap w') (listenerPosition o)
         (listenerPosition o') (CArray (Utils_DEFAULT_POSITION deps))
    /\ filled_ref (heap w) (heap w') (listenerForward o)
         (listenerForward o') (CArray (Utils_DEFAULT_FORWARD deps))
    /\ filled_ref (heap w) (heap w') (listenerUp o)
         (listenerUp o') (CArray (Utils_DEFAULT_UP deps))
    /\ filled_ref (heap w) (heap w') (dimensions o) (dimensions o')
         (CDimensions (EarlyReflections_DEFAULT_DIMENSIONS deps))
    /\ filled_ref (heap w) (heap w') (materials o) (materials o')
         (CMaterials (Room_DEFAULT_MATERIALS deps))
    /\ speedOfSound o' =
         Some (default (Utils_DEFAULT_SPEED_OF_SOUND deps) (speedOfSound o)).
Proof.
  intros Hl.
  pose proof (lookup_lt_Some _ _ _ Hl) as Hlt.
  pose proof Songbird_load_options_ok as Hrd.
  destruct (default_const COptions Songbird.load_options ambisonicOrder
              Songbird.set_ambisonicOrder Songbird.scope "Encoder"
              (Encoder_DEFAULT_AMBISONIC_ORDER deps) l o w
              ltac:(auto) Hl eq_refl) as (w1 & Hrun1 & Hg1 & Hl1).
  destruct (default_slice COptions Songbird.load_options listenerPosition
              Songbird.set_listenerPosition Songbird.scope "Utils"
              (Utils_DEFAULT_POSITION deps) l _ w1
              ltac:(auto) Hl1 eq_refl) as (w2 & Hrun2 & Hg2 & Hl2 & Hn2).
  destruct (default_slice COptions Songbird.load_options listenerForward
              Songbird.set_listenerForward Songbird.scope "Utils"
              (Utils_DEFAULT_FORWARD deps) l _ w2
              ltac:(auto) Hl2 eq_refl) as (w3 & Hrun3 & Hg3 & Hl3 & Hn3).
  destruct (default_slice COptions Songbird.load_options listenerUp
              Songbird.set_listenerUp Songbird.scope "Utils"
              (Utils_DEFAULT_UP deps) l _ w3
              ltac:(auto) Hl3 eq_refl) as (w4 & Hrun4 & Hg4 & Hl4 & Hn4).
  destruct (default_dimensions deps l _ w4 Hl4)
    as (w5 & Hrun5 & Hg5 & Hl5 & Hn5).
  destruct (default_materials deps l _ w5 Hl5)
    as (w6 & Hrun6 & Hg6 & Hl6 & Hn6).
  destruct (default_const COptions Songbird.load_options speedOfSound
              Songbird.set_speedOfSound Songbird.scope "Utils"
              (Utils_DEFAULT_SPEED_OF_SOUND deps) l _ w6
              ltac:(auto) Hl6 eq_refl) as (w7 & Hrun7 & Hg7 & Hl7).
  exists w7. eexists. split.
  { unfold Songbird.fill_defaults.
    step_with Hrun1. step_with Hrun2. step_with Hrun3. step_with Hrun4.
    step_with Hrun5. step_with Hrun6. exact Hrun7. }
  assert (Hg01 := Hg1).
  assert (Hg02 : grows_except l w w2) by eauto using grows_except_trans.
  assert (Hg03 : grows_except l w w3) by eauto using grows_except_trans.
  assert (Hg04 : grows_except l w w4) by eauto using grows_except_trans.
  assert (Hg05 : grows_except l w w5) by eauto using grows_except_trans.
  assert (Hg06 : grows_except l w w6) by eauto using grows_except_trans.
  assert (Hg07 : grows_except l w w7) by eauto using grows_except_trans.
  assert (Hg67 := Hg7).
  assert (Hg57 : grows_except l w5 w7) by eauto using grows_except_trans.
  assert (Hg47 : grows_except l w4 w7) by eauto using grows_except_trans.
  assert (Hg37 : grows_except l w3 w7) by eauto using grows_except_trans.
  assert (Hg27 : grows_except l w2 w7) by eauto using grows_except_trans.
  split; [exact Hg07|]. split; [exact Hl7|].
  rewrite !fill_with_other in Hn2 by reflexivity.
  rewrite !fill_with_other in Hn3 by reflexivity.
  rewrite !fill_with_other in Hn4 by reflexivity.
  rewrite !fill_with_other in Hn5 by reflexivity.
  rewrite !fill_with_other in Hn6 by reflexivity.
  repeat split.
  - repeat (rewrite fill_with_other by reflexivity).
    rewrite fill_with_same by reflexivity. reflexivity.
  - repeat (rewrite fill_with_other by reflexivity).
    rewrite fill_with_same by reflexivity.
    repeat (rewrite fill_with_other by reflexivity).
    apply (filled_ref_intro l w w1 w2 w7); assumption.
  - repeat (rewrite fill_with_other by reflexivity).
    rewrite fill_with_same by reflexivity.
    repeat (rewrite fill_with_other by reflexivity).
    apply (filled_ref_intro l w w2 w3 w7); assumption.
  - repeat (rewrite fill_with_other by reflexivity).
    rewrite fill_with_same by reflexivity.
    repeat (rewrite fill_with_other by reflexivity).
    apply (filled_ref_intro l w w3 w4 w7); assumption.
  - repeat (rewrite fill_with_other by reflexivity).
    rewrite fill_with_same by reflexivity.
    repeat (rewrite fill_with_other by reflexivity).
    apply (filled_ref_intro l w w4 w5 w7); assumption.
  - repeat (rewrite fill_with_other by reflexivity).
    rewrite fill_with_same by reflexivity.
    repeat (rewrite fill_with_other by reflexivity).
    apply (filled_ref_intro l w w5 w6 w7); assumption.
  - rewrite fill_with_same by reflexivity.
    repeat (rewrite fill_with_other by reflexivity). reflexivity.
Qed.

Lemma filled_ref_Some h h' old new c :
  filled_ref h h' old new c -> exists p, new = Some p.
Proof.
  unfold filled_ref. destruct old as [p|]; [eauto|].
  intros (p & Hp & _). eauto.
Qed.

Lemma filled_ref_extends h h1 h2 old new c :
  filled_ref h h1 old new c -> heap_extends h1 h2 ->
  filled_ref h h2 old new c.
Proof.
  unfold filled_ref. destruct old as [p|]; [auto|].
  intros (p & Hp & Hnew & Hc) Hext. exists p. auto.
Qed.

Lemma filled_ref_array l w w' o old new D xs p :
  heap w !! l = Some (COptions o) ->
  grows_except l w w' ->
  filled_ref (heap w) (heap w') old new (CArray D) ->
  field_array (heap w) old D = Some xs ->
  new = Some p ->
  heap w' !! p = Some (CArray xs).
Proof.
  intros Hl Hg Hfilled Harr ->. destruct old as [q|]; simpl in Hfilled.
  - injection Hfilled as ->. apply field_array_Some in Harr.
    eapply grows_except_lookup; [exact Hg| |exact Harr].
    intros ->. congruence.
  - destruct Hfilled as (q & [= ->] & _ & Hq). simpl in Harr.
    congruence.
Qed.

Lemma Songbird_run deps (ctx l : loc) (o : SongbirdOptions) (w : world)
    (fs us : list num) :
  heap w !! l = Some (COptions o) ->
  field_array (heap w) (listenerForward o) (Utils_DEFAULT_FORWARD deps)
    = Some fs ->
  field_array (heap w) (listenerUp o) (Utils_DEFAULT_UP deps) = Some us ->
  exists this w' wf o',
    Songbird.Songbird deps ctx (Some l) w = Ok this w'
    /\ Songbird.fill_defaults deps l w = Ok tt wf
    /\ grows_except l w wf
    /\ heap_extends (heap wf) (heap w')
    /\ globals w' = globals w
    /\ heap wf !! l = Some (COptions o')
    /\ ambisonicOrder o' =
         Some (default (Encoder_DEFAULT_AMBISONIC_ORDER deps)
                 (ambisonicOrder o))
    /\ filled_ref (heap w) (heap wf) (listenerPosition o)
         (listenerPosition o') (CArray (Utils_DEFAULT_POSITION deps))
    /\ filled_ref (heap w) (heap wf) (listenerForward o)
         (listenerForward o') (CArray (Utils_DEFAULT_FORWARD deps))
    /\ filled_ref (heap w) (heap wf) (listenerUp o)
         (listenerUp o') (CArray (Utils_DEFAULT_UP deps))
    /\ filled_ref (heap w) (heap wf) (dimensions o) (dimensions o')
         (CDimensions (EarlyReflections_DEFAULT_DIMENSIONS deps))
    /\ filled_ref (heap w) (heap wf) (materials o) (materials o')
         (CMaterials (Room_DEFAULT_MATERIALS deps))
    /\ speedOfSound o' =
         Some (default (Utils_DEFAULT_SPEED_OF_SOUND deps) (speedOfSound o))
    /\ Songbird._sources this = []
    /\ Some (Songbird._ambisonicOrder this) = ambisonicOrder o'
    /\ (let f (i : nat) := to_number (fs !! i) in
        let u (i : nat) := to_number (us !! i) in
        let right :=
          Utils_crossProduct deps [f 0; f 1; f 2]%nat [u 0; u 1; u 2]%nat in
        take 9 (vec_to_list
                  (Listener._tempMatrix4 (Songbird._listener this))) =
          map fround
            (map (fun i => to_number (right !! i)) [0; 1; 2]%nat
             ++ [u 0; u 1; u 2] ++ [f 0; f 1; f 2])%nat)
    /\ exists lp ld lm speed,
         listenerPosition o' = Some lp /\ dimensions o' = Some ld
         /\ materials o' = Some lm /\ speedOfSound o' = Some speed
         /\ let L := Songbird._listener this in
            trace w' =
              trace w ++
              [ENewRoom (Songbird._room this) lp ld lm speed;
               ECreateHOARenderer (Listener._renderer L)
                 (Songbird._ambisonicOrder this)
                 (Listener.select_urls (Songbird._ambisonicOrder this));
               ECreateGain (Listener.input L);
               ECreateGain (Listener.ambisonicOutput L);
               ECreateGain (Listener.output L);
               ERendererInitialize (Listener._renderer L);
               ESetRotationMatrix (Listener._renderer L)
                 (Listener._tempMatrix4 L);
               ECreateGain (Songbird.output this);
               ECreateGain (Songbird.ambisonicOutput this);
               EConnect (RoomOutput (Songbird._room this))
                 (Node (Listener.input L));
               EConnect (Node (Listener.output L))
                 (Node (Songbird.output this));
               EConnect (Node (Listener.ambisonicOutput L))
                 (Node (Songbird.ambisonicOutput this))].
Proof.
  intros Hl Hf Hu.
  destruct (Songbird_fill_defaults_run deps l o w Hl)
    as (wf & o' & Hfill & Hg & Hl' & Ho & Hp & Hfw & Hup & Hd & Hm & Hs).
  destruct (filled_ref_Some _ _ _ _ _ Hp) as (lp & Elp).
  destruct (filled_ref_Some _ _ _ _ _ Hfw) as (lf & Elf).
  destruct (filled_ref_Some _ _ _ _ _ Hup) as (lu & Elu).
  destruct (filled_ref_Some _ _ _ _ _ Hd) as (ld & Eld).
  destruct (filled_ref_Some _ _ _ _ _ Hm) as (lm & Elm).
  pose proof (filled_ref_array _ _ _ _ _ _ _ _ _ Hl Hg Hfw Hf Elf) as Hlf.
  pose proof (filled_ref_array _ _ _ _ _ _ _ _ _ Hl Hg Hup Hu Elu) as Hlu.
  set (order := default (Encoder_DEFAULT_AMBISONIC_ORDER deps)
                  (ambisonicOrder o)) in *.
  set (lo := {| l_ambisonicOrder := Some order; l_position := Some lp;
                l_forward := Some lf; l_up := Some lu |}).
  set (w3 := {| heap := (heap wf ++ [CExternal KRoom])
                        ++ [CListenerOptions lo];
                trace := trace wf ++
                         [ENewRoom (length (heap wf)) lp ld lm
                            (default (Utils_DEFAULT_SPEED_OF_SOUND deps)
                               (speedOfSound o))];
                globals := globals wf |}).
  destruct (Listener_run deps ctx (length (heap wf ++ [CExternal KRoom]))
              lo w3 order fs us)
    as (this_l & w4 & Hrun_l & Htr4 & Hgl4 & Hh4 & _ & Hrows & _);
    try reflexivity.
  { unfold w3. cbn [heap]. rewrite lookup_app_r by lia.
    now rewrite Nat.sub_diag. }
  { unfold w3, field_array, lo. cbn [heap l_forward].
    now rewrite (lookup_app_l_Some _ _ _ _
                   (lookup_app_l_Some _ [CExternal KRoom] _ _ Hlf)). }
  { unfold w3, field_array, lo. cbn [heap l_up].
    now rewrite (lookup_app_l_Some _ _ _ _
                   (lookup_app_l_Some _ [CExternal KRoom] _ _ Hlu)). }
  do 2 eexists. exists wf, o'. split.
  { unfold Songbird.Songbird.
    step_with (eq_refl : ret l w = Ok l w).
    step_with Hfill.
    step_with (Songbird_load_options_ok _ _ _ Hl').
    rewrite Ho, Elp, Elf, Elu, Eld, Elm, Hs.
    step_with (member_ok Songbird.scope "Room" tt wf eq_refl).
    step_with (eq_refl : Room.Room lp ld lm _ wf = Ok (length (heap wf)) _).
    step_with (member_ok Songbird.scope "Listener" tt _ eq_refl).
    step_with (alloc_spec _ _).
    step_with Hrun_l.
    do 2 step_with (createGain_spec _).
    do 3 step_with (emit_spec _ _ : AudioContext.connect _ _ _ = _).
    reflexivity. }
  split; [exact Hfill|]. split; [exact Hg|].
  split.
  { intros k c Hk. unfold with_trace. cbn [heap].
    do 2 apply lookup_app_l_Some.
    destruct Hh4 as (_ & Hh4). apply Hh4.
    - pose proof (lookup_lt_Some _ _ _ Hk). rewrite length_app. simpl. lia.
    - unfold w3. cbn [heap]. now do 2 apply lookup_app_l_Some. }
  split.
  { unfold with_trace. cbn [globals]. rewrite Hgl4.
    unfold w3. cbn [globals]. now destruct Hg as (_ & Hgl & _). }
  split; [exact Hl'|].
  repeat (split; [assumption|]).
  split; [reflexivity|].
  split; [cbn [Songbird._ambisonicOrder]; now rewrite Ho|].
  split; [exact Hrows|].
  exists lp, ld, lm,
    (default (Utils_DEFAULT_SPEED_OF_SOUND deps) (speedOfSound o)).
  repeat (split; [assumption|]).
  unfold with_trace.
  cbn [trace Songbird._listener Songbird._room Songbird._ambisonicOrder
       Songbird.output Songbird.ambisonicOutput].
  rewrite Htr4. unfold w3. cbn [trace].
  destruct Hg as (-> & _). rewrite <- !app_assoc. reflexivity.
Qed.

Lemma Songbird_options_fixpoint deps (o o' : SongbirdOptions) h h' :
  (exists v, ambisonicOrder o = Some v) ->
  ambisonicOrder o' =
    Some (default (Encoder_DEFAULT_AMBISONIC_ORDER deps) (ambisonicOrder o)) ->
  (exists p, listenerPosition o = Some p) ->
  filled_ref h h' (listenerPosition o) (listenerPosition o')
    (CArray (Utils_DEFAULT_POSITION deps)) ->
  (exists p, listenerForward o = Some p) ->
  filled_ref h h' (listenerForward o) (listenerForward o')
    (CArray (Utils_DEFAULT_FORWARD deps)) ->
  (exists p, listenerUp o = Some p) ->
  filled_ref h h' (listenerUp o) (listenerUp o')
    (CArray (Utils_DEFAULT_UP deps)) ->
  (exists p, dimensions o = Some p) ->
  filled_ref h h' (dimensions o) (dimensions o')
    (CDimensions (EarlyReflections_DEFAULT_DIMENSIONS deps)) ->
  (exists p, materials o = Some p) ->
  filled_ref h h' (materials o) (materials o')
    (CMaterials (Room_DEFAULT_MATERIALS deps)) ->
  (exists v, speedOfSound o = Some v) ->
  speedOfSound o' =
    Some (default (Utils_DEFAULT_SPEED_OF_SOUND deps) (speedOfSound o)) ->
  o' = o.
Proof.
  destruct o as [a b c d e f g], o' as [a' b' c' d' e' f' g']. simpl.
  intros (? & ->) -> (? & ->) -> (? & ->) -> (? & ->) -> (? & ->) ->
    (? & ->) -> (? & ->) ->.
  reflexivity.
Qed.

(** C9. The constructor writes the defaults into the option object the
    caller passed: after [new Songbird(context, options)] that very object
    holds, in each field that was missing, the default (for an array or
    object, a reference to a fresh copy of it), and in every other field
    what it held before. A second construction from the same object finds
    all fields present and leaves the object as the first one made it. *)
Theorem Songbird_fills_caller_options deps (ctx ctx2 l : loc)
    (o : SongbirdOptions) (w : world) (fs us : list num)
    (Hl : heap w !! l = Some (COptions o))
    (Hf : field_array (heap w) (listenerForward o)
            (Utils_DEFAULT_FORWARD deps) = Some fs)
    (Hu : field_array (heap w) (listenerUp o) (Utils_DEFAULT_UP deps)
          = Some us) :
  exists this w' o',
    Songbird.Songbird deps ctx (Some l) w = Ok this w'
    /\ heap w' !! l = Some (COptions o')
    /\ ambisonicOrder o' =
         Some (default (Encoder_DEFAULT_AMBISONIC_ORDER deps)
                 (ambisonicOrder o))
    /\ filled_ref (heap w) (heap w') (listenerPosition o)
         (listenerPosition o') (CArray (Utils_DEFAULT_POSITION deps))
    /\ filled_ref (heap w) (heap w') (listenerForward o)
         (listenerForward o') (CArray (Utils_DEFAULT_FORWARD deps))
    /\ filled_ref (heap w) (heap w') (listenerUp o)
         (listenerUp o') (CArray (Utils_DEFAULT_UP deps))
    /\ filled_ref (heap w) (heap w') (dimensions o) (dimensions o')
         (CDimensions (EarlyReflections_DEFAULT_DIMENSIONS deps))
    /\ filled_ref (heap w) (heap w') (materials o) (materials o')
         (CMaterials (Room_DEFAULT_MATERIALS deps))
    /\ speedOfSound o' =
         Some (default (Utils_DEFAULT_SPEED_OF_SOUND deps) (speedOfSound o))
    /\ (Songbird.some_missing o = true -> o' <> o)
    /\ exists this2 w'',
         Songbird.Songbird deps ctx2 (Some l) w' = Ok this2 w''
         /\ heap w'' !! l = Some (COptions o').
Proof.
  destruct (Songbird_run deps ctx l o w fs us Hl Hf Hu)
    as (this & w' & wf & o' & Hrun & _ & Hg & Hext & _ & Hl' & Ho & Hp & Hfw
        & Hup & Hd & Hm & Hs & _).
  exists this, w', o'. split; [exact Hrun|].
  assert (Hlw' : heap w' !! l = Some (COptions o')) by auto.
  split; [exact Hlw'|]. split; [exact Ho|].
  pose proof (filled_ref_extends _ _ _ _ _ _ Hp Hext) as Hp'.
  pose proof (filled_ref_extends _ _ _ _ _ _ Hfw Hext) as Hfw'.
  pose proof (filled_ref_extends _ _ _ _ _ _ Hup Hext) as Hup'.
  pose proof (filled_ref_extends _ _ _ _ _ _ Hd Hext) as Hd'.
  pose proof (filled_ref_extends _ _ _ _ _ _ Hm Hext) as Hm'.
  repeat (split; [assumption|]).
  split.
  { intros Hmissing ->. unfold Songbird.some_missing in Hmissing.
    destruct (filled_ref_Some _ _ _ _ _ Hp) as (? & Ep).
    destruct (filled_ref_Some _ _ _ _ _ Hfw) as (? & Ef).
    destruct (filled_ref_Some _ _ _ _ _ Hup) as (? & Eu).
    destruct (filled_ref_Some _ _ _ _ _ Hd) as (? & Ed).
    destruct (filled_ref_Some _ _ _ _ _ Hm) as (? & Em).
    rewrite Ho, Ep, Ef, Eu, Ed, Em, Hs in Hmissing. discriminate. }
  destruct (filled_ref_Some _ _ _ _ _ Hfw) as (lf & Elf).
  destruct (filled_ref_Some _ _ _ _ _ Hup) as (lu & Elu).
  pose proof (filled_ref_array _ _ _ _ _ _ _ _ _ Hl Hg Hfw Hf Elf) as Hlf.
  pose proof (filled_ref_array _ _ _ _ _ _ _ _ _ Hl Hg Hup Hu Elu) as Hlu.
  destruct (Songbird_run deps ctx2 l o' w' fs us Hlw')
    as (this2 & w'' & wf2 & o'' & Hrun2 & _ & _ & Hext2 & _ & Hl2 & Ho2 & Hp2
        & Hfw2 & Hup2 & Hd2 & Hm2 & Hs2 & _).
  { rewrite Elf. unfold field_array. now rewrite (Hext _ _ Hlf). }
  { rewrite Elu. unfold field_array. now rewrite (Hext _ _ Hlu). }
  exists this2, w''. split; [exact Hrun2|].
  rewrite <- (Songbird_options_fixpoint deps o' o'' _ _
                ltac:(eauto) Ho2
                (filled_ref_Some _ _ _ _ _ Hp) Hp2
                (filled_ref_Some _ _ _ _ _ Hfw) Hfw2
                (filled_ref_Some _ _ _ _ _ Hup) Hup2
                (filled_ref_Some _ _ _ _ _ Hd) Hd2
                (filled_ref_Some _ _ _ _ _ Hm) Hm2
                ltac:(eauto) Hs2).
  auto.
Qed.

Lemma Songbird_fills_caller_options_witness :
  exists this w' o',
    Songbird.Songbird Sample.deps 0%nat (Some 1%nat)
      (Sample.options_world Songbird.empty_options) = Ok this w'
    /\ heap w' !! 1%nat = Some (COptions o')
    /\ ambisonicOrder o' = Some one
    /\ (exists p, listenerPosition o' = Some p
                  /\ heap w' !! p =
                       Some (CArray [zero; zero; zero]))
    /\ (exists p, listenerForward o' = Some p
                  /\ heap w' !! p =
                       Some (CArray [zero; zero; one]))
    /\ exists this2 w'',
         Songbird.Songbird Sample.deps 0%nat (Some 1%nat) w' = Ok this2 w''
         /\ heap w'' !! 1%nat = Some (COptions o').
Proof.
  destruct (Songbird_fills_caller_options Sample.deps 0%nat 0%nat 1%nat
              Songbird.empty_options
              (Sample.options_world Songbird.empty_options)
              [zero; zero; one]
              [zero; one; zero]
              eq_refl eq_refl eq_refl)
    as (this & w' & o' & Hrun & Hl & Ho & Hp & Hf & _ & _ & _ & _ & _
        & Hagain).
  exists this, w', o'. split; [exact Hrun|]. split; [exact Hl|].
  split; [exact Ho|].
  destruct Hp as (p & Hp & _ & Hcp), Hf as (f & Hf & _ & Hcf).
  split; [eauto|]. split; [eauto|]. exact Hagain.
Defined.

(** ** Magnitude of rounded numbers *)

Lemma digits2_pos_bounds (p : positive) :
  2 ^ (Zpos (digits2_pos p) - 1) <= Zpos p < 2 ^ Zpos (digits2_pos p).
Proof.
  induction p as [p IH|p IH|]; simpl digits2_pos.
  - rewrite Pos2Z.inj_succ.
    replace (Z.succ (Zpos (digits2_pos p)) - 1) with (Zpos (digits2_pos p))
      by lia.
    rewrite Z.pow_succ_r by lia.
    assert (H : 2 ^ Zpos (digits2_pos p)
                = 2 * 2 ^ (Zpos (digits2_pos p) - 1)).
    { rewrite <- Z.pow_succ_r by lia. f_equal. lia. }
    lia.
  - rewrite Pos2Z.inj_succ.
    replace (Z.succ (Zpos (digits2_pos p)) - 1) with (Zpos (digits2_pos p))
      by lia.
    rewrite Z.pow_succ_r by lia.
    assert (H : 2 ^ Zpos (digits2_pos p)
                = 2 * 2 ^ (Zpos (digits2_pos p) - 1)).
    { rewrite <- Z.pow_succ_r by lia. f_equal. lia. }
    lia.
  - simpl. lia.
Qed.

Lemma Zdigits2_log2 (p : positive) :
  Zpos (digits2_pos p) = Z.log2 (Zpos p) + 1.
Proof.
  pose proof (digits2_pos_bounds p) as [Hlo Hhi].
  assert (H : Z.log2 (Zpos p) = Zpos (digits2_pos p) - 1).
  { apply Z.log2_unique; [lia|]. split; [exact Hlo|].
    replace (Z.succ (Zpos (digits2_pos p) - 1)) with (Zpos (digits2_pos p))
      by lia. exact Hhi. }
  lia.
Qed.

Lemma shr_1_m (r : shr_record) :
  0 <= shr_m r -> shr_m (shr_1 r) = Z.div2 (shr_m r).
Proof.
  destruct r as [m rr ss]. simpl. destruct m as [|[p|p|]|p]; simpl; try lia;
    reflexivity.
Qed.

Lemma iter_pos_shr_1 (p : positive) :
  forall r, 0 <= shr_m r ->
    shr_m (SpecFloat.iter_pos shr_1 p r) = Z.shiftr (shr_m r) (Zpos p).
Proof.
  induction p as [p IH|p IH|]; intros r Hr; simpl SpecFloat.iter_pos.
  - assert (H1 : 0 <= shr_m (shr_1 r)).
    { rewrite shr_1_m by assumption. apply Z.div2_nonneg. assumption. }
    assert (H2 : 0 <= shr_m (SpecFloat.iter_pos shr_1 p (shr_1 r))).
    { rewrite IH by assumption. apply Z.shiftr_nonneg. assumption. }
    rewrite IH, IH, shr_1_m by assumption.
    rewrite Z.div2_spec, !Z.shiftr_shiftr by lia.
    f_equal. lia.
  - assert (H2 : 0 <= shr_m (SpecFloat.iter_pos shr_1 p r)).
    { rewrite IH by assumption. apply Z.shiftr_nonneg. assumption. }
    rewrite IH, IH by assumption.
    rewrite !Z.shiftr_shiftr by lia. f_equal. lia.
  - rewrite shr_1_m by assumption. apply Z.div2_spec.
Qed.

Lemma digits2_pos_iter_xO (m d : positive) :
  Zpos (digits2_pos (Pos.iter xO m d)) = Zpos (digits2_pos m) + Zpos d.
Proof.
  induction d as [|d IH] using Pos.peano_ind.
  - simpl. lia.
  - rewrite Pos.iter_succ. simpl digits2_pos. lia.
Qed.

Lemma Zdigits2_pos_log2 (z : Z) : 0 < z -> Zdigits2 z = Z.log2 z + 1.
Proof.
  destruct z as [|p|p]; try lia. intros _. simpl Zdigits2.
  apply Zdigits2_log2.
Qed.

Lemma Zdigits2_nonneg (z : Z) : 0 <= Zdigits2 z.
Proof. destruct z; simpl; lia. Qed.

Lemma Zdigits2_le (a b : Z) : 0 <= a -> a <= b -> Zdigits2 a <= Zdigits2 b.
Proof.
  intros Ha Hab. destruct (Z.eq_dec a 0) as [->|Hne].
  - apply Zdigits2_nonneg.
  - rewrite !Zdigits2_pos_log2 by lia.
    pose proof (Z.log2_le_mono a b Hab). lia.
Qed.

Lemma Zdigits2_succ (a : Z) : 0 <= a -> Zdigits2 (a + 1) <= Zdigits2 a + 1.
Proof.
  intros Ha. destruct (Z.eq_dec a 0) as [->|Hne]; [simpl; lia|].
  rewrite !Zdigits2_pos_log2 by lia.
  pose proof (Z.log2_succ_le a). unfold Z.succ in *. lia.
Qed.

Lemma Zdigits2_mul (a b : positive) :
  Zpos (digits2_pos (a * b)) <= Zpos (digits2_pos a) + Zpos (digits2_pos b).
Proof.
  rewrite !Zdigits2_log2. rewrite Pos2Z.inj_mul.
  pose proof (Z.log2_mul_above (Zpos a) (Zpos b)). lia.
Qed.

Lemma shiftr_pos_iff (z n : Z) :
  0 < z -> 0 <= n -> (0 < Z.shiftr z n <-> n < Zdigits2 z).
Proof.
  intros Hz Hn. rewrite Zdigits2_pos_log2 by assumption.
  rewrite Z.shiftr_div_pow2 by assumption.
  pose proof (Z.pow_pos_nonneg 2 n ltac:(lia) Hn) as Hp.
  pose proof (Z.log2_le_pow2 z n Hz) as Hle.
  split.
  - intros H. assert (2 ^ n <= z).
    { destruct (Z_lt_le_dec z (2 ^ n)) as [Hlt|]; [|assumption].
      rewrite Z.div_small in H by lia. lia. }
    lia.
  - intros H. assert (2 ^ n <= z) by (apply Hle; lia).
    apply Z.div_str_pos. lia.
Qed.

Lemma Zdigits2_shiftr (z n : Z) :
  0 < z -> 0 <= n -> 0 < Z.shiftr z n ->
  Zdigits2 (Z.shiftr z n) = Zdigits2 z - n.
Proof.
  intros Hz Hn Hs.
  pose proof (proj1 (shiftr_pos_iff z n Hz Hn) Hs) as Hlt.
  rewrite !Zdigits2_pos_log2 in * by assumption.
  rewrite Z.log2_shiftr by assumption. lia.
Qed.

Section Rounding.
Variables prec emax : Z.
Hypothesis Hprec : 0 < prec.

Lemma shr_fexp_spec (m e : Z) (l : location) :
  0 <= m ->
  let n := fexp prec emax (Zdigits2 m + e) - e in
  shr_m (fst (shr_fexp prec emax m e l)) =
    (if 0 <? n then Z.shiftr m n else m)
  /\ snd (shr_fexp prec emax m e l) = (if 0 <? n then e + n else e).
Proof.
  intros Hm n. unfold shr_fexp, shr. fold n.
  assert (Hrec : shr_m (shr_record_of_loc m l) = m)
    by (destruct l as [|[]]; reflexivity).
  destruct n as [|p|p] eqn:En; simpl; auto.
  rewrite iter_pos_shr_1 by (rewrite Hrec; assumption).
  now rewrite Hrec.
Qed.

Lemma shr_fexp_mag (m e : Z) (l : location) :
  0 < m ->
  let m' := shr_m (fst (shr_fexp prec emax m e l)) in
  let e' := snd (shr_fexp prec emax m e l) in
  0 <= m'
  /\ (0 < m' -> Zdigits2 m' + e' = Zdigits2 m + e)
  /\ (m' = 0 -> Zdigits2 m + e <= emin prec emax /\ e' = emin prec emax).
Proof.
  intros Hm m' e'.
  destruct (shr_fexp_spec m e l ltac:(lia)) as [Hm' He'].
  fold m' in Hm'. fold e' in He'.
  set (n := fexp prec emax (Zdigits2 m + e) - e) in *.
  assert (Hn : n = Z.max (Zdigits2 m + e - prec) (emin prec emax) - e)
    by reflexivity.
  destruct (0 <? n) eqn:E.
  - apply Z.ltb_lt in E.
    pose proof (shiftr_pos_iff m n Hm ltac:(lia)) as Hiff.
    pose proof (Z.shiftr_nonneg m n) as Hnn.
    rewrite Hm', He'. split; [apply Hnn; lia|]. split.
    + intros Hpos. rewrite Zdigits2_shiftr by (assumption || lia). lia.
    + intros Hz. assert (~ n < Zdigits2 m) by (rewrite <- Hiff; lia). lia.
  - apply Z.ltb_ge in E. rewrite Hm', He'.
    split; [lia|]. split; [reflexivity|lia].
Qed.

Lemma round_nearest_even_bounds (m : Z) (l : location) :
  m <= round_nearest_even m l <= m + 1.
Proof.
  destruct l as [|[]]; simpl; try lia. destruct (Z.even m); lia.
Qed.

Lemma binary_round_aux_rounded (s : bool) (m : positive) (e : Z)
    (l : location) :
  rounded (emin prec emax) s (mag m e)
    (binary_round_aux prec emax s (Zpos m) e l).
Proof.
  unfold binary_round_aux, mag.
  pose proof (shr_fexp_mag (Zpos m) e l ltac:(lia)) as (H1a & H1b & H1c).
  destruct (shr_fexp prec emax (Zpos m) e l) as [mrs1 e1].
  cbn [fst snd] in H1a, H1b, H1c.
  change (Zdigits2 (Zpos m)) with (Zpos (digits2_pos m)) in *.
  set (M := Zpos (digits2_pos m) + e) in *.
  set (m1 := shr_m mrs1) in *.
  pose proof (round_nearest_even_bounds m1 (loc_of_shr_record mrs1)) as Hr.
  set (r := round_nearest_even m1 (loc_of_shr_record mrs1)) in *.
  destruct (Z.eq_dec r 0) as [Hr0|Hr0].
  - (* the rounded mantissa is zero *)
    destruct (shr_fexp_spec r e1 loc_Exact ltac:(lia)) as [H2 _].
    destruct (shr_fexp prec emax r e1 loc_Exact) as [mrs2 e2].
    cbn [fst] in H2.
    assert (Hm2 : shr_m mrs2 = 0).
    { rewrite H2, Hr0.
      match goal with |- (if ?c then _ else _) = _ => destruct c end;
        [apply Z.shiftr_0_l|reflexivity]. }
    rewrite Hm2. simpl. split; [reflexivity|]. apply H1c. lia.
  - pose proof (shr_fexp_mag r e1 loc_Exact ltac:(lia)) as (H2a & H2b & H2c).
    destruct (shr_fexp prec emax r e1 loc_Exact) as [mrs2 e2].
    cbn [fst snd] in H2a, H2b, H2c.
    pose proof (Zdigits2_le m1 r H1a ltac:(lia)) as Hd1.
    pose proof (Zdigits2_succ m1 H1a) as Hd2.
    pose proof (Zdigits2_le r (m1 + 1) ltac:(lia) ltac:(lia)) as Hd3.
    assert (HM : Zdigits2 r + e1 <= Z.max M (emin prec emax) + 1
                 /\ (emin prec emax < M -> M <= Zdigits2 r + e1)
                 /\ (Zdigits2 r + e1 <= emin prec emax
                     -> M <= emin prec emax)).
    { destruct (Z.eq_dec m1 0) as [Hz|Hnz].
      - destruct (H1c Hz) as [HMle He1].
        assert (r = 1) by lia. subst r. rewrite H. simpl Zdigits2. lia.
      - specialize (H1b ltac:(lia)). lia. }
    destruct HM as (HM1 & HM2 & HM3).
    destruct (shr_m mrs2) as [|p|p] eqn:Em2.
    + simpl. split; [reflexivity|]. apply HM3. apply H2c. reflexivity.
    + specialize (H2b ltac:(lia)). simpl Zdigits2 in H2b.
      destruct (e2 <=? emax - prec); simpl; [|reflexivity].
      split; [reflexivity|]. unfold mag. lia.
    + lia.
Qed.

Lemma shl_align_mag (m : positive) (e e' : Z) :
  mag (fst (shl_align m e e')) (snd (shl_align m e e')) = mag m e.
Proof.
  unfold shl_align, mag. destruct (e' - e) as [|d|d] eqn:E; cbn [fst snd];
    try reflexivity.
  rewrite digits2_pos_iter_xO. lia.
Qed.

Lemma binary_round_rounded (s : bool) (m : positive) (e : Z) :
  rounded (emin prec emax) s (mag m e) (binary_round prec emax s m e).
Proof.
  unfold binary_round.
  pose proof (shl_align_mag m e
                (fexp prec emax (Zpos (digits2_pos m) + e))) as H.
  destruct (shl_align m e _) as [mz ez]. cbn [fst snd] in H.
  rewrite <- H. apply binary_round_aux_rounded.
Qed.
End Rounding.

(** ** Signs and magnitudes under [fround], [mul] and [sub] *)

Lemma fround_finite_cases (s : bool) (m : positive) (e : Z) :
  match fround (S754_finite s m e) with
  | S754_zero s' => s' = s /\ mag m e <= -149
  | S754_finite s' m' e' =>
      s' = s /\ mag m' e' <= Z.max (mag m e) (-149) + 2
  | S754_infinity s' => s' = s
  | S754_nan => False
  end.
Proof.
  unfold fround, to_binary32.
  pose proof (binary_round_rounded prec32 emax32 eq_refl s m e) as H1.
  change (emin prec32 emax32) with (-149) in H1.
  destruct (binary_round prec32 emax32 s m e) as [s1|s1| |s1 m1 e1];
    simpl in H1; simpl of_binary32; try exact H1.
  destruct H1 as (-> & Hup & Hlow).
  pose proof (binary_round_rounded prec64 emax64 eq_refl s m1 e1) as H2.
  change (emin prec64 emax64) with (-1074) in H2.
  destruct (binary_round prec64 emax64 s m1 e1) as [s2|s2| |s2 m2 e2];
    simpl in H2; try exact H2.
  - destruct H2 as (-> & H2). split; [reflexivity|]. lia.
  - destruct H2 as (-> & H2 & _). split; [reflexivity|]. lia.
Qed.

Lemma SFeqb_positive_inv (y : spec_float) (m0 : positive) (e0 : Z) :
  SFeqb y (S754_finite false m0 e0) = true -> y = S754_finite false m0 e0.
Proof.
  unfold SFeqb.
  destruct y as [s|s| |s m e];
    [destruct s; discriminate|destruct s; discriminate|discriminate|].
  destruct s; simpl; [discriminate|].
  destruct (e ?= e0) eqn:Ee; try discriminate.
  apply Z.compare_eq in Ee. subst e.
  destruct (Pos.compare_cont Eq m m0) eqn:Em; try discriminate.
  apply Pos.compare_eq in Em. now subst m.
Qed.

Lemma eqb_one_inv (y : num) :
  Num.eqb y one = true -> y = S754_finite false 4503599627370496 (-52).
Proof. apply SFeqb_positive_inv. Qed.

Lemma eqb_zero_inv (y : num) :
  Num.eqb y zero = true -> exists s, y = S754_zero s.
Proof.
  unfold Num.eqb, SFeqb.
  destruct y as [s|s| |s m e];
    [eauto|destruct s; discriminate|discriminate|destruct s; discriminate].
Qed.

Lemma fround_one_positive (x : num) :
  Num.eqb (fround x) one = true -> exists m e, x = S754_finite false m e.
Proof.
  intros H. apply eqb_one_inv in H.
  destruct x as [s|s| |s m e]; try discriminate.
  pose proof (fround_finite_cases s m e) as Hc. rewrite H in Hc.
  destruct Hc as (<- & _). eauto.
Qed.

Lemma fround_zero_small (x : num) :
  Num.eqb (fround x) zero = true ->
  (exists s, x = S754_zero s)
  \/ exists s m e, x = S754_finite s m e /\ mag m e <= -149.
Proof.
  intros H. apply eqb_zero_inv in H. destruct H as (s0 & H).
  destruct x as [s|s| |s m e]; try discriminate; [eauto|].
  pose proof (fround_finite_cases s m e) as Hc. rewrite H in Hc.
  right. exists s, m, e. split; [reflexivity|]. apply Hc.
Qed.

(** A number whose [fround] cannot be 1: a number of negative sign, a
    zero, an infinity, NaN, or a positive one far below 1. *)
Lemma fround_not_one (y : num) :
  match y with
  | S754_finite false m e => mag m e <= -3
  | _ => True
  end ->
  Num.eqb (fround y) one = false.
Proof.
  intros Hy. destruct (Num.eqb (fround y) one) eqn:E; [|reflexivity].
  apply eqb_one_inv in E.
  destruct y as [s|s| |s m e]; try discriminate.
  pose proof (fround_finite_cases s m e) as Hc. rewrite E in Hc.
  destruct Hc as (<- & Hc). unfold mag in Hc at 1. simpl in Hc. lia.
Qed.

Lemma mul_positive (mx my : positive) (ex ey : Z) :
  match mul (S754_finite false mx ex) (S754_finite false my ey) with
  | S754_zero s | S754_infinity s | S754_finite s _ _ => s = false
  | S754_nan => False
  end.
Proof.
  unfold mul, SFmul. simpl xorb.
  pose proof (binary_round_aux_rounded prec64 emax64 eq_refl false
                (mx * my) (ex + ey) loc_Exact) as H.
  destruct (binary_round_aux _ _ _ _ _ _); simpl in H; tauto.
Qed.

Lemma mul_small (x y : num) :
  ((exists s, x = S754_zero s)
   \/ exists s m e, x = S754_finite s m e /\ mag m e <= -149) ->
  ((exists s, y = S754_zero s)
   \/ exists s m e, y = S754_finite s m e /\ mag m e <= -149) ->
  match mul x y with
  | S754_finite _ m e => mag m e <= -297
  | S754_nan => False
  | _ => True
  end.
Proof.
  intros [(sx & ->)|(sx & mx & ex & -> & Hx)]
         [(sy & ->)|(sy & my & ey & -> & Hy)]; simpl; auto.
  unfold mul, SFmul.
  pose proof (binary_round_aux_rounded prec64 emax64 eq_refl (xorb sx sy)
                (mx * my) (ex + ey) loc_Exact) as H.
  change (emin prec64 emax64) with (-1074) in H.
  pose proof (Zdigits2_mul mx my) as Hd.
  unfold mag in *.
  destruct (binary_round_aux _ _ _ _ _ _); simpl in H; try tauto.
  unfold mag in H. lia.
Qed.

Lemma shl_align_snd (m : positive) (e e' : Z) :
  e' <= e -> snd (shl_align m e e') = e'.
Proof.
  intros H. unfold shl_align. destruct (e' - e) eqn:E; simpl; lia.
Qed.

Lemma sub_small_positive (s : bool) (mx my : positive) (ex ey : Z) :
  mag mx ex <= -297 ->
  match sub (S754_finite s mx ex) (S754_finite false my ey) with
  | S754_finite false m e => mag m e <= -296
  | _ => True
  end.
Proof.
  intros Hx. unfold sub, SFsub. cbn [cond_Zopp].
  set (ez := Z.min ex ey).
  pose proof (shl_align_mag mx ex ez) as Hmx.
  rewrite (shl_align_snd mx ex ez) in Hmx by (unfold ez; lia).
  set (mx' := fst (shl_align mx ex ez)) in *.
  set (my' := fst (shl_align my ey ez)) in *.
  destruct (cond_Zopp s (Zpos mx') - Zpos my') as [|q|q] eqn:Ez;
    unfold binary_normalize.
  - exact I.
  - pose proof (binary_round_rounded prec64 emax64 eq_refl false q ez) as H.
    change (emin prec64 emax64) with (-1074) in H.
    assert (Hq : Zpos q <= Zpos mx') by (destruct s; simpl in Ez; lia).
    pose proof (Zdigits2_le (Zpos q) (Zpos mx') ltac:(lia) Hq) as Hd.
    simpl Zdigits2 in Hd. unfold mag in *.
    destruct (binary_round _ _ _ _ _) as [| | |[|] m e]; simpl in H;
      try exact I.
    unfold mag in H. lia.
  - pose proof (binary_round_rounded prec64 emax64 eq_refl true q ez) as H.
    destruct (binary_round _ _ _ _ _) as [| | |[|] m e]; simpl in H;
      try exact I.
    destruct H as (H & _). discriminate.
Qed.

(** With up = (0, 1, 0) and forward = (0, 0, 1) as the renderer receives
    them, the first element of [right = forward x up] is not 1. *)
Lemma right_row_not_one (f1 f2 u1 u2 : num) :
  Num.eqb (fround u1) one = true -> Num.eqb (fround f2) one = true ->
  Num.eqb (fround u2) zero = true -> Num.eqb (fround f1) zero = true ->
  Num.eqb (fround (sub (mul f1 u2) (mul f2 u1))) one = false.
Proof.
  intros Hu1 Hf2 Hu2 Hf1.
  apply fround_one_positive in Hu1, Hf2.
  destruct Hu1 as (mu & eu & ->), Hf2 as (mf & ef & ->).
  apply fround_zero_small in Hu2, Hf1.
  pose proof (mul_small f1 u2 Hf1 Hu2) as HT.
  pose proof (mul_positive mf mu ef eu) as HP.
  destruct (mul (S754_finite false mf ef) (S754_finite false mu eu))
    as [sp|sp| |sp mp ep]; try contradiction; subst sp;
    destruct (mul f1 u2) as [st|st| |st mt et]; try contradiction;
    try (destruct st; reflexivity).
  - (* a finite product minus a zero *)
    apply fround_not_one. simpl. destruct st; [exact I|lia].
  - (* a zero minus a positive finite product *)
    apply fround_not_one. simpl. exact I.
  - (* two finite products *)
    apply fround_not_one.
    pose proof (sub_small_positive st mt mp et ep HT) as H.
    destruct (sub _ _) as [| | |[|] m e]; try exact I. lia.
Qed.

Lemma is_identity3_right_row (r0 r1 r2 u0 u1 u2 f0 f1 f2 : num) :
  is_identity3 [r0; r1; r2; u0; u1; u2; f0; f1; f2] = true ->
  Num.eqb r0 one = true /\ Num.eqb u1 one = true /\ Num.eqb u2 zero = true
  /\ Num.eqb f1 zero = true /\ Num.eqb f2 one = true.
Proof.
  unfold is_identity3. rewrite !andb_true_iff. tauto.
Qed.

(** Whatever forward and up are, the rows the renderer receives from
    [setOrientation] with the cross product of the spec are not the
    identity. *)
Lemma rows_never_identity (f0 f1 f2 u0 u1 u2 : num) :
  is_identity3
    (map fround
       (map (fun i => to_number
               (crossProduct [f0; f1; f2] [u0; u1; u2] !! i)) [0; 1; 2]%nat
        ++ [u0; u1; u2] ++ [f0; f1; f2])) = false.
Proof.
  destruct (is_identity3 _) eqn:E; [|reflexivity].
  apply is_identity3_right_row in E.
  destruct E as (Hr & Hu1 & Hu2 & Hf1 & Hf2).
  unfold crossProduct in Hr. simpl in Hr.
  rewrite (right_row_not_one f1 f2 u1 u2 Hu1 Hf2 Hu2 Hf1) in Hr.
  discriminate.
Qed.

(** ** Scene: construction with the default orientation *)

Lemma Songbird_defaults_run deps (ctx l : loc) (o : SongbirdOptions)
    (w : world) :
  heap w !! l = Some (COptions o) ->
  listenerForward o = None -> listenerUp o = None ->
  let f (i : nat) := to_number (Utils_DEFAULT_FORWARD deps !! i) in
  let u (i : nat) := to_number (Utils_DEFAULT_UP deps !! i) in
  let right :=
    Utils_crossProduct deps [f 0; f 1; f 2]%nat [u 0; u 1; u 2]%nat in
  exists this w',
    Songbird.Songbird deps ctx (Some l) w = Ok this w'
    /\ Songbird._ambisonicOrder this =
         default (Encoder_DEFAULT_AMBISONIC_ORDER deps) (ambisonicOrder o)
    /\ In (ECreateHOARenderer
             (Listener._renderer (Songbird._listener this))
             (Songbird._ambisonicOrder this)
             (Listener.select_urls (Songbird._ambisonicOrder this)))
          (trace w')
    /\ pushed (trace w') =
         pushed (trace w)
         ++ [Listener._tempMatrix4 (Songbird._listener this)]
    /\ take 9 (vec_to_list
                 (Listener._tempMatrix4 (Songbird._listener this))) =
         map fround
           (map (fun i => to_number (right !! i)) [0; 1; 2]%nat
            ++ [u 0; u 1; u 2] ++ [f 0; f 1; f 2])%nat.
Proof.
  intros Hl Hf Hu f u right.
  destruct (Songbird_run deps ctx l o w (Utils_DEFAULT_FORWARD deps)
              (Utils_DEFAULT_UP deps) Hl)
    as (this & w' & wf & o' & Hrun & _ & _ & _ & _ & _ & Ho & _ & _ & _ & _
        & _ & _ & _ & Horder & Hrows & lp & ld & lm & speed & _ & _ & _ & _
        & Htrace);
    [now rewrite Hf|now rewrite Hu|].
  exists this, w'. split; [exact Hrun|].
  split; [rewrite Ho in Horder; now injection Horder|].
  cbv zeta in Htrace. rewrite Htrace.
  split; [apply in_or_app; right; simpl; auto|].
  split; [|exact Hrows].
  unfold pushed. rewrite omap_app. reflexivity.
Qed.

(** C8, as amended. Constructing a scene with [ambisonicOrder = 1] and the
    default forward and up vectors gives the channel count 4 (by the
    formula of the spec) and the first-order HRIR set, and the initial
    [setOrientation] pushes the rows [forward x up], [up], [forward] of the
    defaults as binary32 numbers; whatever the default vectors are, these
    rows are not the identity matrix. *)
Theorem Songbird_first_order_defaults deps (ctx l : loc)
    (o : SongbirdOptions) (w : world)
    (Hl : heap w !! l = Some (COptions o))
    (Horder : ambisonicOrder o = Some one)
    (Hf : listenerForward o = None) (Hu : listenerUp o = None) :
  let f (i : nat) := to_number (Utils_DEFAULT_FORWARD deps !! i) in
  let u (i : nat) := to_number (Utils_DEFAULT_UP deps !! i) in
  exists this w' m,
    Songbird.Songbird (with_crossProduct deps) ctx (Some l) w = Ok this w'
    /\ getNumberOfChannelsFromAmbisonicOrder (Songbird._ambisonicOrder this)
       = of_Z 4
    /\ In (ECreateHOARenderer
             (Listener._renderer (Songbird._listener this)) one
             Listener.foa_urls) (trace w')
    /\ pushed (trace w') = pushed (trace w) ++ [m]
    /\ take 9 (vec_to_list m) =
         map fround
           (crossProduct [f 0; f 1; f 2]%nat [u 0; u 1; u 2]%nat
            ++ [u 0; u 1; u 2] ++ [f 0; f 1; f 2])%nat
    /\ is_identity3 (take 9 (vec_to_list m)) = false.
Proof.
  intros f u.
  destruct (Songbird_defaults_run (with_crossProduct deps) ctx l o w Hl Hf Hu)
    as (this & w' & Hrun & Ho & Hin & Hpushed & Hrows).
  rewrite Horder in Ho. simpl in Ho. rewrite Ho in Hin.
  exists this, w', (Listener._tempMatrix4 (Songbird._listener this)).
  split; [exact Hrun|]. split; [now rewrite Ho|].
  split; [exact Hin|]. split; [exact Hpushed|].
  simpl Utils_crossProduct in Hrows. simpl Utils_DEFAULT_FORWARD in Hrows.
  simpl Utils_DEFAULT_UP in Hrows. fold f u in Hrows.
  split; [exact Hrows|].
  rewrite Hrows. apply (rows_never_identity (f 0%nat) (f 1%nat) (f 2%nat)
                          (u 0%nat) (u 1%nat) (u 2%nat)).
Qed.

Lemma Songbird_first_order_defaults_witness :
  exists this w' m,
    Songbird.Songbird (with_crossProduct Sample.deps) 0%nat (Some 1%nat)
      (Sample.options_world Sample.first_order) = Ok this w'
    /\ getNumberOfChannelsFromAmbisonicOrder (Songbird._ambisonicOrder this)
       = of_Z 4
    /\ In (ECreateHOARenderer
             (Listener._renderer (Songbird._listener this)) one
             Listener.foa_urls) (trace w')
    /\ pushed (trace w') =
         pushed (trace (Sample.options_world Sample.first_order)) ++ [m]
    /\ take 9 (vec_to_list m) =
         map fround
           (crossProduct [zero; zero; one] [zero; one; zero]
            ++ [zero; one; zero] ++ [zero; zero; one])
    /\ is_identity3 (take 9 (vec_to_list m)) = false.
Proof.
  apply (Songbird_first_order_defaults Sample.deps 0%nat 1%nat
           Sample.first_order (Sample.options_world Sample.first_order));
    reflexivity.
Defined.

(** C8, the claim as stated fails. Whatever the default forward and up
    vectors, the matrix pushed by the construction of a first-order scene
    is not the identity; with up = (0, 1, 0) and forward = (0, 0, 1) its
    rows are (-1, 0, 0), (0, 1, 0), (0, 0, 1). *)
Lemma Songbird_first_order_not_identity :
  (forall deps, exists this w' m,
     Songbird.Songbird (with_crossProduct deps) 0%nat (Some 1%nat)
       (Sample.options_world Sample.first_order) = Ok this w'
     /\ pushed (trace w') = [m]
     /\ is_identity3 (take 9 (vec_to_list m)) = false)
  /\ exists this w' m,
       Songbird.Songbird Sample.deps 0%nat (Some 1%nat)
         (Sample.options_world Sample.first_order) = Ok this w'
       /\ pushed (trace w') = [m]
       /\ take 9 (vec_to_list m) =
            [of_Z (-1); zero; zero; zero; one; zero; zero; zero; one].
Proof.
  split.
  - intros deps.
    destruct (Songbird_defaults_run (with_crossProduct deps) 0%nat 1%nat
                Sample.first_order (Sample.options_world Sample.first_order)
                eq_refl eq_refl eq_refl)
      as (this & w' & Hrun & _ & _ & Hpushed & Hrows).
    exists this, w', (Listener._tempMatrix4 (Songbird._listener this)).
    split; [exact Hrun|]. split; [exact Hpushed|].
    rewrite Hrows. apply rows_never_identity.
  - do 3 eexists. split; [vm_compute; reflexivity|].
    split; vm_compute; reflexivity.
Qed.

(** ** Numbers a format holds exactly *)

Lemma iter_pos_shr_1_exact (j : positive) :
  forall m : positive,
    SpecFloat.iter_pos shr_1 j
      {| shr_m := Zpos (Pos.iter xO m j); shr_r := false; shr_s := false |}
    = {| shr_m := Zpos m; shr_r := false; shr_s := false |}.
Proof.
  induction j as [j IH|j IH|]; intros m; simpl.
  - now rewrite !IH.
  - now rewrite !IH.
  - reflexivity.
Qed.

Section Canonical.
Variables prec emax : Z.
Hypothesis Hprec : 0 < prec.

Lemma binary_round_aux_canonical_in (s : bool) (m : positive) (e : Z) :
  canonical_mantissa prec emax m e = true -> e <= emax - prec ->
  binary_round_aux prec emax s (Zpos m) e loc_Exact = S754_finite s m e.
Proof.
  unfold canonical_mantissa. intros Hc%Z.eqb_eq Hb.
  unfold binary_round_aux, shr_fexp. cbn [Zdigits2 shr_record_of_loc].
  rewrite Hc, Z.sub_diag. cbn [shr shr_m loc_of_shr_record
                               round_nearest_even Zdigits2].
  rewrite Hc, Z.sub_diag. cbn [shr shr_m shr_record_of_loc].
  now rewrite (proj2 (Z.leb_le _ _) Hb).
Qed.

Lemma binary_round_exact_up (s : bool) (m : positive) (e : Z)
    (j : positive) :
  canonical_mantissa prec emax (Pos.iter xO m j) (e - Zpos j) = true ->
  e - Zpos j <= emax - prec ->
  binary_round prec emax s m e
  = S754_finite s (Pos.iter xO m j) (e - Zpos j).
Proof.
  intros Hc Hb. unfold binary_round, shl_align.
  pose proof Hc as Hc'. unfold canonical_mantissa in Hc'.
  apply Z.eqb_eq in Hc'. rewrite digits2_pos_iter_xO in Hc'.
  replace (Zpos (digits2_pos m) + Zpos j + (e - Zpos j))
    with (Zpos (digits2_pos m) + e) in Hc' by lia.
  rewrite Hc'.
  replace (e - Zpos j - e) with (Zneg j) by lia.
  now apply binary_round_aux_canonical_in.
Qed.

Lemma binary_round_exact_down (s : bool) (m : positive) (e : Z)
    (j : positive) :
  canonical_mantissa prec emax m e = true -> e <= emax - prec ->
  binary_round prec emax s (Pos.iter xO m j) (e - Zpos j)
  = S754_finite s m e.
Proof.
  unfold canonical_mantissa. intros Hc%Z.eqb_eq Hb.
  assert (Hf : fexp prec emax
                 (Zpos (digits2_pos (Pos.iter xO m j)) + (e - Zpos j)) = e).
  { rewrite digits2_pos_iter_xO. rewrite <- Hc at 2. f_equal. lia. }
  unfold binary_round, shl_align. rewrite Hf.
  replace (e - (e - Zpos j)) with (Zpos j) by lia.
  unfold binary_round_aux, shr_fexp. cbn [Zdigits2 shr_record_of_loc].
  rewrite Hf. replace (e - (e - Zpos j)) with (Zpos j) by lia.
  cbn [shr]. rewrite iter_pos_shr_1_exact.
  cbn [shr_m loc_of_shr_record round_nearest_even Zdigits2].
  replace (e - Zpos j + Zpos j) with e by lia.
  rewrite Hc, Z.sub_diag. cbn [shr shr_m shr_record_of_loc].
  now rewrite (proj2 (Z.leb_le _ _) Hb).
Qed.

Lemma binary_round_canonical_out (s : bool) (m : positive) (e : Z) :
  match binary_round prec emax s m e with
  | S754_finite _ m' e' =>
      canonical_mantissa prec emax m' e' = true /\ e' <= emax - prec
  | _ => True
  end.
Proof.
  unfold binary_round.
  pose proof (shl_align_mag m e
                (fexp prec emax (Zpos (digits2_pos m) + e))) as Hmag.
  assert (Hez : snd (shl_align m e
                       (fexp prec emax (Zpos (digits2_pos m) + e)))
                <= fexp prec emax (Zpos (digits2_pos m) + e)).
  { unfold shl_align.
    destruct (fexp prec emax (Zpos (digits2_pos m) + e) - e) eqn:E;
      cbn [snd]; lia. }
  destruct (shl_align m e _) as [mz ez]. cbn [fst snd] in Hmag, Hez.
  unfold mag in Hmag. rewrite <- Hmag in Hez. clear Hmag m e.
  unfold binary_round_aux.
  pose proof (shr_fexp_spec prec emax (Zpos mz) ez loc_Exact ltac:(lia))
    as [H1m H1e].
  pose proof (shr_fexp_mag prec emax Hprec (Zpos mz) ez loc_Exact
                ltac:(lia)) as (H1a & H1b & H1c).
  destruct (shr_fexp prec emax (Zpos mz) ez loc_Exact) as [mrs1 e1].
  cbn [fst snd] in *. cbn [Zdigits2] in *.
  set (M := Zpos (digits2_pos mz) + ez) in *.
  assert (He1 : e1 = fexp prec emax M).
  { rewrite H1e. destruct (0 <? fexp prec emax M - ez) eqn:E.
    - lia.
    - apply Z.ltb_ge in E. lia. }
  set (m1 := shr_m mrs1) in *.
  pose proof (round_nearest_even_bounds m1 (loc_of_shr_record mrs1)) as Hr.
  set (r := round_nearest_even m1 (loc_of_shr_record mrs1)) in *.
  assert (Hge : e1 <= fexp prec emax (Zdigits2 r + e1)).
  { destruct (Z.eq_dec m1 0) as [Hz|Hnz].
    - destruct (H1c Hz) as [_ ->]. unfold fexp. lia.
    - specialize (H1b ltac:(lia)).
      pose proof (Zdigits2_le m1 r H1a ltac:(lia)).
      rewrite He1 at 1. unfold fexp. lia. }
  destruct (Z.eq_dec r 0) as [Hr0|Hr0].
  - destruct (shr_fexp_spec prec emax r e1 loc_Exact ltac:(lia)) as [H2 _].
    destruct (shr_fexp prec emax r e1 loc_Exact) as [mrs2 e2].
    cbn [fst] in H2.
    assert (Hm2 : shr_m mrs2 = 0).
    { rewrite H2, Hr0.
      match goal with |- (if ?c then _ else _) = _ => destruct c end;
        [apply Z.shiftr_0_l|reflexivity]. }
    now rewrite Hm2.
  - pose proof (shr_fexp_spec prec emax r e1 loc_Exact ltac:(lia))
      as [H2m H2e].
    pose proof (shr_fexp_mag prec emax Hprec r e1 loc_Exact ltac:(lia))
      as (H2a & H2b & H2c).
    destruct (shr_fexp prec emax r e1 loc_Exact) as [mrs2 e2].
    cbn [fst snd] in *.
    destruct (shr_m mrs2) as [|p|p] eqn:Em2; try exact I.
    destruct (e2 <=? emax - prec) eqn:Eb; [|exact I].
    apply Z.leb_le in Eb. split; [|exact Eb].
    unfold canonical_mantissa. apply Z.eqb_eq.
    specialize (H2b ltac:(lia)). cbn [Zdigits2] in H2b. rewrite H2b.
    rewrite H2e. destruct (0 <? fexp prec emax (Zdigits2 r + e1) - e1) eqn:E.
    + lia.
    + apply Z.ltb_ge in E. lia.
Qed.
End Canonical.

(** A binary32 number read as a JavaScript number and stored again is the
    same binary32 number. *)
Lemma to_of_binary32 (s : bool) (m : positive) (e : Z) :
  to_binary32 (of_binary32 (binary_round prec32 emax32 s m e))
  = binary_round prec32 emax32 s m e.
Proof.
  pose proof (binary_round_canonical_out prec32 emax32 eq_refl s m e) as Hc.
  destruct (binary_round prec32 emax32 s m e) as [| | |s1 m1 e1];
    try reflexivity.
  destruct Hc as [Hc Hb].
  pose proof Hc as Hc'. unfold canonical_mantissa, fexp in Hc'.
  apply Z.eqb_eq in Hc'.
  change (SpecFloat.emin prec32 emax32) with (-149) in Hc'.
  change prec32 with 24 in Hc'. change (emax32 - prec32) with 104 in Hb.
  set (d := Zpos (digits2_pos m1)) in *.
  assert (Hd : 0 < 53 - d) by lia.
  destruct (53 - d) as [|j|j] eqn:Ej; try lia.
  unfold of_binary32.
  rewrite (binary_round_exact_up prec64 emax64 s1 m1 e1 j).
  - unfold to_binary32.
    now apply (binary_round_exact_down prec32 emax32).
  - unfold canonical_mantissa, fexp. apply Z.eqb_eq.
    rewrite digits2_pos_iter_xO. fold d.
    change (SpecFloat.emin prec64 emax64) with (-1074).
    change prec64 with 53. lia.
  - change (emax64 - prec64) with 971. lia.
Qed.

(** Storing into a [Float32Array] what was read from one changes
    nothing. *)
Lemma fround_idempotent (x : num) : fround (fround x) = fround x.
Proof.
  destruct x as [s|s| |s m e]; try reflexivity.
  unfold fround at 1 3. unfold to_binary32 at 2.
  unfold fround. unfold to_binary32 at 2. now rewrite to_of_binary32.
Qed.

(** ** Scene: the position the room and the listener hold *)

Lemma setListenerFromMatrix_run (elements : list num) (this : Songbird.t)
    (w : world) :
  let e (i : nat) := to_number (elements !! i) in
  let p0 := fround (e 12%nat) in
  let p1 := fround (e 13%nat) in
  let p2 := fround (e 14%nat) in
  exists m : Float32Array.t 16,
    Songbird.setListenerFromMatrix elements this w =
      Ok (Songbird.set_listener
            (Listener.set_position [# p0; p1; p2]
               (Listener.set_tempMatrix4 m (Songbird._listener this))) this)
         (with_trace w
            ([ESetRotationMatrix
                (Listener._renderer (Songbird._listener this)) m;
              EWritePosition 0%fin (e 12%nat);
              EWritePosition 1%fin (e 13%nat);
              EWritePosition 2%fin (e 14%nat);
              EWritePosition 0%fin p0; EWritePosition 1%fin p1;
              EWritePosition 2%fin p2;
              ERoomSetListenerPosition (Songbird._room this) p0 p1 p2]
             ++ map ESourceUpdate (Songbird._sources this)))
    /\ take 9 (vec_to_list m) =
         map fround (map e [0; 1; 2; 4; 5; 6; 8; 9; 10]%nat)
    /\ drop 9 (vec_to_list m) =
         drop 9 (vec_to_list
                   (Listener._tempMatrix4 (Songbird._listener this))).
Proof.
  intros e p0 p1 p2.
  destruct (setFromMatrix_run elements (Songbird._listener this) w)
    as (m & Hrun & Hrows & Hrest).
  exists m. split; [|split; assumption].
  unfold Songbird.setListenerFromMatrix. step_with Hrun.
  rewrite setListenerPosition_run, with_trace_app.
  cbn [Songbird._listener Songbird.set_listener Listener.position
       Listener.set_position Songbird._room Songbird._sources
       Float32Array.get].
  rewrite three_writes. simpl.
  fold e. fold p0 p1 p2. unfold p0, p1, p2.
  rewrite !fround_idempotent. reflexivity.
Qed.

(** X1. After [setListenerFromMatrix(matrix)] the room and the listener
    hold the same position: the three numbers handed to the room are the
    elements of the listener's position array, the binary32 roundings of
    the matrix's elements 12, 13 and 14. *)
Theorem setListenerFromMatrix_room_agrees (elements : list num)
    (this : Songbird.t) (w : world) :
  exists this' x y z pre,
    Songbird.setListenerFromMatrix elements this w =
      Ok this'
         (with_trace w
            (pre ++ ERoomSetListenerPosition (Songbird._room this) x y z
                    :: map ESourceUpdate (Songbird._sources this)))
    /\ Listener.position (Songbird._listener this') = [# x; y; z]
    /\ [x; y; z] =
         map (fun i => fround (to_number (elements !! i))) [12; 13; 14]%nat
    /\ float32_valued (Listener.position (Songbird._listener this')).
Proof.
  destruct (setListenerFromMatrix_run elements this w) as (m & Hrun & _).
  cbv zeta in Hrun.
  eexists _, _, _, _,
    [ESetRotationMatrix _ m; EWritePosition 0%fin _; EWritePosition 1%fin _;
     EWritePosition 2%fin _; EWritePosition 0%fin _; EWritePosition 1%fin _;
     EWritePosition 2%fin _].
  split; [exact Hrun|]. split; [reflexivity|]. split; [reflexivity|].
  repeat constructor; apply fround_idempotent.
Qed.

Lemma vec3_eq (a b c a' b' c' : num) :
  [# a; b; c] = [# a'; b'; c'] <-> a = a' /\ b = b' /\ c = c'.
Proof.
  split.
  - intros H. apply (f_equal vec_to_list) in H. simpl in H.
    now injection H.
  - now intros (-> & -> & ->).
Qed.

(** X2. After [setListenerPosition(x, y, z)] the room has been given x, y
    and z themselves, while the listener keeps their binary32 roundings:
    the two hold the same position exactly when x, y and z are binary32
    numbers. *)
Theorem setListenerPosition_room_agrees_iff (this : Songbird.t)
    (x y z : num) (w : world) :
  exists this' pre,
    Songbird.setListenerPosition x y z this w =
      Ok this'
         (with_trace w
            (pre ++ ERoomSetListenerPosition (Songbird._room this) x y z
                    :: map ESourceUpdate (Songbird._sources this)))
    /\ (Listener.position (Songbird._listener this') = [# x; y; z]
        <-> float32_representable x /\ float32_representable y
            /\ float32_representable z).
Proof.
  eexists _, [EWritePosition 0%fin x; EWritePosition 1%fin y;
              EWritePosition 2%fin z].
  split; [apply setListenerPosition_run|].
  cbn [Songbird._listener Songbird.set_listener Listener.position
       Listener.set_position].
  rewrite three_writes. apply vec3_eq.
Qed.

(** X3. Round trip on the listener's position: [setListenerPosition]
    called with the three numbers read from the listener's position array
    writes the same numbers back, so that the scene's own state is as
    before; the call still tells the room that position and updates every
    source once, in collection order. *)
Theorem setListenerPosition_read_back (this : Songbird.t) (w : world)
    (Hp : float32_valued (Listener.position (Songbird._listener this))) :
  let p := Listener.position (Songbird._listener this) in
  let x := Float32Array.get p 0%fin in
  let y := Float32Array.get p 1%fin in
  let z := Float32Array.get p 2%fin in
  Songbird.setListenerPosition x y z this w
  = Ok this
       (with_trace w
          ([EWritePosition 0%fin x; EWritePosition 1%fin y;
            EWritePosition 2%fin z;
            ERoomSetListenerPosition (Songbird._room this) x y z]
           ++ map ESourceUpdate (Songbird._sources this))).
Proof.
  intros p x y z. rewrite setListenerPosition_run. f_equal.
  destruct this as [o s r l c out aout].
  destruct l as [pos m lc lr li la lo].
  cbn [Songbird._listener Listener.position] in *. subst x y z p.
  unfold Songbird.set_listener, Listener.set_position. simpl.
  rewrite three_writes. revert Hp. inv_vec pos. intros p0 p1 p2 Hp.
  unfold float32_valued in Hp. simpl in Hp.
  apply Forall_cons in Hp as [H0 Hp]. apply Forall_cons in Hp as [H1 Hp].
  apply Forall_cons in Hp as [H2 _].
  unfold Float32Array.get. simpl. now rewrite H0, H1, H2.
Qed.

Lemma setListenerPosition_read_back_witness :
  Songbird.setListenerPosition zero zero zero Sample.scene0
    Sample.scene_world
  = Ok Sample.scene0
       (with_trace Sample.scene_world
          [EWritePosition 0%fin zero; EWritePosition 1%fin zero;
           EWritePosition 2%fin zero;
           ERoomSetListenerPosition 5%nat zero zero zero;
           ESourceUpdate 8%nat; ESourceUpdate 9%nat]).
Proof.
  apply (setListenerPosition_read_back Sample.scene0 Sample.scene_world).
  repeat constructor.
Defined.

(** ** Scene: sequences of calls *)

Lemma same_handles_refl this : same_handles this this.
Proof. repeat split. Qed.

Lemma same_handles_trans a b c :
  same_handles a b -> same_handles b c -> same_handles a c.
Proof.
  unfold same_handles. intros H1 H2.
  destruct H1 as (?&?&?&?&?&?&?&?&?&?), H2 as (?&?&?&?&?&?&?&?&?&?).
  repeat split; congruence.
Qed.

Lemma updated_app tr tr' : updated (tr ++ tr') = updated tr ++ updated tr'.
Proof. apply omap_app. Qed.

Lemma pushed_app tr tr' : pushed (tr ++ tr') = pushed tr ++ pushed tr'.
Proof. apply omap_app. Qed.

Lemma updated_updates (l : list loc) : updated (map ESourceUpdate l) = l.
Proof. induction l as [|s l IH]; simpl; [reflexivity|]. now f_equal. Qed.

Lemma pushed_updates (l : list loc) : pushed (map ESourceUpdate l) = [].
Proof. induction l as [|s l IH]; simpl; [reflexivity|assumption]. Qed.

(** What one call does: the world it leaves, the collection, and the
    events of the call. *)
Lemma do_call_spec deps (c : call) (this : Songbird.t) (w : world) :
  exists this' es,
    do_call deps c this w =
      Ok this' {| heap := heap w ++ replicate (creates c) (CExternal KSource);
                  trace := trace w ++ es; globals := globals w |}
    /\ Songbird._sources this' =
         Songbird._sources this ++ seq (length (heap w)) (creates c)
    /\ same_handles this this'
    /\ matrix_rest this' = matrix_rest this
    /\ updated es = (if moves c then Songbird._sources this else [])
    /\ pushed es =
         (if turns c
          then [Listener._tempMatrix4 (Songbird._listener this')] else [])
    /\ (float32_valued (Listener.position (Songbird._listener this)) ->
        float32_valued (Listener.position (Songbird._listener this'))).
Proof.
  destruct c as [o|d m|x y z|fx fy fz ux uy uz|elements];
    cbn [do_call creates moves turns replicate seq].
  - exists (Songbird.set_sources
              (Songbird._sources this ++ [length (heap w)]) this),
      [ENewSource (length (heap w)) o].
    split; [now step_with (createSource_run o this w)|].
    repeat split; auto.
  - exists this, [ERoomSetProperties (Songbird._room this) d m].
    rewrite (app_nil_r (heap w)), Nat.add_0_r || rewrite (app_nil_r (heap w)).
    split; [reflexivity|]. rewrite !app_nil_r. repeat split; auto.
  - eexists _, _. rewrite (app_nil_r (heap w)).
    split; [rewrite setListenerPosition_run; reflexivity|].
    rewrite !app_nil_r.
    split; [reflexivity|]. split; [repeat split|]. split; [reflexivity|].
    split; [apply (updated_updates (Songbird._sources this))|].
    split; [apply (pushed_updates (Songbird._sources this))|].
    intros _. cbn [Songbird._listener Songbird.set_listener
                   Listener.position Listener.set_position].
    rewrite three_writes. repeat constructor; apply fround_idempotent.
  - destruct (setOrientation_run deps (Songbird._listener this)
                fx fy fz ux uy uz w) as (m & Hrun & _ & Hrest).
    eexists _, _. rewrite (app_nil_r (heap w)). split.
    { unfold Songbird.setListenerOrientation. step_with Hrun. reflexivity. }
    rewrite !app_nil_r. split; [reflexivity|]. split; [repeat split|].
    split; [exact Hrest|]. split; [reflexivity|]. split; [reflexivity|].
    auto.
  - destruct (setListenerFromMatrix_run elements this w)
      as (m & Hrun & _ & Hrest). cbv zeta in Hrun.
    eexists _, _. rewrite (app_nil_r (heap w)).
    split; [rewrite Hrun; reflexivity|].
    rewrite !app_nil_r. split; [reflexivity|]. split; [repeat split|].
    split; [exact Hrest|].
    split; [apply (updated_updates (Songbird._sources this))|].
    split.
    { rewrite pushed_app, pushed_updates. reflexivity. }
    intros _. repeat constructor; apply fround_idempotent.
Qed.

Lemma do_calls_spec deps (cs : list call) :
  forall (this : Songbird.t) (w : world),
  exists this' es,
    do_calls deps cs this w =
      Ok this' {| heap := heap w
                          ++ replicate (creations cs) (CExternal KSource);
                  trace := trace w ++ es; globals := globals w |}
    /\ Songbird._sources this' =
         Songbird._sources this ++ seq (length (heap w)) (creations cs)
    /\ same_handles this this'
    /\ matrix_rest this' = matrix_rest this
    /\ updated es =
         expected_updates cs (Songbird._sources this) (length (heap w))
    /\ Forall (fun m => drop 9 (vec_to_list m) = matrix_rest this)
         (pushed es)
    /\ length (pushed es) = number turns cs
    /\ (float32_valued (Listener.position (Songbird._listener this)) ->
        float32_valued (Listener.position (Songbird._listener this'))).
Proof.
  induction cs as [|c cs IH]; intros this w.
  - exists this, []. cbn [do_calls creations sum_list_with replicate seq
                          expected_updates number].
    rewrite !app_nil_r. split; [now destruct w|].
    repeat split; auto.
  - destruct (do_call_spec deps c this w)
      as (this1 & es1 & Hrun1 & Hs1 & Hh1 & Hm1 & Hu1 & Hp1 & Hf1).
    destruct (IH this1 {| heap := heap w ++ replicate (creates c)
                                              (CExternal KSource);
                          trace := trace w ++ es1; globals := globals w |})
      as (this2 & es2 & Hrun2 & Hs2 & Hh2 & Hm2 & Hu2 & Hp2 & Hn2 & Hf2).
    cbn [heap trace globals] in *.
    rewrite length_app, length_replicate in Hs2, Hu2.
    exists this2, (es1 ++ es2).
    cbn [do_calls creations sum_list_with expected_updates number].
    fold (creations cs). fold (number turns cs).
    split.
    { step_with Hrun1. rewrite Hrun2, replicate_add, !app_assoc.
      reflexivity. }
    split; [rewrite Hs2, Hs1, seq_app, app_assoc; reflexivity|].
    split; [eapply same_handles_trans; eassumption|].
    split; [congruence|].
    split; [rewrite updated_app, Hu1, Hu2, Hs1; reflexivity|].
    rewrite pushed_app, length_app, Hn2.
    split; [|split; [|auto]].
    + apply Forall_app. split.
      * rewrite Hp1. destruct (turns c); constructor; [exact Hm1|constructor].
      * now rewrite <- Hm1.
    + rewrite Hp1. now destruct (turns c).
Qed.

Lemma occurrences_app s l l' :
  occurrences s (l ++ l') = (occurrences s l + occurrences s l')%nat.
Proof. unfold occurrences. now rewrite filter_app, length_app. Qed.

Lemma occurrences_above (s n : nat) (l : list loc) :
  Forall (fun x => (x < n)%nat) l -> (n <= s)%nat -> occurrences s l = 0%nat.
Proof.
  intros Hl Hs. unfold occurrences.
  induction Hl as [|x l Hx Hl IH]; [reflexivity|].
  rewrite filter_cons_False by lia. exact IH.
Qed.

Lemma occurrences_seq_below (s n k : nat) :
  (s < n)%nat -> occurrences s (seq n k) = 0%nat.
Proof.
  intros Hs. unfold occurrences. revert n Hs.
  induction k as [|k IH]; intros n Hs; [reflexivity|]. simpl.
  rewrite filter_cons_False by lia. apply IH. lia.
Qed.

Lemma Forall_lt_seq (n k : nat) : Forall (fun x => (x < n + k)%nat) (seq n k).
Proof. apply Forall_forall. intros x Hx%elem_of_seq. lia. Qed.

Lemma Forall_lt_grow (n k : nat) (l : list loc) :
  Forall (fun x => (x < n)%nat) l ->
  Forall (fun x => (x < n + k)%nat) (l ++ seq n k).
Proof.
  intros Hl. apply Forall_app. split; [|apply Forall_lt_seq].
  eapply Forall_impl; [exact Hl|]. intros x Hx. simpl in Hx. lia.
Qed.

Lemma expected_updates_app (cs1 cs2 : list call) :
  forall (l : list loc) (n : nat),
    expected_updates (cs1 ++ cs2) l n =
      expected_updates cs1 l n
      ++ expected_updates cs2 (l ++ seq n (creations cs1))
           (n + creations cs1).
Proof.
  induction cs1 as [|c cs1 IH]; intros l n.
  - cbn [app expected_updates creations sum_list_with seq].
    now rewrite app_nil_r, Nat.add_0_r.
  - cbn [app expected_updates creations sum_list_with].
    fold (creations cs1). rewrite IH, seq_app, <- !app_assoc.
    now rewrite Nat.add_assoc.
Qed.

Lemma expected_updates_bound (cs : list call) :
  forall (l : list loc) (n : nat),
    Forall (fun x => (x < n)%nat) l ->
    Forall (fun x => (x < n + creations cs)%nat) (expected_updates cs l n).
Proof.
  induction cs as [|c cs IH]; intros l n Hl; [constructor|].
  cbn [expected_updates creations sum_list_with]. fold (creations cs).
  apply Forall_app. split.
  - destruct (moves c); [|constructor].
    eapply Forall_impl; [exact Hl|]. intros x Hx. simpl in Hx. lia.
  - rewrite Nat.add_assoc. apply IH. now apply Forall_lt_grow.
Qed.

Lemma occurrences_expected (s : loc) (cs : list call) :
  forall (l : list loc) (n : nat),
    Forall (fun x => (x < n)%nat) l -> (s < n)%nat ->
    occurrences s (expected_updates cs l n) =
      (occurrences s l * number moves cs)%nat.
Proof.
  induction cs as [|c cs IH]; intros l n Hl Hs.
  - cbn [expected_updates number sum_list_with]. unfold occurrences at 1.
    simpl. lia.
  - cbn [expected_updates number sum_list_with]. fold (number moves cs).
    rewrite occurrences_app, (IH _ (n + creates c)%nat);
      [|now apply Forall_lt_grow|lia].
    rewrite occurrences_app, (occurrences_seq_below s n) by exact Hs.
    destruct (moves c); [lia|]. unfold occurrences at 1. simpl. lia.
Qed.

(** X4. Whatever methods are called on a scene, in whatever order, its
    collection of sources only grows at the end: after the calls it is the
    old collection followed by the sources created, in the order of their
    creation, all distinct and all new; and the scene's room, renderer,
    audio nodes, context and ambisonic order are those it had. *)
Theorem calls_append_sources deps (cs : list call) (this : Songbird.t)
    (w : world) :
  exists this' w' created,
    do_calls deps cs this w = Ok this' w'
    /\ Songbird._sources this' = Songbird._sources this ++ created
    /\ length created = creations cs
    /\ NoDup created
    /\ Forall (fun s => heap w !! s = None
                        /\ heap w' !! s = Some (CExternal KSource)) created
    /\ same_handles this this'.
Proof.
  destruct (do_calls_spec deps cs this w)
    as (this' & es & Hrun & Hs & Hh & _).
  eexists this', _, (seq (length (heap w)) (creations cs)).
  split; [exact Hrun|]. split; [exact Hs|].
  split; [apply length_seq|].
  split; [apply NoDup_seq|]. split; [|exact Hh].
  apply Forall_forall. intros s Hin%elem_of_seq. cbn [heap]. split.
  - apply lookup_ge_None. lia.
  - rewrite lookup_app_r by lia. apply lookup_replicate. split; [reflexivity|].
    lia.
Qed.

(** X6. The renderer is given one matrix per call of
    [setListenerOrientation] or [setListenerFromMatrix] and none by the
    other methods, and no call ever changes the elements 9 to 15 of the
    listener's matrix: every matrix pushed carries there what the matrix
    held before the calls. *)
Theorem calls_push_matrices deps (cs : list call) (this : Songbird.t)
    (w : world) :
  exists this' w' es,
    do_calls deps cs this w = Ok this' w'
    /\ trace w' = trace w ++ es
    /\ length (pushed es) = number turns cs
    /\ Forall (fun m => drop 9 (vec_to_list m) = matrix_rest this)
         (pushed es)
    /\ matrix_rest this' = matrix_rest this.
Proof.
  destruct (do_calls_spec deps cs this w)
    as (this' & es & Hrun & _ & _ & Hm & _ & Hp & Hn & _).
  eexists this', _, es. split; [exact Hrun|]. auto.
Qed.

(** X7. A source of the collection is updated once by every call that sets
    the listener's position ([setListenerPosition],
    [setListenerFromMatrix]) and by no other call: over a sequence of calls
    the number of its updates is the number of such calls (times the number
    of its entries in the collection). *)
Theorem calls_update_sources deps (cs : list call) (this : Songbird.t)
    (w : world) (s : loc)
    (Hsources : Forall (fun x => (x < length (heap w))%nat)
                  (Songbird._sources this))
    (Hs : (s < length (heap w))%nat) :
  exists this' w' es,
    do_calls deps cs this w = Ok this' w'
    /\ trace w' = trace w ++ es
    /\ occurrences s (updated es) =
         (occurrences s (Songbird._sources this) * number moves cs)%nat.
Proof.
  destruct (do_calls_spec deps cs this w)
    as (this' & es & Hrun & _ & _ & _ & Hu & _).
  eexists this', _, es. split; [exact Hrun|]. split; [reflexivity|].
  rewrite Hu. now apply occurrences_expected.
Qed.

Lemma calls_update_sources_witness :
  exists this' w' es,
    do_calls Sample.deps
      [SetListenerPosition one zero zero; CreateSource None;
       SetListenerOrientation zero zero one zero one zero;
       SetListenerFromMatrix Sample.matrix_tenth]
      Sample.scene0 Sample.scene_world = Ok this' w'
    /\ trace w' = trace Sample.scene_world ++ es
    /\ occurrences 8%nat (updated es) = 2%nat.
Proof.
  apply (calls_update_sources Sample.deps
           [SetListenerPosition one zero zero; CreateSource None;
            SetListenerOrientation zero zero one zero one zero;
            SetListenerFromMatrix Sample.matrix_tenth]
           Sample.scene0 Sample.scene_world 8%nat).
  - repeat constructor.
  - simpl. lia.
Defined.

(** X8. A source created in the middle of a sequence of calls is updated
    by the position-setting calls made after its creation, once by each,
    and by nothing else. *)
Theorem created_source_updates deps (cs1 cs2 : list call)
    (options : option loc) (this : Songbird.t) (w : world)
    (Hsources : Forall (fun x => (x < length (heap w))%nat)
                  (Songbird._sources this)) :
  exists this1 w1 this' w' es,
    do_calls deps cs1 this w = Ok this1 w1
    /\ do_calls deps (cs1 ++ CreateSource options :: cs2) this w
       = Ok this' w'
    /\ trace w' = trace w ++ es
    /\ Songbird.createSource options this1 w1
       = Ok (length (heap w1),
             Songbird.set_sources
               (Songbird._sources this1 ++ [length (heap w1)]) this1)
            {| heap := heap w1 ++ [CExternal KSource];
               trace := trace w1 ++ [ENewSource (length (heap w1)) options];
               globals := globals w1 |}
    /\ occurrences (length (heap w1)) (updated es) = number moves cs2.
Proof.
  destruct (do_calls_spec deps cs1 this w) as (this1 & es1 & Hrun1 & _).
  destruct (do_calls_spec deps (cs1 ++ CreateSource options :: cs2) this w)
    as (this' & es & Hrun & _ & _ & _ & Hu & _).
  eexists this1, _, this', _, es. split; [exact Hrun1|].
  split; [exact Hrun|]. split; [reflexivity|].
  split; [apply createSource_run|].
  cbn [heap]. rewrite length_app, length_replicate.
  set (n := length (heap w)) in *. set (k := creations cs1).
  rewrite Hu, expected_updates_app, occurrences_app. fold k.
  rewrite (occurrences_above (n + k) (n + k))
    by (try apply expected_updates_bound; auto).
  cbn [expected_updates moves creates app seq].
  rewrite (occurrences_expected (n + k)%nat cs2 _ (n + k + 1)%nat).
  - rewrite occurrences_app,
      (occurrences_above (n + k) (n + k)) by (try apply Forall_lt_grow; auto).
    unfold occurrences at 1. simpl.
    rewrite filter_cons_True by reflexivity. simpl. lia.
  - apply (Forall_lt_grow (n + k) 1). now apply Forall_lt_grow.
  - lia.
Qed.

Lemma created_source_updates_witness :
  exists this1 w1 this' w' es,
    do_calls Sample.deps [SetListenerPosition one zero zero] Sample.scene0
      Sample.scene_world = Ok this1 w1
    /\ do_calls Sample.deps
         ([SetListenerPosition one zero zero]
          ++ CreateSource None
             :: [SetListenerFromMatrix Sample.matrix_tenth;
                 SetRoomProperties None None;
                 SetListenerPosition zero zero zero])
         Sample.scene0 Sample.scene_world = Ok this' w'
    /\ trace w' = trace Sample.scene_world ++ es
    /\ Songbird.createSource None this1 w1
       = Ok (length (heap w1),
             Songbird.set_sources
               (Songbird._sources this1 ++ [length (heap w1)]) this1)
            {| heap := heap w1 ++ [CExternal KSource];
               trace := trace w1 ++ [ENewSource (length (heap w1)) None];
               globals := globals w1 |}
    /\ occurrences (length (heap w1)) (updated es) = 2%nat.
Proof.
  apply (created_source_updates Sample.deps
           [SetListenerPosition one zero zero]
           [SetListenerFromMatrix Sample.matrix_tenth;
            SetRoomProperties None None;
            SetListenerPosition zero zero zero]
           None Sample.scene0 Sample.scene_world).
  repeat constructor.
Defined.

(** ** Reading a result back *)

Lemma bind_inv {A B} (m : M A) (k : A -> M B) w b w' :
  bind m k w = Ok b w' -> exists a w1, m w = Ok a w1 /\ k a w1 = Ok b w'.
Proof.
  unfold bind. destruct (m w) as [a w1|e w1|]; [eauto|discriminate..].
Qed.

Lemma load_inv l c w w' :
  load l w = Ok c w' -> w' = w /\ heap w !! l = Some c.
Proof.
  unfold load. destruct (heap w !! l); [|discriminate].
  intros [= -> ->]. auto.
Qed.

Lemma Listener_load_options_inv l o w w' :
  Listener.load_options l w = Ok o w' ->
  w' = w /\ heap w !! l = Some (CListenerOptions o).
Proof.
  unfold Listener.load_options. intros (c & w1 & Hload & H)%bind_inv.
  apply load_inv in Hload as [-> Hc].
  destruct c; unfold ret, stuck in H; try discriminate.
  injection H as -> ->. auto.
Qed.

Lemma Songbird_load_options_inv l o w w' :
  Songbird.load_options l w = Ok o w' ->
  w' = w /\ heap w !! l = Some (COptions o).
Proof.
  unfold Songbird.load_options. intros (c & w1 & Hload & H)%bind_inv.
  apply load_inv in Hload as [-> Hc].
  destruct c; unfold ret, stuck in H; try discriminate.
  injection H as -> ->. auto.
Qed.

Lemma read_index_inv l i v w w' : read_index l i w = Ok v w' -> w' = w.
Proof.
  unfold read_index. intros (c & w1 & Hload & H)%bind_inv.
  apply load_inv in Hload as [-> Hc].
  destruct c; unfold ret, stuck in H; try discriminate.
  now injection H as _ ->.
Qed.

(** What the [Listener] constructor has made when it returns: the world
    after the defaults were filled in, followed by the renderer and the
    three gain nodes, and a listener at the origin. *)
Lemma Listener_inv deps (ctx l : loc) (w : world) (this : Listener.t)
    (w' : world) :
  Listener.Listener deps ctx (Some l) w = Ok this w' ->
  exists w1 m,
    Listener.fill_defaults deps l w = Ok tt w1
    /\ heap w' = heap w1 ++ [CExternal KRenderer; CExternal KGainNode;
                             CExternal KGainNode; CExternal KGainNode]
    /\ this = {| Listener.position := Float32Array.make 3;
                 Listener._tempMatrix4 := m;
                 Listener._context := ctx;
                 Listener._renderer := length (heap w1);
                 Listener.input := S (length (heap w1));
                 Listener.ambisonicOutput := S (S (length (heap w1)));
                 Listener.output := S (S (S (length (heap w1)))) |}
    /\ drop 9 (vec_to_list m) = replicate 7 (S754_zero false).
Proof.
  unfold Listener.Listener, Listener.Listener_with. intros H.
  apply bind_inv in H as (l' & w0 & Hret & H).
  unfold ret in Hret. injection Hret as <- <-.
  apply bind_inv in H as ([] & w1 & Hfill & H).
  apply bind_inv in H as (o & w2 & Hload & H).
  apply Listener_load_options_inv in Hload as [-> Ho].
  destruct (l_ambisonicOrder o) as [order|], (l_forward o) as [f|],
    (l_up o) as [u|]; try (unfold stuck in H; discriminate H).
  rewrite (bind_Ok _ _ _ _ _
             (member_ok Listener.scope "Omnitone" tt w1 eq_refl)) in H.
  rewrite (bind_Ok _ _ _ _ _ (createHOARenderer_spec _ _ _)) in H.
  do 3 rewrite (bind_Ok _ _ _ _ _ (createGain_spec _)) in H.
  rewrite (bind_Ok _ _ _ _ _
             (emit_spec _ _ : Omnitone.initialize _ _ = _)) in H.
  do 6 (apply bind_inv in H as (? & ? & Hr & H);
        apply read_index_inv in Hr as ->).
  match type of H with
  | Listener.setOrientation ?d ?a ?b ?c ?e ?f ?g ?t ?w0 = _ =>
      destruct (setOrientation_run d t a b c e f g w0)
        as (m & Hrun & _ & Hrest)
  end.
  rewrite Hrun in H. injection H as <- <-.
  exists w1, m. split; [exact Hfill|].
  cbn [heap with_trace]. rewrite <- !app_assoc. split; [reflexivity|].
  split; [|exact Hrest].
  unfold Listener.set_tempMatrix4.
  cbn [heap Listener.position Listener._context Listener._renderer
       Listener.input Listener.ambisonicOutput Listener.output].
  rewrite !length_app. cbn [length]. f_equal; lia.
Qed.

Lemma Listener_fill_present deps (l : loc) (o : ListenerOptions) (w : world)
    (order : num) (p f u : loc) :
  heap w !! l = Some (CListenerOptions o) ->
  l_ambisonicOrder o = Some order -> l_position o = Some p ->
  l_forward o = Some f -> l_up o = Some u ->
  Listener.fill_defaults deps l w = Ok tt w.
Proof.
  intros Hl Ho Hp Hf Hu. unfold Listener.fill_defaults.
  rewrite (bind_Ok _ _ _ _ _
             (default_field_present _ _ _ _ _ _ _ _ _
                (Listener_load_options_ok _ _ _ Hl) Ho)).
  rewrite (bind_Ok _ _ _ _ _
             (default_field_present _ _ _ _ _ _ _ _ _
                (Listener_load_options_ok _ _ _ Hl) Hp)).
  rewrite (bind_Ok _ _ _ _ _
             (default_field_present _ _ _ _ _ _ _ _ _
                (Listener_load_options_ok _ _ _ Hl) Hf)).
  exact (default_field_present _ _ _ _ _ _ _ _ _
           (Listener_load_options_ok _ _ _ Hl) Hu).
Qed.

(** What the [Songbird] constructor has made when it returns: the world
    after the defaults were filled in, followed by the room, the option
    object of the listener, the renderer and five gain nodes. *)
Lemma Songbird_inv deps (ctx l : loc) (w : world) (this : Songbird.t)
    (w' : world) :
  Songbird.Songbird deps ctx (Some l) w = Ok this w' ->
  exists wf order lp lf lu m,
    Songbird.fill_defaults deps l w = Ok tt wf
    /\ heap w' =
         heap wf ++ [CExternal KRoom;
                     CListenerOptions
                       {| l_ambisonicOrder := Some order;
                          l_position := Some lp; l_forward := Some lf;
                          l_up := Some lu |};
                     CExternal KRenderer; CExternal KGainNode;
                     CExternal KGainNode; CExternal KGainNode;
                     CExternal KGainNode; CExternal KGainNode]
    /\ let n := length (heap wf) in
       this =
       {| Songbird._ambisonicOrder := order; Songbird._sources := [];
          Songbird._room := n;
          Songbird._listener :=
            {| Listener.position := Float32Array.make 3;
               Listener._tempMatrix4 := m;
               Listener._context := ctx;
               Listener._renderer := S (S n);
               Listener.input := S (S (S n));
               Listener.ambisonicOutput := S (S (S (S n)));
               Listener.output := S (S (S (S (S n)))) |};
          Songbird._context := ctx;
          Songbird.output := S (S (S (S (S (S n)))));
          Songbird.ambisonicOutput := S (S (S (S (S (S (S n)))))) |}
    /\ drop 9 (vec_to_list m) = replicate 7 (S754_zero false).
Proof.
  unfold Songbird.Songbird. intros H.
  apply bind_inv in H as (l' & w0 & Hret & H).
  unfold ret in Hret. injection Hret as <- <-.
  apply bind_inv in H as ([] & wf & Hfill & H).
  apply bind_inv in H as (o & w2 & Hload & H).
  apply Songbird_load_options_inv in Hload as [-> Ho].
  destruct (ambisonicOrder o) as [order|], (listenerPosition o) as [lp|],
    (listenerForward o) as [lf|], (listenerUp o) as [lu|],
    (dimensions o) as [ld|], (materials o) as [lm|],
    (speedOfSound o) as [speed|]; try (unfold stuck in H; discriminate H).
  rewrite (bind_Ok _ _ _ _ _
             (member_ok Songbird.scope "Room" tt wf eq_refl)) in H.
  rewrite (bind_Ok _ _ _ _ _
             (eq_refl : Room.Room lp ld lm speed wf
                        = Ok (length (heap wf)) _)) in H.
  rewrite (bind_Ok _ _ _ _ _
             (member_ok Songbird.scope "Listener" tt _ eq_refl)) in H.
  rewrite (bind_Ok _ _ _ _ _ (alloc_spec _ _)) in H.
  apply bind_inv in H as (listener & w4 & Hlistener & H).
  apply Listener_inv in Hlistener as (w1 & m & Hfill1 & Hheap & -> & Hm).
  match type of Hfill1 with
  | Listener.fill_defaults _ ?l0 ?w0 = _ =>
      rewrite (Listener_fill_present deps l0
                 {| l_ambisonicOrder := Some order; l_position := Some lp;
                    l_forward := Some lf; l_up := Some lu |}
                 w0 order lp lf lu) in Hfill1;
        try reflexivity;
        [|cbn [heap]; rewrite lookup_app_r by lia; now rewrite Nat.sub_diag]
  end.
  injection Hfill1 as <-.
  do 2 rewrite (bind_Ok _ _ _ _ _ (createGain_spec _)) in H.
  do 3 rewrite (bind_Ok _ _ _ _ _
                  (emit_spec _ _ : AudioContext.connect _ _ _ = _)) in H.
  unfold ret in H. injection H as <- <-.
  exists wf, order, lp, lf, lu, m. split; [exact Hfill|].
  cbn [heap with_trace] in *. rewrite Hheap, <- !app_assoc.
  split; [reflexivity|]. split; [|exact Hm]. cbv zeta.
  cbn [app]. rewrite !length_app. cbn [length app].
  f_equal; [f_equal; lia|lia|lia].
Qed.

(** ** Scene: what the constructor builds *)

Lemma filled_ref_given h h' p new c :
  filled_ref h h' (Some p) new c -> new = Some p.
Proof. intros H. exact H. Qed.

(** X9. Up to the construction of the room the [Songbird] constructor
    has made no call outside the file and has changed no object of the
    caller other than the option object itself; and it hands the room the
    caller's own position array, dimensions object and materials object,
    by reference, and the caller's speed of sound: [songbird.js] neither
    copies them nor merges the defaults into them. What [room.js] then
    does with them is not part of the statement. *)
Theorem Songbird_keeps_caller_objects deps (ctx l : loc)
    (o : SongbirdOptions) (w : world) (fs us : list num)
    (Hl : heap w !! l = Some (COptions o))
    (Hf : field_array (heap w) (listenerForward o)
            (Utils_DEFAULT_FORWARD deps) = Some fs)
    (Hu : field_array (heap w) (listenerUp o) (Utils_DEFAULT_UP deps)
          = Some us) :
  exists this w' wf lp ld lm speed es,
    Songbird.Songbird deps ctx (Some l) w = Ok this w'
    /\ Songbird.fill_defaults deps l w = Ok tt wf
    /\ trace wf = trace w
    /\ heap_grows l (heap w) (heap wf)
    /\ trace w' =
         trace w ++ ENewRoom (Songbird._room this) lp ld lm speed :: es
    /\ (forall p, listenerPosition o = Some p -> lp = p)
    /\ (forall d, dimensions o = Some d -> ld = d)
    /\ (forall m, materials o = Some m -> lm = m)
    /\ (forall v, speedOfSound o = Some v -> speed = v).
Proof.
  destruct (Songbird_run deps ctx l o w fs us Hl Hf Hu)
    as (this & w' & wf & o' & Hrun & Hfill & Hg & _ & _ & _ & _ & Hp & _ & _
        & Hd & Hm & Hs & _ & _ & _ & lp & ld & lm & speed & Elp & Eld & Elm
        & Es & Htrace).
  exists this, w', wf, lp, ld, lm, speed. eexists.
  split; [exact Hrun|]. split; [exact Hfill|].
  destruct Hg as (Htr & _ & Hgrows).
  split; [exact Htr|]. split; [exact Hgrows|].
  split; [cbv zeta in Htrace; exact Htrace|].
  split.
  { intros p E. rewrite E in Hp. apply filled_ref_given in Hp. congruence. }
  split.
  { intros d E. rewrite E in Hd. apply filled_ref_given in Hd. congruence. }
  split.
  { intros m E. rewrite E in Hm. apply filled_ref_given in Hm. congruence. }
  intros v E. rewrite E in Hs. simpl in Hs. congruence.
Qed.

Lemma Songbird_keeps_caller_objects_witness :
  exists this w' wf es,
    Songbird.Songbird Sample.deps 0%nat (Some 1%nat) Sample.furnished_world
      = Ok this w'
    /\ Songbird.fill_defaults Sample.deps 1%nat Sample.furnished_world
       = Ok tt wf
    /\ heap_grows 1%nat (heap Sample.furnished_world) (heap wf)
    /\ trace w' =
         ENewRoom (Songbird._room this) 2%nat 3%nat 4%nat (of_Z 340) :: es.
Proof.
  destruct (Songbird_keeps_caller_objects Sample.deps 0%nat 1%nat
              Sample.furnished_options Sample.furnished_world
              [zero; zero; one] [zero; one; zero]
              eq_refl eq_refl eq_refl)
    as (this & w' & wf & lp & ld & lm & speed & es & Hrun & Hfill & _
        & Hgrows & Htrace & Hp & Hd & Hm & Hs).
  exists this, w', wf, es. split; [exact Hrun|]. split; [exact Hfill|].
  split; [exact Hgrows|].
  rewrite (Hp 2%nat eq_refl), (Hd 3%nat eq_refl), (Hm 4%nat eq_refl),
    (Hs (of_Z 340) eq_refl) in Htrace.
  exact Htrace.
Defined.

(** X10. The listener of a new scene is at the origin whatever
    [options.listenerPosition] is: the constructor hands the position to
    the room only, and the listener's position array keeps the zeros it
    was created with. *)
Theorem Songbird_listener_at_origin deps (ctx l : loc)
    (o : SongbirdOptions) (w : world) (fs us : list num)
    (Hl : heap w !! l = Some (COptions o))
    (Hf : field_array (heap w) (listenerForward o)
            (Utils_DEFAULT_FORWARD deps) = Some fs)
    (Hu : field_array (heap w) (listenerUp o) (Utils_DEFAULT_UP deps)
          = Some us) :
  exists this w' lp ld lm speed,
    Songbird.Songbird deps ctx (Some l) w = Ok this w'
    /\ Listener.position (Songbird._listener this) = Float32Array.make 3
    /\ In (ENewRoom (Songbird._room this) lp ld lm speed) (trace w')
    /\ (forall p xs, listenerPosition o = Some p ->
                     heap w !! p = Some (CArray xs) ->
                     lp = p /\ heap w' !! p = Some (CArray xs)).
Proof.
  destruct (Songbird_run deps ctx l o w fs us Hl Hf Hu)
    as (this & w' & wf & o' & Hrun & _ & Hg & Hext & _ & _ & _ & Hp & _ & _
        & _ & _ & _ & _ & _ & _ & lp & ld & lm & speed & Elp & _ & _ & _
        & Htrace).
  exists this, w', lp, ld, lm, speed. split; [exact Hrun|].
  split.
  { destruct (Songbird_inv deps ctx l w this w' Hrun)
      as (wf' & order & lp' & lf & lu & m & _ & _ & -> & _). reflexivity. }
  split.
  { cbv zeta in Htrace. rewrite Htrace. apply in_or_app. right. now left. }
  intros p xs E Hxs. rewrite E in Hp. apply filled_ref_given in Hp.
  split; [congruence|].
  apply Hext. eapply grows_except_lookup; [exact Hg| |exact Hxs].
  intros ->. congruence.
Qed.

Lemma Songbird_listener_at_origin_witness :
  exists this w' lp ld lm speed,
    Songbird.Songbird Sample.deps 0%nat (Some 1%nat) Sample.positioned_world
      = Ok this w'
    /\ Listener.position (Songbird._listener this) = Float32Array.make 3
    /\ In (ENewRoom (Songbird._room this) lp ld lm speed) (trace w')
    /\ (forall p xs, Some 2%nat = Some p ->
                     heap Sample.positioned_world !! p = Some (CArray xs) ->
                     lp = p /\ heap w' !! p = Some (CArray xs)).
Proof.
  apply (Songbird_listener_at_origin Sample.deps 0%nat 1%nat
           (Songbird.set_listenerPosition 2%nat Songbird.empty_options)
           Sample.positioned_world [zero; zero; one] [zero; one; zero]);
    reflexivity.
Defined.

(** X11. The audio graph of a new scene: the constructor makes exactly
    three connections, from the room's output to the listener's input,
    from the listener's output to the scene's output and from the
    listener's ambisonic output to the scene's ambisonic output; the five
    gain nodes are new and pairwise distinct, and so are the room and the
    renderer. *)
Theorem Songbird_wiring deps (ctx l : loc) (o : SongbirdOptions) (w : world)
    (fs us : list num)
    (Hl : heap w !! l = Some (COptions o))
    (Hf : field_array (heap w) (listenerForward o)
            (Utils_DEFAULT_FORWARD deps) = Some fs)
    (Hu : field_array (heap w) (listenerUp o) (Utils_DEFAULT_UP deps)
          = Some us) :
  exists this w' es,
    Songbird.Songbird deps ctx (Some l) w = Ok this w'
    /\ trace w' = trace w ++ es
    /\ (let L := Songbird._listener this in
        connections es =
          [(RoomOutput (Songbird._room this), Node (Listener.input L));
           (Node (Listener.output L), Node (Songbird.output this));
           (Node (Listener.ambisonicOutput L),
            Node (Songbird.ambisonicOutput this))]
        /\ NoDup [Songbird._room this; Listener._renderer L;
                  Listener.input L; Listener.ambisonicOutput L;
                  Listener.output L; Songbird.output this;
                  Songbird.ambisonicOutput this]
        /\ Forall (fun n => heap w !! n = None
                            /\ heap w' !! n = Some (CExternal KGainNode))
             [Listener.input L; Listener.ambisonicOutput L;
              Listener.output L; Songbird.output this;
              Songbird.ambisonicOutput this]
        /\ heap w !! Songbird._room this = None
        /\ heap w' !! Songbird._room this = Some (CExternal KRoom)
        /\ heap w !! Listener._renderer L = None
        /\ heap w' !! Listener._renderer L = Some (CExternal KRenderer)).
Proof.
  destruct (Songbird_run deps ctx l o w fs us Hl Hf Hu)
    as (this & w' & wf & o' & Hrun & Hfill & Hg & _ & _ & _ & _ & _ & _ & _
        & _ & _ & _ & _ & _ & _ & lp & ld & lm & speed & _ & _ & _ & _
        & Htrace).
  destruct (Songbird_inv deps ctx l w this w' Hrun)
    as (wf' & order & lp' & lf & lu & m & Hfill' & Hheap & Hthis & _).
  rewrite Hfill in Hfill'. injection Hfill' as <-.
  pose proof (grows_except_length _ _ _ Hg) as Hlen.
  cbv zeta in Htrace, Hthis. subst this.
  cbn [Songbird._listener Songbird._room Songbird._ambisonicOrder
       Songbird.output Songbird.ambisonicOutput Listener._renderer
       Listener.input Listener.ambisonicOutput Listener.output
       Listener._tempMatrix4] in *.
  eexists _, w', _. split; [exact Hrun|]. split; [exact Htrace|].
  cbv zeta.
  cbn [Songbird._listener Songbird._room Songbird._ambisonicOrder
       Songbird.output Songbird.ambisonicOutput Listener._renderer
       Listener.input Listener.ambisonicOutput Listener.output
       Listener._tempMatrix4].
  set (n := length (heap wf)) in *.
  assert (Hnew : forall k c,
             [CExternal KRoom;
              CListenerOptions
                {| l_ambisonicOrder := Some order; l_position := Some lp';
                   l_forward := Some lf; l_up := Some lu |};
              CExternal KRenderer; CExternal KGainNode; CExternal KGainNode;
              CExternal KGainNode; CExternal KGainNode; CExternal KGainNode]
             !! k = Some c ->
             forall x, x = (n + k)%nat ->
             heap w !! x = None /\ heap w' !! x = Some c).
  { intros k c Hk x ->. split; [apply lookup_ge_None; lia|].
    rewrite Hheap, lookup_app_r by (unfold n; lia).
    now replace (n + k - length (heap wf))%nat with k by (unfold n; lia). }
  split; [reflexivity|].
  split.
  { change (NoDup (n :: seq (S (S n)) 6)). constructor; [|apply NoDup_seq].
    intros Hin%elem_of_seq. lia. }
  split.
  { constructor; [apply (Hnew 3%nat _ eq_refl); lia|].
    constructor; [apply (Hnew 4%nat _ eq_refl); lia|].
    constructor; [apply (Hnew 5%nat _ eq_refl); lia|].
    constructor; [apply (Hnew 6%nat _ eq_refl); lia|].
    constructor; [apply (Hnew 7%nat _ eq_refl); lia|].
    constructor. }
  split; [apply (Hnew 0%nat _ eq_refl); lia|].
  split; [apply (Hnew 0%nat _ eq_refl); lia|].
  split; apply (Hnew 2%nat _ eq_refl); lia.
Qed.

Lemma Songbird_wiring_witness :
  exists this w' es,
    Songbird.Songbird Sample.deps 0%nat (Some 1%nat)
      (Sample.options_world Sample.first_order) = Ok this w'
    /\ trace w' = [] ++ es
    /\ length (connections es) = 3%nat.
Proof.
  destruct (Songbird_wiring Sample.deps 0%nat 1%nat Sample.first_order
              (Sample.options_world Sample.first_order)
              [zero; zero; one] [zero; one; zero]
              eq_refl eq_refl eq_refl)
    as (this & w' & es & Hrun & Htrace & Hc & _).
  exists this, w', es. split; [exact Hrun|]. split; [exact Htrace|].
  now rewrite Hc.
Defined.

(** X12. [new Songbird(context)] without options returns a scene built
    from the defaults alone: the default ambisonic order and its HRIR set,
    and a room given the default speed of sound and new copies of the
    default position, dimensions and materials; no object of the caller is
    changed. *)
Theorem Songbird_without_options deps (ctx : loc) (w : world) :
  exists this w' lp ld lm,
    Songbird.Songbird deps ctx None w = Ok this w'
    /\ Songbird._ambisonicOrder this = Encoder_DEFAULT_AMBISONIC_ORDER deps
    /\ Songbird._sources this = []
    /\ In (ENewRoom (Songbird._room this) lp ld lm
             (Utils_DEFAULT_SPEED_OF_SOUND deps)) (trace w')
    /\ In (ECreateHOARenderer
             (Listener._renderer (Songbird._listener this))
             (Encoder_DEFAULT_AMBISONIC_ORDER deps)
             (Listener.select_urls (Encoder_DEFAULT_AMBISONIC_ORDER deps)))
          (trace w')
    /\ heap w' !! lp = Some (CArray (Utils_DEFAULT_POSITION deps))
    /\ heap w' !! ld =
         Some (CDimensions (EarlyReflections_DEFAULT_DIMENSIONS deps))
    /\ heap w' !! lm = Some (CMaterials (Room_DEFAULT_MATERIALS deps))
    /\ Forall (fun p => heap w !! p = None) [lp; ld; lm]
    /\ heap_extends (heap w) (heap w').
Proof.
  set (w0 := {| heap := heap w ++ [COptions Songbird.empty_options];
                trace := trace w; globals := globals w |}).
  assert (Hl : heap w0 !! length (heap w)
               = Some (COptions Songbird.empty_options)).
  { unfold w0. cbn [heap]. rewrite lookup_app_r by lia.
    now rewrite Nat.sub_diag. }
  destruct (Songbird_run deps ctx (length (heap w)) Songbird.empty_options
              w0 (Utils_DEFAULT_FORWARD deps) (Utils_DEFAULT_UP deps)
              Hl eq_refl eq_refl)
    as (this & w' & wf & o' & Hrun & _ & Hg & Hext & _ & _ & Ho & Hp & _ & _
        & Hd & Hm & Hs & Hsrc & Horder & _ & lp & ld & lm & speed & Elp
        & Eld & Elm & Es & Htrace).
  cbn [Songbird.empty_options ambisonicOrder listenerPosition dimensions
       materials speedOfSound filled_ref default] in Ho, Hp, Hd, Hm, Hs.
  destruct Hp as (p & Ep & Hp0 & Hp).
  destruct Hd as (d & Ed & Hd0 & Hd).
  destruct Hm as (m & Em & Hm0 & Hm).
  rewrite Ep in Elp. injection Elp as ->.
  rewrite Ed in Eld. injection Eld as ->.
  rewrite Em in Elm. injection Elm as ->.
  rewrite Hs in Es. injection Es as <-.
  rewrite Ho in Horder. injection Horder as Horder.
  cbv zeta in Htrace. change (trace w0) with (trace w) in Htrace.
  assert (Hold : forall k, heap w0 !! k = None -> heap w !! k = None).
  { intros k Hk%lookup_ge_None. apply lookup_ge_None. unfold w0 in Hk.
    cbn [heap] in Hk. rewrite length_app in Hk. lia. }
  exists this, w', lp, ld, lm. split; [exact Hrun|].
  split; [exact Horder|]. split; [exact Hsrc|].
  split; [rewrite Htrace; apply in_or_app; right; now left|].
  split.
  { rewrite Htrace, <- Horder. apply in_or_app. right. right. now left. }
  split; [now apply Hext|]. split; [now apply Hext|].
  split; [now apply Hext|].
  split; [repeat constructor; now apply Hold|].
  intros k c Hk. apply Hext.
  eapply grows_except_lookup; [exact Hg| |].
  - apply lookup_lt_Some in Hk. lia.
  - unfold w0. cbn [heap]. now apply lookup_app_l_Some.
Qed.

(** X13. [setListenerFromMatrix] does not check the matrix: with fewer
    than 13 elements (a 3x3 matrix, say) the missing elements read as
    [undefined], the listener's position becomes (NaN, NaN, NaN), the room
    is given NaN three times and every source is still updated. *)
Theorem setListenerFromMatrix_short (elements : list num)
    (this : Songbird.t) (w : world)
    (Hshort : (length elements <= 12)%nat) :
  exists this' pre,
    Songbird.setListenerFromMatrix elements this w =
      Ok this'
         (with_trace w
            (pre ++ ERoomSetListenerPosition (Songbird._room this)
                      NaN NaN NaN
                    :: map ESourceUpdate (Songbird._sources this)))
    /\ Listener.position (Songbird._listener this') = [# NaN; NaN; NaN].
Proof.
  destruct (setListenerFromMatrix_run elements this w) as (m & Hrun & _).
  cbv zeta in Hrun.
  rewrite !(lookup_ge_None_2 elements) in Hrun by lia.
  eexists _,
    [ESetRotationMatrix _ m; EWritePosition 0%fin _; EWritePosition 1%fin _;
     EWritePosition 2%fin _; EWritePosition 0%fin _; EWritePosition 1%fin _;
     EWritePosition 2%fin _].
  split; [exact Hrun|]. reflexivity.
Qed.

Lemma setListenerFromMatrix_short_witness :
  exists this' pre,
    Songbird.setListenerFromMatrix
      [one; zero; zero; zero; one; zero; zero; zero; one]
      Sample.scene0 Sample.scene_world =
      Ok this'
         (with_trace Sample.scene_world
            (pre ++ ERoomSetListenerPosition 5%nat NaN NaN NaN
                    :: map ESourceUpdate [8; 9]%nat))
    /\ Listener.position (Songbird._listener this') = [# NaN; NaN; NaN].
Proof.
  apply (setListenerFromMatrix_short
           [one; zero; zero; zero; one; zero; zero; zero; one]
           Sample.scene0 Sample.scene_world).
  simpl. lia.
Defined.

(** ** Scene: how the listener's setters compose *)

Lemma rows_determine (m m' : Float32Array.t 16) :
  take 9 (vec_to_list m) = take 9 (vec_to_list m') ->
  drop 9 (vec_to_list m) = drop 9 (vec_to_list m') -> m = m'.
Proof.
  intros Ht Hd. apply vec_to_list_inj2.
  now rewrite <- (take_drop 9 (vec_to_list m)), Ht, Hd, take_drop.
Qed.

(** X14. For a matrix whose first column is the cross product (as
    [Utils.crossProduct] computes it) of its third and second columns,
    [setListenerFromMatrix(matrix)] leaves the scene's own state (the
    listener's position and matrix, the collection, the handles) as
    [setListenerOrientation(third column, second column)] followed by
    [setListenerPosition(elements 12, 13, 14)] does, pushes the same
    matrix and updates the same sources. The two differ in what the room
    is told: the binary32 roundings of the elements 12 to 14 by
    [setListenerFromMatrix], the elements themselves by
    [setListenerPosition]. *)
Theorem setListenerFromMatrix_as_two_calls deps (elements : list num)
    (this : Songbird.t) (w : world)
    (Hright : map (fun i => to_number
                     (Utils_crossProduct deps (matrix_column elements 2)
                        (matrix_column elements 1) !! i)) [0; 1; 2]%nat
              = matrix_column elements 0) :
  let e (i : nat) := to_number (elements !! i) in
  let renderer := Listener._renderer (Songbird._listener this) in
  let room := Songbird._room this in
  exists this1 w1 this2 m,
    Songbird.setListenerOrientation deps (e 8%nat) (e 9%nat) (e 10%nat)
      (e 4%nat) (e 5%nat) (e 6%nat) this w = Ok this1 w1
    /\ Songbird.setListenerPosition (e 12%nat) (e 13%nat) (e 14%nat)
         this1 w1 =
       Ok this2
          (with_trace w
             ([ESetRotationMatrix renderer m;
               EWritePosition 0%fin (e 12%nat);
               EWritePosition 1%fin (e 13%nat);
               EWritePosition 2%fin (e 14%nat);
               ERoomSetListenerPosition room
                 (e 12%nat) (e 13%nat) (e 14%nat)]
              ++ map ESourceUpdate (Songbird._sources this)))
    /\ Songbird.setListenerFromMatrix elements this w =
       Ok this2
          (with_trace w
             ([ESetRotationMatrix renderer m;
               EWritePosition 0%fin (e 12%nat);
               EWritePosition 1%fin (e 13%nat);
               EWritePosition 2%fin (e 14%nat);
               EWritePosition 0%fin (fround (e 12%nat));
               EWritePosition 1%fin (fround (e 13%nat));
               EWritePosition 2%fin (fround (e 14%nat));
               ERoomSetListenerPosition room (fround (e 12%nat))
                 (fround (e 13%nat)) (fround (e 14%nat))]
              ++ map ESourceUpdate (Songbird._sources this))).
Proof.
  intros e renderer room.
  destruct (setOrientation_run deps (Songbird._listener this)
              (e 8%nat) (e 9%nat) (e 10%nat) (e 4%nat) (e 5%nat) (e 6%nat) w)
    as (m1 & Hrun1 & Hrows1 & Hrest1).
  destruct (setListenerFromMatrix_run elements this w)
    as (m & Hrun & Hrows & Hrest).
  cbv zeta in Hrun. fold e in Hrun, Hrows.
  assert (Hm : m = m1).
  { apply rows_determine; [|congruence].
    rewrite Hrows, Hrows1.
    change [e 8%nat; e 9%nat; e 10%nat] with (matrix_column elements 2).
    change [e 4%nat; e 5%nat; e 6%nat] with (matrix_column elements 1).
    rewrite Hright. reflexivity. }
  subst m1.
  eexists _, _, _, m. split.
  { unfold Songbird.setListenerOrientation. step_with Hrun1. reflexivity. }
  split.
  { rewrite setListenerPosition_run, with_trace_app.
    cbn [Songbird._listener Songbird.set_listener Songbird._room
         Songbird._sources Listener.position Listener.set_position
         Listener.set_tempMatrix4 Listener._tempMatrix4].
    rewrite three_writes. reflexivity. }
  exact Hrun.
Qed.

Lemma setListenerFromMatrix_as_two_calls_witness :
  exists this1 w1 this2 m,
    Songbird.setListenerOrientation Sample.deps zero zero one zero one zero
      Sample.scene0 Sample.scene_world = Ok this1 w1
    /\ Songbird.setListenerPosition Sample.tenth zero zero this1 w1 =
       Ok this2
          (with_trace Sample.scene_world
             [ESetRotationMatrix 1%nat m;
              EWritePosition 0%fin Sample.tenth; EWritePosition 1%fin zero;
              EWritePosition 2%fin zero;
              ERoomSetListenerPosition 5%nat Sample.tenth zero zero;
              ESourceUpdate 8%nat; ESourceUpdate 9%nat])
    /\ Songbird.setListenerFromMatrix
         [of_Z (-1); zero; zero; zero; zero; one; zero; zero;
          zero; zero; one; zero; Sample.tenth; zero; zero; one]
         Sample.scene0 Sample.scene_world =
       Ok this2
          (with_trace Sample.scene_world
             [ESetRotationMatrix 1%nat m;
              EWritePosition 0%fin Sample.tenth; EWritePosition 1%fin zero;
              EWritePosition 2%fin zero;
              EWritePosition 0%fin (fround Sample.tenth);
              EWritePosition 1%fin zero; EWritePosition 2%fin zero;
              ERoomSetListenerPosition 5%nat (fround Sample.tenth)
                zero zero;
              ESourceUpdate 8%nat; ESourceUpdate 9%nat]).
Proof.
  apply (setListenerFromMatrix_as_two_calls Sample.deps
           [of_Z (-1); zero; zero; zero; zero; one; zero; zero;
            zero; zero; one; zero; Sample.tenth; zero; zero; one]
           Sample.scene0 Sample.scene_world).
  vm_compute. reflexivity.
Defined.

Lemma do_calls_app deps (cs1 cs2 : list call) :
  forall (this : Songbird.t) (w : world),
    do_calls deps (cs1 ++ cs2) this w =
      bind (do_calls deps cs1 this) (do_calls deps cs2) w.
Proof.
  induction cs1 as [|c cs1 IH]; intros this w; [reflexivity|].
  cbn [app do_calls]. unfold bind at 1 2.
  destruct (do_call deps c this w) as [this1 w1|e w1|] eqn:E.
  - rewrite IH. unfold bind. now rewrite E.
  - unfold bind. now rewrite E.
  - unfold bind. now rewrite E.
Qed.

(** X15. The listener's position and its orientation are set
    independently of each other: [setListenerOrientation] and
    [setListenerPosition] leave the same scene in either order. *)
Theorem listener_setters_commute deps (this : Songbird.t) (w : world)
    (fx fy fz ux uy uz x y z : num) :
  exists this',
    state_after deps
      [SetListenerOrientation fx fy fz ux uy uz; SetListenerPosition x y z]
      this w = Some this'
    /\ state_after deps
         [SetListenerPosition x y z; SetListenerOrientation fx fy fz ux uy uz]
         this w = Some this'
    /\ Listener.position (Songbird._listener this') =
         [# fround x; fround y; fround z].
Proof.
  destruct (setOrientation_run deps (Songbird._listener this)
              fx fy fz ux uy uz w) as (m & Hrun & Hrows & Hrest).
  assert (Ho : forall p this0 w0,
             Songbird._listener this0
             = Listener.set_position p (Songbird._listener this) ->
             Songbird.setListenerOrientation deps fx fy fz ux uy uz this0 w0
             = Ok (Songbird.set_listener
                     (Listener.set_tempMatrix4 m (Songbird._listener this0))
                     this0)
                  (with_trace w0 [ESetRotationMatrix
                     (Listener._renderer (Songbird._listener this0)) m])).
  { intros p this0 w0 E. unfold Songbird.setListenerOrientation.
    destruct (setOrientation_run deps (Songbird._listener this0)
                fx fy fz ux uy uz w0) as (m' & Hrun' & Hrows' & Hrest').
    step_with Hrun'. unfold ret.
    assert (Hm : m' = m).
    { apply rows_determine; [congruence|]. rewrite Hrest', Hrest, E.
      reflexivity. }
    now subst m'. }
  eexists. split.
  { unfold state_after. cbn [do_calls do_call].
    step_with (Ho (Listener.position (Songbird._listener this)) this w
                 ltac:(now destruct this as [? ? ? [] ? ? ?])).
    step_with (setListenerPosition_run _ _ _ _ _). reflexivity. }
  split.
  { unfold state_after. cbn [do_calls do_call].
    step_with (setListenerPosition_run _ _ _ _ _).
    pose (p := Float32Array.set
                 (Float32Array.set
                    (Float32Array.set
                       (Listener.position (Songbird._listener this)) 0%fin x)
                    1%fin y) 2%fin z).
    step_with (Ho p (Songbird.set_listener
                       (Listener.set_position p (Songbird._listener this))
                       this) _ eq_refl).
    reflexivity. }
  cbn [Songbird._listener Songbird.set_listener Listener.position
       Listener.set_position Listener.set_tempMatrix4].
  apply three_writes.
Qed.

(** X16. [setListenerFromMatrix] keeps nothing of earlier calls in the
    scene's own state: after calls that create no source, the scene it
    returns (the listener's position and matrix, the collection, the
    handles) and the events of the call itself (the matrix pushed, the
    position given to the room, the sources updated) are those of calling
    it first. What the earlier calls told the room and the renderer is not
    undone: their events come first in the trace. *)
Theorem setListenerFromMatrix_overrides deps (cs : list call)
    (elements : list num) (this : Songbird.t) (w : world)
    (Hcs : creations cs = 0%nat) :
  exists this1 w1 this' w' w2 es own,
    do_calls deps cs this w = Ok this1 w1
    /\ trace w1 = trace w ++ es
    /\ do_calls deps (cs ++ [SetListenerFromMatrix elements]) this w
       = Ok this' w'
    /\ trace w' = trace w ++ es ++ own
    /\ do_calls deps [SetListenerFromMatrix elements] this w = Ok this' w2
    /\ trace w2 = trace w ++ own.
Proof.
  destruct (do_calls_spec deps cs this w)
    as (this1 & es & Hrun1 & Hs1 & Hh1 & Hm1 & _).
  rewrite Hcs in Hrun1, Hs1. cbn [seq replicate] in Hrun1, Hs1.
  rewrite app_nil_r in Hs1.
  destruct (setListenerFromMatrix_run elements this w)
    as (m & Hrun & Hrows & Hrest).
  match type of Hrun1 with
  | _ = Ok _ ?w1 =>
      destruct (setListenerFromMatrix_run elements this1 w1)
        as (m' & Hrun' & Hrows' & Hrest')
  end.
  cbv zeta in Hrun, Hrun'.
  assert (Hm : m' = m).
  { apply rows_determine; [congruence|].
    unfold matrix_rest in Hm1. congruence. }
  subst m'.
  assert (Hthis : forall p,
             Songbird.set_listener
               (Listener.set_position p
                  (Listener.set_tempMatrix4 m (Songbird._listener this1)))
               this1 =
             Songbird.set_listener
               (Listener.set_position p
                  (Listener.set_tempMatrix4 m (Songbird._listener this)))
               this).
  { intros p. destruct Hh1 as (?&?&?&?&?&?&?&?&?&?).
    destruct this as [o s r l c out aout],
      this1 as [o1 s1 r1 l1 c1 out1 aout1].
    destruct l as [pos mt lc lr li la lo],
      l1 as [pos1 mt1 lc1 lr1 li1 la1 lo1].
    cbn in *. subst. reflexivity. }
  destruct Hh1 as (Hroom & _ & _ & _ & _ & Hrenderer & _).
  rewrite Hthis, Hroom, Hrenderer, Hs1 in Hrun'.
  eexists this1, _, _, _, _, es, _.
  split; [exact Hrun1|]. split; [reflexivity|]. split.
  { rewrite do_calls_app. step_with Hrun1. cbn [do_calls do_call].
    step_with Hrun'. unfold ret. reflexivity. }
  split; [cbn [trace with_trace]; now rewrite <- app_assoc|].
  split.
  { cbn [do_calls do_call]. step_with Hrun. unfold ret. reflexivity. }
  reflexivity.
Qed.

Lemma setListenerFromMatrix_overrides_witness :
  exists this1 w1 this' w' w2 es own,
    do_calls Sample.deps
      [SetListenerPosition one one one;
       SetListenerOrientation one zero zero zero one zero;
       SetRoomProperties (Some 10%nat) None]
      Sample.scene0 Sample.scene_world = Ok this1 w1
    /\ trace w1 = trace Sample.scene_world ++ es
    /\ do_calls Sample.deps
         ([SetListenerPosition one one one;
           SetListenerOrientation one zero zero zero one zero;
           SetRoomProperties (Some 10%nat) None]
          ++ [SetListenerFromMatrix Sample.matrix_tenth])
         Sample.scene0 Sample.scene_world = Ok this' w'
    /\ trace w' = trace Sample.scene_world ++ es ++ own
    /\ do_calls Sample.deps [SetListenerFromMatrix Sample.matrix_tenth]
         Sample.scene0 Sample.scene_world = Ok this' w2
    /\ trace w2 = trace Sample.scene_world ++ own.
Proof.
  apply (setListenerFromMatrix_overrides Sample.deps
           [SetListenerPosition one one one;
            SetListenerOrientation one zero zero zero one zero;
            SetRoomProperties (Some 10%nat) None]
           Sample.matrix_tenth Sample.scene0 Sample.scene_world).
  reflexivity.
Defined.

(** ** Scene: from construction on *)

(** X17. Over the life of a scene the renderer is given one matrix by the
    constructor and one by every later [setListenerOrientation] or
    [setListenerFromMatrix], and each of them has zeros in its elements 9
    to 15: only the nine elements of the rotation are ever written. The
    listener's position holds binary32 numbers throughout. *)
Theorem scene_pushes_rotations deps (ctx l : loc) (o : SongbirdOptions)
    (w : world) (fs us : list num) (cs : list call)
    (Hl : heap w !! l = Some (COptions o))
    (Hf : field_array (heap w) (listenerForward o)
            (Utils_DEFAULT_FORWARD deps) = Some fs)
    (Hu : field_array (heap w) (listenerUp o) (Utils_DEFAULT_UP deps)
          = Some us) :
  exists this w1 this' w' es,
    Songbird.Songbird deps ctx (Some l) w = Ok this w1
    /\ do_calls deps cs this w1 = Ok this' w'
    /\ trace w' = trace w ++ es
    /\ length (pushed es) = S (number turns cs)
    /\ Forall (fun m => drop 9 (vec_to_list m)
                        = replicate 7 (S754_zero false)) (pushed es)
    /\ float32_valued (Listener.position (Songbird._listener this')).
Proof.
  destruct (Songbird_run deps ctx l o w fs us Hl Hf Hu)
    as (this & w1 & wf & o' & Hrun & _ & _ & _ & _ & _ & _ & _ & _ & _
        & _ & _ & _ & _ & _ & _ & lp & ld & lm & speed & _ & _ & _ & _
        & Htrace).
  destruct (Songbird_inv deps ctx l w this w1 Hrun)
    as (wf' & order & lp' & lf & lu & m & _ & _ & Hthis & Hm).
  destruct (do_calls_spec deps cs this w1)
    as (this' & es & Hcalls & _ & _ & _ & _ & Hp & Hn & Hfl).
  cbv zeta in Htrace, Hthis.
  assert (Hrest : matrix_rest this = replicate 7 (S754_zero false))
    by (subst this; exact Hm).
  assert (Hpos : Listener.position (Songbird._listener this)
                 = Float32Array.make 3) by (now subst this).
  exists this, w1, this'. eexists _, _. split; [exact Hrun|].
  split; [exact Hcalls|]. cbn [trace]. rewrite Htrace, <- app_assoc.
  split; [reflexivity|]. rewrite pushed_app, length_app, Hn.
  split; [reflexivity|]. split.
  - apply Forall_app. split.
    + repeat constructor. exact Hrest.
    + now rewrite <- Hrest.
  - apply Hfl. rewrite Hpos. repeat constructor.
Qed.

Lemma scene_pushes_rotations_witness :
  exists this w1 this' w' es,
    Songbird.Songbird Sample.deps 0%nat (Some 1%nat)
      (Sample.options_world Sample.first_order) = Ok this w1
    /\ do_calls Sample.deps
         [SetListenerFromMatrix Sample.matrix_tenth; CreateSource None;
          SetListenerOrientation one zero zero zero one zero]
         this w1 = Ok this' w'
    /\ trace w' = [] ++ es
    /\ length (pushed es) = 3%nat.
Proof.
  destruct (scene_pushes_rotations Sample.deps 0%nat 1%nat
              Sample.first_order (Sample.options_world Sample.first_order)
              [zero; zero; one] [zero; one; zero]
              [SetListenerFromMatrix Sample.matrix_tenth; CreateSource None;
               SetListenerOrientation one zero zero zero one zero]
              eq_refl eq_refl eq_refl)
    as (this & w1 & this' & w' & es & Hrun & Hcalls & Htrace & Hn & _).
  exists this, w1, this', w', es. auto.
Defined.

(** X18. Two scenes constructed from the same option object share what
    the first construction left in it: both rooms are given the same
    position array, the same dimensions object and the same materials
    object (by reference), and the same speed of sound; the scenes have
    the same ambisonic order, and their rooms are different objects. *)
Theorem Songbird_shared_options deps (ctx ctx2 l : loc)
    (o : SongbirdOptions) (w : world) (fs us : list num)
    (Hl : heap w !! l = Some (COptions o))
    (Hf : field_array (heap w) (listenerForward o)
            (Utils_DEFAULT_FORWARD deps) = Some fs)
    (Hu : field_array (heap w) (listenerUp o) (Utils_DEFAULT_UP deps)
          = Some us) :
  exists this1 w1 this2 w2 lp ld lm speed,
    Songbird.Songbird deps ctx (Some l) w = Ok this1 w1
    /\ Songbird.Songbird deps ctx2 (Some l) w1 = Ok this2 w2
    /\ In (ENewRoom (Songbird._room this1) lp ld lm speed) (trace w1)
    /\ In (ENewRoom (Songbird._room this2) lp ld lm speed) (trace w2)
    /\ Songbird._room this1 <> Songbird._room this2
    /\ Songbird._ambisonicOrder this2 = Songbird._ambisonicOrder this1.
Proof.
  destruct (Songbird_run deps ctx l o w fs us Hl Hf Hu)
    as (this & w' & wf & o' & Hrun & Hfill & Hg & Hext & _ & Hl' & Ho & Hp
        & Hfw & Hup & Hd & Hm & Hs & _ & Horder & _ & lp & ld & lm & speed
        & Elp & Eld & Elm & Es & Htrace).
  assert (Hlw' : heap w' !! l = Some (COptions o')) by auto.
  destruct (filled_ref_Some _ _ _ _ _ Hfw) as (lf & Elf).
  destruct (filled_ref_Some _ _ _ _ _ Hup) as (lu & Elu).
  pose proof (filled_ref_array _ _ _ _ _ _ _ _ _ Hl Hg Hfw Hf Elf) as Hlf.
  pose proof (filled_ref_array _ _ _ _ _ _ _ _ _ Hl Hg Hup Hu Elu) as Hlu.
  destruct (Songbird_run deps ctx2 l o' w' fs us Hlw')
    as (this2 & w'' & wf2 & o'' & Hrun2 & Hfill2 & Hg2 & _ & _ & _ & Ho2
        & Hp2 & Hfw2 & Hup2 & Hd2 & Hm2 & Hs2 & _ & Horder2 & _ & lp2 & ld2
        & lm2 & speed2 & Elp2 & Eld2 & Elm2 & Es2 & Htrace2).
  { rewrite Elf. unfold field_array. now rewrite (Hext _ _ Hlf). }
  { rewrite Elu. unfold field_array. now rewrite (Hext _ _ Hlu). }
  assert (Efix : o'' = o').
  { apply (Songbird_options_fixpoint deps o' o'' (heap w') (heap wf2));
      eauto using filled_ref_Some. }
  subst o''.
  rewrite Elp in Elp2. injection Elp2 as <-.
  rewrite Eld in Eld2. injection Eld2 as <-.
  rewrite Elm in Elm2. injection Elm2 as <-.
  rewrite Es in Es2. injection Es2 as <-.
  destruct (Songbird_inv deps ctx l w this w' Hrun)
    as (wf' & ? & ? & ? & ? & ? & Hfill' & Hheap & Hthis & _).
  rewrite Hfill in Hfill'. injection Hfill' as <-.
  destruct (Songbird_inv deps ctx2 l w' this2 w'' Hrun2)
    as (wf2' & ? & ? & ? & ? & ? & Hfill2' & _ & Hthis2 & _).
  rewrite Hfill2 in Hfill2'. injection Hfill2' as <-.
  pose proof (grows_except_length _ _ _ Hg2) as Hlen.
  rewrite Hheap, length_app in Hlen. cbn [length] in Hlen.
  exists this, w', this2, w'', lp, ld, lm, speed.
  split; [exact Hrun|]. split; [exact Hrun2|].
  cbv zeta in Htrace, Htrace2, Hthis, Hthis2.
  split; [rewrite Htrace; apply in_or_app; right; now left|].
  split; [rewrite Htrace2; apply in_or_app; right; now left|].
  split.
  - rewrite Hthis, Hthis2. cbn [Songbird._room]. lia.
  - rewrite <- Horder in Horder2. now injection Horder2.
Qed.

Lemma Songbird_shared_options_witness :
  exists this1 w1 this2 w2 lp ld lm speed,
    Songbird.Songbird Sample.deps 0%nat (Some 1%nat)
      (Sample.options_world Sample.first_order) = Ok this1 w1
    /\ Songbird.Songbird Sample.deps 0%nat (Some 1%nat) w1 = Ok this2 w2
    /\ In (ENewRoom (Songbird._room this1) lp ld lm speed) (trace w1)
    /\ In (ENewRoom (Songbird._room this2) lp ld lm speed) (trace w2)
    /\ Songbird._room this1 <> Songbird._room this2
    /\ Songbird._ambisonicOrder this2 = Songbird._ambisonicOrder this1.
Proof.
  apply (Songbird_shared_options Sample.deps 0%nat 0%nat 1%nat
           Sample.first_order (Sample.options_world Sample.first_order)
           [zero; zero; one] [zero; one; zero]); reflexivity.
Defined.

(** ** Listener: the option object of the caller *)

Lemma Listener_fill_defaults_filled deps (l : loc) (o : ListenerOptions)
    (w : world) (order : num) :
  heap w !! l = Some (CListenerOptions o) ->
  l_ambisonicOrder o = Some order ->
  exists w' o',
    Listener.fill_defaults deps l w = Ok tt w'
    /\ grows_except l w w'
    /\ heap w' !! l = Some (CListenerOptions o')
    /\ l_ambisonicOrder o' = Some order
    /\ filled_ref (heap w) (heap w') (l_position o) (l_position o')
         (CArray (Utils_DEFAULT_POSITION deps))
    /\ filled_ref (heap w) (heap w') (l_forward o) (l_forward o')
         (CArray (Utils_DEFAULT_FORWARD deps))
    /\ filled_ref (heap w) (heap w') (l_up o) (l_up o')
         (CArray (Utils_DEFAULT_UP deps)).
Proof.
  intros Hl Horder.
  pose proof (lookup_lt_Some _ _ _ Hl) as Hlt.
  unfold Listener.fill_defaults.
  rewrite (bind_Ok _ _ _ _ _
             (default_field_present _ _ _ _ _ _ _ _ _
                (Listener_load_options_ok _ _ _ Hl) Horder)).
  destruct (default_slice CListenerOptions Listener.load_options
              l_position Listener.set_l_position Listener.scope
              "Utils" (Utils_DEFAULT_POSITION deps) l o w)
    as (w2 & Hrun2 & Hg2 & Hl2 & Hn2); auto using Listener_load_options_ok.
  step_with Hrun2.
  destruct (default_slice CListenerOptions Listener.load_options
              l_forward Listener.set_l_forward Listener.scope
              "Utils" (Utils_DEFAULT_FORWARD deps) l _ w2
              ltac:(auto using Listener_load_options_ok) Hl2 eq_refl)
    as (w3 & Hrun3 & Hg3 & Hl3 & Hn3).
  step_with Hrun3.
  destruct (default_slice CListenerOptions Listener.load_options
              l_up Listener.set_l_up Listener.scope
              "Utils" (Utils_DEFAULT_UP deps) l _ w3
              ltac:(auto using Listener_load_options_ok) Hl3 eq_refl)
    as (w4 & Hrun4 & Hg4 & Hl4 & Hn4).
  assert (Hg13 : grows_except l w w3) by eauto using grows_except_trans.
  assert (Hg14 : grows_except l w w4) by eauto using grows_except_trans.
  assert (Hg24 : grows_except l w2 w4) by eauto using grows_except_trans.
  pose proof (filled_ref_intro l w w w2 w4 (l_position o)
                (CArray (Utils_DEFAULT_POSITION deps)) Hlt
                (grows_except_refl l w) Hg24) as Hp.
  pose proof (filled_ref_intro l w w2 w3 w4 (l_forward o)
                (CArray (Utils_DEFAULT_FORWARD deps)) Hlt Hg2 Hg4) as Hfw.
  pose proof (filled_ref_intro l w w3 w4 w4 (l_up o)
                (CArray (Utils_DEFAULT_UP deps)) Hlt Hg13
                (grows_except_refl l w4)) as Hup.
  destruct o as [oo op ofw oup]. cbn [l_ambisonicOrder l_position l_forward
                                      l_up] in *.
  exists w4. eexists. split; [exact Hrun4|]. split; [exact Hg14|].
  split; [exact Hl4|]. subst oo. unfold fill_with in *.
  destruct op as [p|], ofw as [f|], oup as [u|];
    cbn [l_ambisonicOrder l_position l_forward l_up
         Listener.set_l_position Listener.set_l_forward Listener.set_l_up]
      in *;
    (split; [reflexivity|]);
    (split; [apply Hp; auto|]); (split; [apply Hfw; auto|]); apply Hup; auto.
Qed.

(** X19. The [Listener] constructor, too, writes its defaults into the
    option object of the caller: given an ambisonic order, it leaves in
    that object, for each of position, forward and up, the reference the
    caller gave or else a reference to a new copy of the default; the
    order is left as it was. *)
Theorem Listener_fills_caller_options deps (ctx l : loc)
    (o : ListenerOptions) (w : world) (order : num) (fs us : list num)
    (Hl : heap w !! l = Some (CListenerOptions o))
    (Horder : l_ambisonicOrder o = Some order)
    (Hf : field_array (heap w) (l_forward o) (Utils_DEFAULT_FORWARD deps)
          = Some fs)
    (Hu : field_array (heap w) (l_up o) (Utils_DEFAULT_UP deps) = Some us) :
  exists this w' o',
    Listener.Listener deps ctx (Some l) w = Ok this w'
    /\ heap w' !! l = Some (CListenerOptions o')
    /\ l_ambisonicOrder o' = Some order
    /\ filled_ref (heap w) (heap w') (l_position o) (l_position o')
         (CArray (Utils_DEFAULT_POSITION deps))
    /\ filled_ref (heap w) (heap w') (l_forward o) (l_forward o')
         (CArray (Utils_DEFAULT_FORWARD deps))
    /\ filled_ref (heap w) (heap w') (l_up o) (l_up o')
         (CArray (Utils_DEFAULT_UP deps))
    /\ heap_grows l (heap w) (heap w').
Proof.
  destruct (Listener_run deps ctx l o w order fs us Hl Horder Hf Hu)
    as (this & w' & Hrun & _ & _ & Hgrows & _).
  destruct (Listener_fill_defaults_filled deps l o w order Hl Horder)
    as (w1 & o' & Hfill & _ & Hl' & Ho' & Hp & Hfw & Hup).
  destruct (Listener_inv deps ctx l w this w' Hrun)
    as (w1' & m & Hfill' & Hheap & _).
  rewrite Hfill in Hfill'. injection Hfill' as <-.
  assert (Hext : heap_extends (heap w1) (heap w')).
  { intros k c Hk. rewrite Hheap. now apply lookup_app_l_Some. }
  exists this, w', o'. split; [exact Hrun|]. split; [now apply Hext|].
  split; [exact Ho'|].
  split; [exact (filled_ref_extends _ _ _ _ _ _ Hp Hext)|].
  split; [exact (filled_ref_extends _ _ _ _ _ _ Hfw Hext)|].
  split; [exact (filled_ref_extends _ _ _ _ _ _ Hup Hext)|exact Hgrows].
Qed.

Lemma Listener_fills_caller_options_witness :
  exists this w' o',
    Listener.Listener Sample.deps 0%nat (Some 1%nat)
      {| heap := [CExternal KAudioContext;
                  CListenerOptions
                    (Listener.set_l_ambisonicOrder one
                       Listener.empty_options)];
         trace := []; globals := [] |} = Ok this w'
    /\ heap w' !! 1%nat = Some (CListenerOptions o')
    /\ l_ambisonicOrder o' = Some one
    /\ l_position o' = Some 2%nat /\ l_forward o' = Some 3%nat
    /\ l_up o' = Some 4%nat.
Proof.
  destruct (Listener_fills_caller_options Sample.deps 0%nat 1%nat
              (Listener.set_l_ambisonicOrder one Listener.empty_options)
              {| heap := [CExternal KAudioContext;
                          CListenerOptions
                            (Listener.set_l_ambisonicOrder one
                               Listener.empty_options)];
                 trace := []; globals := [] |}
              one [zero; zero; one] [zero; one; zero]
              eq_refl eq_refl eq_refl eq_refl)
    as (this & w' & o' & Hrun & Hl & Ho & _).
  exists this, w', o'. split; [exact Hrun|]. split; [exact Hl|].
  split; [exact Ho|].
  vm_compute in Hrun. injection Hrun as _ <-. cbn in Hl.
  injection Hl as <-. repeat split.
Defined.
